(** * Vyntra workflow engine: a shallow embedding of the execution core

    This development embeds the TypeScript sources of the Vyntra workflow
    engine:
    - [apps/web/src/lib/simulate.ts]      : the in-browser simulated engine;
    - [supabase/functions/run-workflow]   : the live engine (part_005);
    - [shared/schema/workflow.ts]         : the zod document schema (part_007);
    - [apps/web/src/lib/semanticEdit.ts]  : the semantic edit commands and
                                            [validateWorkflowDoc].

    Modelling conventions.
    - JS strings are Rocq [string]s, read as sequences of 8-bit code units
      (ASCII and Latin-1); case mapping and white space are those of JS on
      that range.
    - JS numbers are exact rationals extended with NaN and the two
      infinities ([num]); rounding to doubles is not modelled.
    - JS values reached by the engine are [jval]: JSON data plus the
      built-in functions and prototype objects that the [in] operator and
      property reads can reach through the prototype chain.
    - Objects are association lists of their own properties, kept in JS
      property order (array-index keys first, ascending; then other keys
      in insertion order). Assignment is [obj_set] in Deno and [assign]
      in the browser, where [__proto__] reaches an inherited setter.
    - Exceptions are the [None] / [Err] branch of the result types.
    - Host built-ins whose result depends on the runtime ([JSON.parse] and
      [String.prototype.localeCompare]) are the fields of a [Host] record. *)

From Stdlib Require Import String Ascii List Bool ZArith QArith Lia.
Import ListNotations.
Open Scope string_scope.
Open Scope nat_scope.
Set Warnings "-register-all".

(* ================================================================== *)
(** ** JS string primitives *)

Module JsStr.

(** [\s] and the characters removed by [String.prototype.trim]. *)
Definition is_ws (c : ascii) : bool :=
  let n := nat_of_ascii c in
  (n =? 9) || (n =? 10) || (n =? 11) || (n =? 12) || (n =? 13)
  || (n =? 32) || (n =? 160).

(** Line terminators: the characters [.] does not match. *)
Definition is_lt (c : ascii) : bool :=
  let n := nat_of_ascii c in (n =? 10) || (n =? 13).

Definition is_digit (c : ascii) : bool :=
  let n := nat_of_ascii c in (48 <=? n) && (n <=? 57).

Definition chars (s : string) : list ascii := list_ascii_of_string s.
Definition of_chars (l : list ascii) : string := string_of_list_ascii l.

Fixpoint ltrim (l : list ascii) : list ascii :=
  match l with
  | c :: r => if is_ws c then ltrim r else l
  | [] => []
  end.

(** [String.prototype.trim]. *)
Definition trim (s : string) : string :=
  of_chars (rev (ltrim (rev (ltrim (chars s))))).

(** [String.prototype.toLowerCase] on code units below 256. *)
Definition lower_char (c : ascii) : ascii :=
  let n := nat_of_ascii c in
  if ((65 <=? n) && (n <=? 90)) || ((192 <=? n) && (n <=? 222) && negb (n =? 215))
  then ascii_of_nat (n + 32) else c.

Definition toLowerCase (s : string) : string :=
  of_chars (map lower_char (chars s)).

Definition startsWith (s p : string) : bool := String.prefix p s.

Definition endsWith (s p : string) : bool :=
  String.prefix (of_chars (rev (chars p))) (of_chars (rev (chars s))).

(** [s.includes(t)]. *)
Definition includes (s t : string) : bool :=
  match String.index 0 t s with Some _ => true | None => false end.

(** [s.slice(a, b)] for [0 <= a <= b]. *)
Definition slice (s : string) (a b : nat) : string :=
  of_chars (firstn (b - a) (skipn a (chars s))).

(** [s.slice(1, -1)]. *)
Definition slice_inner (s : string) : string :=
  let l := chars s in of_chars (firstn (length l - 2) (skipn 1 l)).

(** [s.indexOf(t)] and [s.lastIndexOf(t)] for a one-character [t];
    [None] is [-1]. *)
Fixpoint index_of_char (c : ascii) (l : list ascii) (i : nat) : option nat :=
  match l with
  | [] => None
  | d :: r => if Ascii.eqb c d then Some i else index_of_char c r (S i)
  end.

Definition indexOf (s : string) (c : ascii) : option nat :=
  index_of_char c (chars s) 0.

Definition lastIndexOf (s : string) (c : ascii) : option nat :=
  let l := chars s in
  match index_of_char c (rev l) 0 with
  | Some j => Some (length l - 1 - j)
  | None => None
  end.

(** [xs.join(sep)]. *)
Fixpoint join (sep : string) (xs : list string) : string :=
  match xs with
  | [] => ""
  | [x] => x
  | x :: r => x ++ sep ++ join sep r
  end.

(** The double-quote character (code 34). *)
Definition dq : ascii := ascii_of_nat 34.

(** [s.replace(/Q/g, QQ)] where Q is the double-quote character. *)
Fixpoint double_quotes (l : list ascii) : list ascii :=
  match l with
  | [] => []
  | c :: r =>
      if Ascii.eqb c dq then c :: c :: double_quotes r
      else c :: double_quotes r
  end.

End JsStr.

(* ================================================================== *)
(** ** JS numbers *)

Module JsNum.
Import JsStr.

(** A JS number: a finite value (as an exact rational), NaN, or an
    infinity ([NInf true] is [+Infinity]). *)
Inductive num : Type :=
| NFin (q : Q)
| NNaN
| NInf (pos : bool).

Definition Qlt_bool (x y : Q) : bool := negb (Qle_bool y x).

Definition zero : num := NFin 0.

Definition isNaN (n : num) : bool := match n with NNaN => true | _ => false end.

(** [Number.isFinite] on a number. *)
Definition isFinite (n : num) : bool := match n with NFin _ => true | _ => false end.

(** [===] on numbers. *)
Definition eqb (a b : num) : bool :=
  match a, b with
  | NFin x, NFin y => Qeq_bool x y
  | NInf p, NInf q => Bool.eqb p q
  | _, _ => false
  end.

(** The abstract relational comparison [a < b]: [None] is undefined
    (an operand is NaN). *)
Definition lt_opt (a b : num) : option bool :=
  match a, b with
  | NNaN, _ | _, NNaN => None
  | NFin x, NFin y => Some (Qlt_bool x y)
  | NInf p, NInf q => Some (negb p && q)
  | NInf p, NFin _ => Some (negb p)
  | NFin _, NInf q => Some q
  end.

(** [a < b], [a > b], [a <= b], [a >= b] as JS evaluates them. *)
Definition lt (a b : num) : bool :=
  match lt_opt a b with Some r => r | None => false end.
Definition gt (a b : num) : bool := lt b a.
Definition le (a b : num) : bool :=
  match lt_opt b a with Some r => negb r | None => false end.
Definition ge (a b : num) : bool := le b a.

(** [Math.max(0, Math.min(1, x))] on a finite [x]. *)
Definition clamp01 (q : Q) : Q :=
  if Qlt_bool 1 q then 1 else if Qlt_bool q 0 then 0 else q.

(** *** StringToNumber *)

Definition digit_val (c : ascii) : Z := Z.of_nat (nat_of_ascii c - 48).

Fixpoint digits_val (acc : Z) (l : list ascii) : Z :=
  match l with [] => acc | c :: r => digits_val (10 * acc + digit_val c) r end.

Fixpoint span_digits (l : list ascii) : list ascii * list ascii :=
  match l with
  | c :: r => if is_digit c then let (d, rest) := span_digits r in (c :: d, rest)
              else ([], l)
  | [] => ([], [])
  end.

Definition radix_digit (radix : Z) (c : ascii) : option Z :=
  let n := Z.of_nat (nat_of_ascii c) in
  let v := (if (48 <=? n) && (n <=? 57) then n - 48
           else if (97 <=? n) && (n <=? 102) then n - 87
           else if (65 <=? n) && (n <=? 70) then n - 55
           else 99)%Z in
  if (v <? radix)%Z then Some v else None.

Fixpoint radix_val (radix acc : Z) (l : list ascii) : option Z :=
  match l with
  | [] => Some acc
  | c :: r => match radix_digit radix c with
              | Some d => radix_val radix (radix * acc + d) r
              | None => None
              end
  end.

Definition pow10 (k : nat) : Z := Z.pow 10 (Z.of_nat k).

(** [m * 10^e] as a rational. *)
Definition scale (m : Z) (e : Z) : Q :=
  if (0 <=? e)%Z then inject_Z (m * Z.pow 10 e)
  else Qmake m (Z.to_pos (Z.pow 10 (- e))).

(** The unsigned decimal literal [digits [. digits] [(e|E) [+|-] digits]]. *)
Definition parse_unsigned_decimal (l : list ascii) : option Q :=
  let (d1, r1) := span_digits l in
  let '(d2, r2) :=
    match r1 with
    | c :: r => if Ascii.eqb c "."%char then span_digits r else ([], r1)
    | [] => ([], [])
    end in
  match d1, d2 with
  | [], [] => None
  | _, _ =>
    let m := digits_val 0 (d1 ++ d2)%list in
    let e0 := (- Z.of_nat (length d2))%Z in
    match r2 with
    | [] => Some (scale m e0)
    | c :: r =>
      if Ascii.eqb c "e"%char || Ascii.eqb c "E"%char then
        let '(sgn, r') :=
          match r with
          | s :: r'' => if Ascii.eqb s "+"%char then (1%Z, r'')
                        else if Ascii.eqb s "-"%char then ((-1)%Z, r'')
                        else (1%Z, r)
          | [] => (1%Z, r)
          end in
        let (de, rest) := span_digits r' in
        match de, rest with
        | _ :: _, [] => Some (scale m (e0 + sgn * digits_val 0 de))
        | _, _ => None
        end
      else None
    end
  end.

Definition parse_signed (l : list ascii) : num :=
  let '(neg, body) :=
    match l with
    | c :: r => if Ascii.eqb c "-"%char then (true, r)
                else if Ascii.eqb c "+"%char then (false, r) else (false, l)
    | [] => (false, l)
    end in
  if list_eq_dec ascii_dec body (chars "Infinity") then NInf (negb neg)
  else match parse_unsigned_decimal body with
       | Some q => NFin (if neg then Qopp q else q)
       | None => NNaN
       end.

Definition parse_radix (radix : Z) (l : list ascii) : num :=
  match l with
  | [] => NNaN
  | _ => match radix_val radix 0 l with Some z => NFin (inject_Z z) | None => NNaN end
  end.

(** [Number(s)] for a string [s]. *)
Definition of_string (s : string) : num :=
  let l := rev (ltrim (rev (ltrim (chars s)))) in
  match l with
  | [] => zero
  | z :: x :: r =>
    if Ascii.eqb z "0"%char then
      if Ascii.eqb x "x"%char || Ascii.eqb x "X"%char then parse_radix 16 r
      else if Ascii.eqb x "o"%char || Ascii.eqb x "O"%char then parse_radix 8 r
      else if Ascii.eqb x "b"%char || Ascii.eqb x "B"%char then parse_radix 2 r
      else parse_signed l
    else parse_signed l
  | _ => parse_signed l
  end.

(** *** Number::toString *)

Fixpoint digits_of_pos_aux (fuel : nat) (z : Z) (acc : list ascii) : list ascii :=
  match fuel with
  | O => acc
  | S f =>
    if (z <? 10)%Z then ascii_of_nat (48 + Z.to_nat z) :: acc
    else digits_of_pos_aux f (z / 10) (ascii_of_nat (48 + Z.to_nat (z mod 10)) :: acc)
  end.

(** Decimal digits of a non-negative integer. *)
Definition z_digits (z : Z) : list ascii :=
  digits_of_pos_aux (S (Z.to_nat (Z.log2 z))) z [].

Fixpoint strip_zeros (fuel : nat) (m : Z) (z : nat) : Z * nat :=
  match fuel with
  | O => (m, z)
  | S f => if (m mod 10 =? 0)%Z then strip_zeros f (m / 10) (S z) else (m, z)
  end.

Fixpoint pval (p q : Z) (fuel : nat) : nat :=
  match fuel with
  | O => O
  | S f => if (q mod p =? 0)%Z then S (pval p (q / p) f) else O
  end.

(** The significant digits and the decimal exponent [n] of a positive
    rational: [x = 0.d1 d2 ... dk * 10^n]. A non-terminating expansion is
    cut after 20 decimals. *)
Definition sig_digits (x : Q) : list ascii * Z :=
  let a := Qnum x in
  let b := Zpos (Qden x) in
  let f := S (Z.to_nat (Z.log2 b)) in
  let t2 := pval 2 b f in
  let t5 := pval 5 b f in
  let terminating := (b =? Z.pow 2 (Z.of_nat t2) * Z.pow 5 (Z.of_nat t5))%Z in
  let t := if terminating then Nat.max t2 t5 else 20%nat in
  let m := (a * pow10 t / b)%Z in
  let (m', z) := strip_zeros (S (Z.to_nat (Z.log2 m))) m 0 in
  let ds := z_digits m' in
  (ds, (Z.of_nat (length ds) + Z.of_nat z - Z.of_nat t)%Z).

Definition zeros (k : nat) : list ascii := repeat "0"%char k.

Definition exp_string (e : Z) : list ascii :=
  (if (e <? 0)%Z then "-"%char else "+"%char) :: z_digits (Z.abs e).

(** Number::toString for a positive finite value. *)
Definition pos_to_string (x : Q) : string :=
  let (ds, n) := sig_digits x in
  let k := Z.of_nat (length ds) in
  of_chars
    (if (k <=? n)%Z && (n <=? 21)%Z then (ds ++ zeros (Z.to_nat (n - k)))%list
     else if (0 <? n)%Z && (n <=? 21)%Z then
       (firstn (Z.to_nat n) ds ++ "."%char :: skipn (Z.to_nat n) ds)%list
     else if (-6 <? n)%Z && (n <=? 0)%Z then
       ("0"%char :: "."%char :: zeros (Z.to_nat (- n)) ++ ds)%list
     else match ds with
          | [d] => (d :: "e"%char :: exp_string (n - 1))%list
          | d :: r => (d :: "."%char :: r ++ "e"%char :: exp_string (n - 1))%list
          | [] => []
          end).

(** [String(n)] for a number. *)
Definition to_string (n : num) : string :=
  match n with
  | NNaN => "NaN"
  | NInf true => "Infinity"
  | NInf false => "-Infinity"
  | NFin q =>
    if Qeq_bool q 0 then "0"
    else if Qlt_bool q 0 then "-" ++ pos_to_string (Qopp q)
    else pos_to_string q
  end.

End JsNum.

(* ================================================================== *)
(** ** JS values *)

Module JsVal.
Import JsStr JsNum.

(** A JS value reachable by the engine. [JFunc] is a built-in function
    (named) and [JProto a] is [Array.prototype] when [a] is true and
    [Object.prototype] otherwise; both are reached only through the
    prototype chain. *)
Inductive jval : Type :=
| JUndef
| JNull
| JBool (b : bool)
| JNum (n : num)
| JStr (s : string)
| JArr (xs : list jval)
| JObj (fs : list (string * jval))
| JFunc (name : string)
| JProto (arr : bool).

(** *** Property keys and property order *)

(** A canonical array index: a canonical decimal integer below [2^32 - 1]. *)
Definition array_index (k : string) : option Z :=
  match chars k with
  | [] => None
  | l =>
    if forallb is_digit l then
      match l with
      | z :: _ :: _ => if Ascii.eqb z "0"%char then None
                       else let v := digits_val 0 l in
                            if (v <? 4294967295)%Z then Some v else None
      | _ => let v := digits_val 0 l in
             if (v <? 4294967295)%Z then Some v else None
      end
    else None
  end.

Fixpoint lookup (k : string) (fs : list (string * jval)) : option jval :=
  match fs with
  | [] => None
  | (k', v) :: r => if String.eqb k k' then Some v else lookup k r
  end.

(** [o[k] = v] on an ordinary object: an existing key keeps its place; a
    new array-index key goes before the first non-index key or greater
    index; any other new key is appended. *)
Fixpoint insert_index (i : Z) (k : string) (v : jval) (fs : list (string * jval))
  : list (string * jval) :=
  match fs with
  | [] => [(k, v)]
  | (k', v') :: r =>
    match array_index k' with
    | Some j => if (i <? j)%Z then (k, v) :: fs else (k', v') :: insert_index i k v r
    | None => (k, v) :: fs
    end
  end.

Fixpoint replace_key (k : string) (v : jval) (fs : list (string * jval))
  : list (string * jval) :=
  match fs with
  | [] => []
  | (k', v') :: r => if String.eqb k k' then (k', v) :: r else (k', v') :: replace_key k v r
  end.

(** Creating or updating the own data property [k]: what
    [CreateDataProperty] does ([Object.fromEntries], [JSON.parse], object
    literals), and what [o[k] = v] does when no accessor for [k] is
    inherited (every key in Deno, whose [Object.prototype] has no
    [__proto__] accessor). *)
Definition obj_set (k : string) (v : jval) (fs : list (string * jval))
  : list (string * jval) :=
  match lookup k fs with
  | Some _ => replace_key k v fs
  | None =>
    match array_index k with
    | Some i => insert_index i k v fs
    | None => (fs ++ [(k, v)])%list
    end
  end.

(** [o[k] = v] on an ordinary object whose prototype is [Object.prototype]
    in a browser, where [Object.prototype.__proto__] is an accessor. An own
    [k] is updated. A [__proto__] the object does not own reaches the
    inherited setter, which ignores a primitive value and makes an object
    or [null] the new prototype: no own property is created, and the own
    properties, which are what the model keeps of an object, stay as they
    are. Every other property of [Object.prototype] is a writable data
    property, so any other [k] is created as an own property. *)
Definition assign (k : string) (v : jval) (fs : list (string * jval))
  : list (string * jval) :=
  if String.eqb k "__proto__" then
    match lookup k fs with
    | Some _ => obj_set k v fs
    | None => fs
    end
  else obj_set k v fs.

(** An object literal, keys set in order. *)
Definition mk_obj (kvs : list (string * jval)) : jval :=
  JObj (fold_left (fun acc kv => obj_set (fst kv) (snd kv) acc) kvs []).

(** [Object.keys(o)]. *)
Definition keys (fs : list (string * jval)) : list string := map fst fs.

(** *** The prototype chain *)

Definition object_proto_names : list string :=
  ["constructor"; "__defineGetter__"; "__defineSetter__"; "hasOwnProperty";
   "__lookupGetter__"; "__lookupSetter__"; "isPrototypeOf";
   "propertyIsEnumerable"; "toString"; "valueOf"; "__proto__";
   "toLocaleString"].

Definition array_proto_names : list string :=
  ["length"; "constructor"; "at"; "concat"; "copyWithin"; "fill"; "find";
   "findIndex"; "findLast"; "findLastIndex"; "lastIndexOf"; "pop"; "push";
   "reverse"; "shift"; "unshift"; "slice"; "sort"; "splice"; "includes";
   "indexOf"; "join"; "keys"; "entries"; "values"; "forEach"; "filter";
   "flat"; "flatMap"; "map"; "every"; "some"; "reduce"; "reduceRight";
   "toLocaleString"; "toString"; "toReversed"; "toSorted"; "toSpliced";
   "with"].

Definition mem (k : string) (l : list string) : bool := existsb (String.eqb k) l.

(** A property inherited from [Object.prototype]. *)
Definition object_proto_get (k : string) : option jval :=
  if String.eqb k "__proto__" then Some JNull
  else if mem k object_proto_names then Some (JFunc k) else None.

(** A property of [Array.prototype] (own or inherited). *)
Definition array_proto_get (k : string) : option jval :=
  if String.eqb k "length" then Some (JNum zero)
  else if String.eqb k "__proto__" then Some (JProto false)
  else if mem k array_proto_names then Some (JFunc k)
  else object_proto_get k.

(** [k in o] together with [o[k]]: [None] when [k in o] is false. Only
    defined for objects ([typeof o === "object"], [o] not null). *)
Definition get_in (k : string) (v : jval) : option jval :=
  match v with
  | JObj fs =>
    match lookup k fs with
    | Some x => Some x
    | None => if String.eqb k "__proto__" then Some (JProto false)
              else object_proto_get k
    end
  | JArr xs =>
    match array_index k with
    | Some i => if (i <? Z.of_nat (length xs))%Z
                then Some (nth (Z.to_nat i) xs JUndef) else None
    | None =>
      if String.eqb k "length" then Some (JNum (NFin (inject_Z (Z.of_nat (length xs)))))
      else if String.eqb k "__proto__" then Some (JProto true)
      else array_proto_get k
    end
  | JProto true => array_proto_get k
  | JProto false => object_proto_get k
  | _ => None
  end.

(** [Array.isArray(v)]. *)
Definition isArray (v : jval) : bool :=
  match v with JArr _ | JProto true => true | _ => false end.

(** [v && typeof v === "object"]. *)
Definition is_object (v : jval) : bool :=
  match v with JArr _ | JObj _ | JProto _ => true | _ => false end.

(** Truthiness. *)
Definition truthy (v : jval) : bool :=
  match v with
  | JUndef | JNull => false
  | JBool b => b
  | JNum (NFin q) => negb (Qeq_bool q 0)
  | JNum NNaN => false
  | JNum (NInf _) => true
  | JStr s => negb (String.eqb s "")
  | _ => true
  end.

(** [a ?? b]. *)
Definition nullish_or (a b : jval) : jval :=
  match a with JUndef | JNull => b | _ => a end.

(** *** ToString and ToNumber ([None] is a thrown TypeError) *)

(** ToPrimitive on an ordinary object, which only has data properties:
    an own [toString] or [valueOf] holding data is not callable, and the
    inherited [valueOf] returns the object itself. With hint string the
    order is [toString] then [valueOf]; with hint number it is [valueOf]
    then [toString]; either way only the inherited [toString] can produce a
    primitive. *)
Definition obj_to_primitive (fs : list (string * jval)) : option string :=
  match lookup "toString" fs with
  | Some (JFunc _) | None => Some "[object Object]"
  | Some _ => None
  end.

Fixpoint to_string (v : jval) : option string :=
  match v with
  | JUndef => Some "undefined"
  | JNull => Some "null"
  | JBool true => Some "true"
  | JBool false => Some "false"
  | JNum n => Some (JsNum.to_string n)
  | JStr s => Some s
  | JArr xs =>
    (* Array.prototype.toString joins with commas; null and undefined
       elements become the empty string *)
    let fix go (l : list jval) : option (list string) :=
      match l with
      | [] => Some []
      | x :: r =>
        match (match x with JUndef | JNull => Some "" | _ => to_string x end), go r with
        | Some s, Some ss => Some (s :: ss)
        | _, _ => None
        end
      end in
    match go xs with Some ss => Some (join "," ss) | None => None end
  | JObj fs => obj_to_primitive fs
  | JFunc name => Some ("function " ++ name ++ "() { [native code] }")
  | JProto false => Some "[object Object]"
  | JProto true => Some ""
  end.

(** [Number(v)]. *)
Definition to_number (v : jval) : option num :=
  match v with
  | JUndef => Some NNaN
  | JNull => Some zero
  | JBool b => Some (if b then NFin 1 else zero)
  | JNum n => Some n
  | JStr s => Some (of_string s)
  | JFunc _ => Some NNaN
  | _ => match to_string v with Some s => Some (of_string s) | None => None end
  end.

(** [===]. Objects are compared by identity: two object values are the
    same reference only when one was read from the other's location;
    [same_ref] records which comparisons of objects are identical. *)
Definition strict_equals (same_ref : jval -> jval -> bool) (a b : jval) : bool :=
  match a, b with
  | JUndef, JUndef | JNull, JNull => true
  | JBool x, JBool y => Bool.eqb x y
  | JNum x, JNum y => JsNum.eqb x y
  | JStr x, JStr y => String.eqb x y
  | JFunc x, JFunc y => String.eqb x y
  | JProto x, JProto y => Bool.eqb x y
  | (JArr _ | JObj _), (JArr _ | JObj _) => same_ref a b
  | _, _ => false
  end.

(** *** JSON.stringify *)

Definition hex_digit (n : nat) : ascii :=
  if n <? 10 then ascii_of_nat (48 + n) else ascii_of_nat (87 + n).

Definition escape_char (c : ascii) : list ascii :=
  let n := nat_of_ascii c in
  if n =? 34 then [ "\"%char; dq ]
  else if n =? 92 then [ "\"%char; "\"%char ]
  else if n =? 8 then [ "\"%char; "b"%char ]
  else if n =? 9 then [ "\"%char; "t"%char ]
  else if n =? 10 then [ "\"%char; "n"%char ]
  else if n =? 12 then [ "\"%char; "f"%char ]
  else if n =? 13 then [ "\"%char; "r"%char ]
  else if n <? 32 then [ "\"%char; "u"%char; "0"%char; "0"%char;
                         hex_digit (n / 16); hex_digit (n mod 16) ]
  else [c].

(** QuoteJSONString. *)
Definition quote (s : string) : string :=
  of_chars (dq :: flat_map escape_char (chars s) ++ [dq])%list.

(** SerializeJSONProperty with the given gap ([""] is compact) at the
    current indentation; [None] is [undefined]. *)
Fixpoint serialize (gap ind : string) (v : jval) : option string :=
  let ind' := ind ++ gap in
  match v with
  | JUndef | JFunc _ => None
  | JNull => Some "null"
  | JBool true => Some "true"
  | JBool false => Some "false"
  | JNum n => Some (if isFinite n then JsNum.to_string n else "null")
  | JStr s => Some (quote s)
  | JProto false => Some "{}"
  | JProto true => Some "[]"
  | JArr xs =>
    let items := map (fun x => match serialize gap ind' x with
                               | Some s => s | None => "null" end) xs in
    Some (match items with
          | [] => "[]"
          | _ => if String.eqb gap "" then "[" ++ join "," items ++ "]"
                 else "[" ++ String (ascii_of_nat 10) ind' ++
                      join ("," ++ String (ascii_of_nat 10) ind') items ++
                      String (ascii_of_nat 10) ind ++ "]"
          end)
  | JObj fs =>
    let fix members (l : list (string * jval)) : list string :=
      match l with
      | [] => []
      | (k, x) :: r =>
        match serialize gap ind' x with
        | Some s => (quote k ++ ":" ++ (if String.eqb gap "" then "" else " ") ++ s)
                    :: members r
        | None => members r
        end
      end in
    let ms := members fs in
    Some (match ms with
          | [] => "{}"
          | _ => if String.eqb gap "" then "{" ++ join "," ms ++ "}"
                 else "{" ++ String (ascii_of_nat 10) ind' ++
                      join ("," ++ String (ascii_of_nat 10) ind') ms ++
                      String (ascii_of_nat 10) ind ++ "}"
          end)
  end.

(** [JSON.stringify(v)] and [JSON.stringify(v, null, 2)]. *)
Definition stringify (v : jval) : option string := serialize "" "" v.
Definition stringify_pretty (v : jval) : option string := serialize "  " "" v.

(** [JSON.parse(JSON.stringify(v))] on a value whose serialization is
    defined: the JSON data it denotes. *)
Fixpoint clone (v : jval) : jval :=
  match v with
  | JNum n => if isFinite n then v else JNull
  | JProto false => JObj []
  | JProto true => JArr []
  | JArr xs => JArr (map (fun x => match x with
                                    | JUndef | JFunc _ => JNull
                                    | _ => clone x end) xs)
  | JObj fs =>
    let fix members (l : list (string * jval)) : list (string * jval) :=
      match l with
      | [] => []
      | (k, x) :: r =>
        match x with
        | JUndef | JFunc _ => members r
        | _ => (k, clone x) :: members r
        end
      end in
    JObj (members fs)
  | _ => v
  end.

End JsVal.

(* ================================================================== *)
(** ** Regular expressions with JS backtracking semantics *)

Module Regex.
Import JsStr.

(** Regex syntax: a one-character class, sequence, ordered alternation,
    greedy or lazy star, capture group, the anchors [^] and [$] (no [m]
    flag) and the empty regex. *)
Inductive re : Type :=
| RChar (p : ascii -> bool)
| RSeq (a b : re)
| RAlt (a b : re)
| RStar (greedy : bool) (a : re)
| RGroup (n : nat) (a : re)
| RBegin
| REnd
| REps.

Definition caps := list (nat * (nat * nat)).

(** The backtracking matcher in continuation-passing style: [k] receives
    the end position and captures of a match of [r] from [i]; alternatives
    and quantifier choices are tried in JS priority order, and a star
    iteration that consumes nothing fails (the JS empty check). *)
Fixpoint mt (fuel : nat) (r : re) (s : list ascii) (i : nat) (c : caps)
  (k : nat -> caps -> option (nat * caps)) {struct fuel} : option (nat * caps) :=
  match fuel with
  | O => None
  | S f =>
    match r with
    | RChar p =>
      match nth_error s i with
      | Some ch => if p ch then k (S i) c else None
      | None => None
      end
    | RSeq a b => mt f a s i c (fun j c' => mt f b s j c' k)
    | RAlt a b =>
      match mt f a s i c k with
      | Some x => Some x
      | None => mt f b s i c k
      end
    | RStar true a =>
      match mt f a s i c (fun j c' => if j =? i then None else mt f (RStar true a) s j c' k) with
      | Some x => Some x
      | None => k i c
      end
    | RStar false a =>
      match k i c with
      | Some x => Some x
      | None => mt f a s i c (fun j c' => if j =? i then None else mt f (RStar false a) s j c' k)
      end
    | RGroup n a => mt f a s i c (fun j c' => k j ((n, (i, j)) :: c'))
    | RBegin => if i =? 0 then k i c else None
    | REnd => if i =? length s then k i c else None
    | REps => k i c
    end
  end.

Fixpoint size (r : re) : nat :=
  match r with
  | RSeq a b | RAlt a b => S (size a + size b)
  | RStar _ a | RGroup _ a => S (size a)
  | _ => 1
  end.

Definition fuel_for (r : re) (s : list ascii) : nat := (size r + 2) * (length s + 2) * 2.

(** A match: start, end and captures. *)
Record rmatch := { m_start : nat; m_end : nat; m_caps : caps }.

Definition match_at (r : re) (s : list ascii) (i : nat) : option rmatch :=
  match mt (fuel_for r s) r s i [] (fun j c => Some (j, c)) with
  | Some (j, c) => Some {| m_start := i; m_end := j; m_caps := c |}
  | None => None
  end.

(** RegExpBuiltinExec from [lastIndex]: the leftmost match. *)
Fixpoint search_from (r : re) (s : list ascii) (i : nat) (fuel : nat) : option rmatch :=
  match fuel with
  | O => None
  | S f =>
    match match_at r s i with
    | Some m => Some m
    | None => if i <? length s then search_from r s (S i) f else None
    end
  end.

Definition exec_from (r : re) (s : string) (i : nat) : option rmatch :=
  search_from r (chars s) i (S (length (chars s))).

(** [s.match(r)] without the [g] flag, and [r.test(s)]. *)
Definition str_match (r : re) (s : string) : option rmatch := exec_from r s 0.
Definition test (r : re) (s : string) : bool :=
  match str_match r s with Some _ => true | None => false end.

(** Capture group [n] of a match ([None] is [undefined]). *)
Fixpoint cap_lookup (n : nat) (c : caps) : option (nat * nat) :=
  match c with
  | [] => None
  | (m, p) :: r => if m =? n then Some p else cap_lookup n r
  end.

Definition group (s : string) (m : rmatch) (n : nat) : option string :=
  match cap_lookup n (m_caps m) with
  | Some (a, b) => Some (slice s a b)
  | None => None
  end.

(** *** Building blocks *)

Fixpoint seqs (l : list re) : re :=
  match l with
  | [] => REps
  | [a] => a
  | a :: r => RSeq a (seqs r)
  end.

Fixpoint alts (l : list re) : re :=
  match l with
  | [] => RChar (fun _ => false)
  | [a] => a
  | a :: r => RAlt a (alts r)
  end.

Definition plus (greedy : bool) (a : re) : re := RSeq a (RStar greedy a).
Definition opt (a : re) : re := RAlt a REps.
Definition chr (c : ascii) : re := RChar (Ascii.eqb c).
Definition lit (s : string) : re := seqs (map chr (chars s)).

(** A literal under the [i] flag (ASCII letters match either case). *)
Definition upper_char (c : ascii) : ascii :=
  let n := nat_of_ascii c in if (97 <=? n) && (n <=? 122) then ascii_of_nat (n - 32) else c.
Definition chr_ci (c : ascii) : re := RChar (fun d => Ascii.eqb (upper_char c) (upper_char d)).
Definition lit_ci (s : string) : re := seqs (map chr_ci (chars s)).

(** [.], [\s], [\d] and [[\s\S]]. *)
Definition dot : re := RChar (fun c => negb (is_lt c)).
Definition ws : re := RChar is_ws.
Definition digit : re := RChar is_digit.
Definition anychar : re := RChar (fun _ => true).
Definition not_in (l : list ascii) : re := RChar (fun c => negb (existsb (Ascii.eqb c) l)).

End Regex.

(* ================================================================== *)
(** ** Path Resolver ([tokenizeJsonPath], [resolveJsonPath]) *)

Module Path.
Import JsStr JsNum JsVal Regex.

Definition bs : ascii := "\"%char.

(** The token pattern of [tokenizeJsonPath], with Q the double quote:
    [/([^[.\]]+)|\[(\d+|Q(?:[^Q\\]|\\.)*Q|'(?:[^'\\]|\\.)*')\]/g] *)
Definition token_re : re :=
  RAlt (RGroup 1 (plus true (not_in ["["%char; "."%char; "]"%char])))
       (seqs [chr "["%char;
              RGroup 2 (alts [plus true digit;
                              seqs [chr dq; RStar true (RAlt (not_in [dq; bs]) (RSeq (chr bs) dot)); chr dq];
                              seqs [chr "'"%char; RStar true (RAlt (not_in ["'"%char; bs]) (RSeq (chr bs) dot));
                                    chr "'"%char]]);
              chr "]"%char]).

(** [/^\d+$/.test(t)]. *)
Definition is_digits (t : string) : bool :=
  match chars t with [] => false | l => forallb is_digit l end.

(** [path.replace(/^\$\./, E).replace(/^\$/, E)] with E the empty string. *)
Definition normalize (path : string) : string :=
  let p1 := if startsWith path "$." then substring 2 (String.length path - 2) path else path in
  if startsWith p1 "$" then substring 1 (String.length p1 - 1) p1 else p1.

(** The [while ((match = pattern.exec(normalized)))] loop. *)
Fixpoint token_loop (s : string) (i : nat) (fuel : nat) : list string :=
  match fuel with
  | O => []
  | S f =>
    match exec_from token_re s i with
    | None => []
    | Some m =>
      let rest := token_loop s (m_end m) f in
      match group s m 1 with
      | Some g1 => if String.eqb g1 "" then rest else g1 :: rest
      | None =>
        match group s m 2 with
        | Some raw =>
          if String.eqb raw "" then rest
          else if is_digits raw then raw :: rest else slice_inner raw :: rest
        | None => rest
        end
      end
    end
  end.

Definition tokenizeJsonPath (path : string) : list string :=
  let normalized := normalize path in
  token_loop normalized 0 (S (String.length normalized)).

(** [current[Number(token)]] on an array. *)
Definition array_get (current : jval) (token : string) : jval :=
  match current with
  | JArr xs =>
    let i := digits_val 0 (chars token) in
    if (i <? Z.of_nat (length xs))%Z then nth (Z.to_nat i) xs JUndef else JUndef
  | _ => JUndef
  end.

(** The [for (const token of tokens)] loop. Besides the value, the walk
    returns the location it was read from (the property keys from the
    root), used as the object's identity; [None] when the result is
    [undefined] because of a miss. *)
Fixpoint walk (tokens : list string) (current : jval) (loc : list string)
  : jval * option (list string) :=
  match tokens with
  | [] => (current, Some loc)
  | token :: rest =>
    if isArray current && is_digits token then
      walk rest (array_get current token)
           (loc ++ [JsNum.to_string (NFin (inject_Z (digits_val 0 (chars token))))])%list
    else if is_object current then
      match get_in token current with
      | Some v => walk rest v (loc ++ [token])%list
      | None => (JUndef, None)
      end
    else (JUndef, None)
  end.

(** [resolveJsonPath(input, path)] with its location; [path] is [None]
    when [undefined]. *)
Definition resolve_loc (input : jval) (path : option string) : jval * option (list string) :=
  match path with
  | None => (input, Some [])
  | Some p =>
    if String.eqb p "" || String.eqb p "$" then (input, Some [])
    else if negb (startsWith p "$") then (JUndef, None)
    else walk (tokenizeJsonPath p) input []
  end.

Definition resolveJsonPath (input : jval) (path : option string) : jval :=
  fst (resolve_loc input path).

End Path.

(* ================================================================== *)
(** ** Expression Evaluator *)

Module Expr.
Import JsStr JsNum JsVal Regex Path.

(** [/^\s*(.+?)\s*(==|!=|>=|<=|>|<)\s*(.+)\s*$/] *)
Definition cond_re : re :=
  seqs [RBegin; RStar true ws; RGroup 1 (plus false dot); RStar true ws;
        RGroup 2 (alts [lit "=="; lit "!="; lit ">="; lit "<="; lit ">"; lit "<"]);
        RStar true ws; RGroup 3 (plus true dot); RStar true ws; REnd].

Definition parseLiteral (raw : string) : jval :=
  let value := trim raw in
  if (startsWith value "'" && endsWith value "'")
     || (startsWith value (String dq EmptyString) && endsWith value (String dq EmptyString))
  then JStr (slice_inner value)
  else if String.eqb value "true" then JBool true
  else if String.eqb value "false" then JBool false
  else if String.eqb value "null" then JNull
  else let n := JsNum.of_string value in
       if negb (isNaN n) then JNum n else JStr value.

(** An operand: its value and, when read from the context, its location. *)
Definition resolveOperand (ctx : jval) (raw : string) : jval * option (list string) :=
  let value := trim raw in
  if startsWith value "$" then resolve_loc ctx (Some value)
  else (parseLiteral value, None).

(** Object identity of two operands: the context is a tree, so two objects
    read from it are the same reference exactly when read from the same
    location. *)
Definition same_location (a b : option (list string)) : bool :=
  match a, b with
  | Some p, Some q => if list_eq_dec string_dec p q then true else false
  | _, _ => false
  end.

Definition strict_eq (l r : jval * option (list string)) : bool :=
  strict_equals (fun _ _ => same_location (snd l) (snd r)) (fst l) (fst r).

(** [Number(left) op Number(right)]; [None] when a coercion throws. *)
Definition num_cmp (cmp : num -> num -> bool) (l r : jval) : option bool :=
  match to_number l with
  | None => None
  | Some a => match to_number r with
              | None => None
              | Some b => Some (cmp a b)
              end
  end.

(** [evaluateConditionExpression(ctx, expression)]; [None] is a thrown
    exception. *)
Definition evaluateConditionExpression (ctx : jval) (expression : string) : option bool :=
  match str_match cond_re expression with
  | None => Some false
  | Some m =>
    match group expression m 1, group expression m 2, group expression m 3 with
    | Some leftRaw, Some op, Some rightRaw =>
      let left := resolveOperand ctx leftRaw in
      let right := resolveOperand ctx rightRaw in
      if String.eqb op "==" then Some (strict_eq left right)
      else if String.eqb op "!=" then Some (negb (strict_eq left right))
      else if String.eqb op ">" then num_cmp gt (fst left) (fst right)
      else if String.eqb op "<" then num_cmp lt (fst left) (fst right)
      else if String.eqb op ">=" then num_cmp ge (fst left) (fst right)
      else if String.eqb op "<=" then num_cmp le (fst left) (fst right)
      else Some false
    | _, _, _ => Some false
    end
  end.

End Expr.

(* ================================================================== *)
(** ** Workflow documents ([shared/schema/workflow.ts]) *)

Module Doc.
Import JsStr JsNum JsVal.

Record port := { port_id : string; port_label : string; port_schema : string }.

(** A node; [position] holds finite numbers (the document is JSON). *)
Record node := {
  node_id : string;
  node_type : string;
  node_name : string;
  position_x : Q;
  position_y : Q;
  inputs : list port;
  outputs : list port;
  config : list (string * jval);
  ui_icon : string;
  ui_color : string
}.

Record endpoint := { ep_node_id : string; ep_port_id : string }.

Record edge := {
  edge_id : string;
  source : endpoint;
  target : endpoint;
  edge_label : option string;
  edge_condition : option string
}.

Record workflow := {
  wf_id : string;
  wf_name : string;
  wf_description : string;
  tags : list string;
  entry_node_id : string;
  variables : list (string * jval);
  nodes : list node;
  edges : list edge
}.

Record workflow_doc := { schema_version : string; workflow_of : workflow }.

(** [node.config.k] (the keys read by the engine are not inherited
    property names). *)
Definition cfg (n : node) (k : string) : jval :=
  match lookup k (config n) with Some v => v | None => JUndef end.

(** [(config.k as string | undefined) ?? dflt]: the key under which a
    value is written ([out[k] = ...] converts the key with ToString). *)
Definition cfg_key (n : node) (k dflt : string) : option string :=
  match nullish_or (cfg n k) (JStr dflt) with
  | JStr s => Some s
  | v => to_string v
  end.

(** A [Map<string, V>]: insertion ordered, [set] keeps an existing key's
    place. *)
Fixpoint amap_get {V} (k : string) (m : list (string * V)) : option V :=
  match m with
  | [] => None
  | (k', v) :: r => if String.eqb k k' then Some v else amap_get k r
  end.

Fixpoint amap_set {V} (k : string) (v : V) (m : list (string * V)) : list (string * V) :=
  match m with
  | [] => [(k, v)]
  | (k', v') :: r => if String.eqb k k' then (k', v) :: r else (k', v') :: amap_set k v r
  end.

Definition node_ids (d : workflow_doc) : list string := map node_id (nodes (workflow_of d)).

End Doc.

(* ================================================================== *)
(** ** Document Validator ([workflowDocSchema], [validateWorkflowDoc]) *)

Module Schema.
Import JsStr JsNum JsVal Doc.

Definition allowedNodeTypes : list string :=
  ["trigger.manual"; "trigger.webhook"; "trigger.schedule"; "trigger.file_upload";
   "ai.summarize"; "ai.classify"; "ai.extract_fields"; "ai.generate_report";
   "logic.condition"; "logic.delay"; "output.db_save"; "output.export"].

Definition triggerNodeTypes : list string :=
  ["trigger.manual"; "trigger.webhook"; "trigger.schedule"; "trigger.file_upload"].

Definition is_trigger (n : node) : bool := mem (node_type n) triggerNodeTypes.

(** A zod issue: its path, its message, and whether it aborts the parse
    (type, literal and enum failures do; length and pattern checks only
    mark it dirty, and refinements still run). *)
Record issue := { i_path : list string; i_message : string; i_abort : bool }.

Definition min1 := "String must contain at least 1 character(s)".

Definition check_min1 (path : list string) (s : string) : list issue :=
  if String.eqb s "" then [ {| i_path := path; i_message := min1; i_abort := false |} ] else [].

(** [/^wf_[a-zA-Z0-9_-]+$/] *)
Definition wf_id_ok (s : string) : bool :=
  match chars s with
  | w :: f :: u :: (_ :: _) as rest =>
    Ascii.eqb w "w"%char && Ascii.eqb f "f"%char && Ascii.eqb u "_"%char &&
    forallb (fun c => let n := nat_of_ascii c in
                      ((48 <=? n) && (n <=? 57)) || ((65 <=? n) && (n <=? 90))
                      || ((97 <=? n) && (n <=? 122)) || (n =? 95) || (n =? 45)) rest
  | _ => false
  end.

Definition nat_str (i : nat) : string := JsNum.to_string (NFin (inject_Z (Z.of_nat i))).

(** [xs.map((x, i) => f(i, x))] *)
Fixpoint mapi {A B} (f : nat -> A -> B) (i : nat) (l : list A) : list B :=
  match l with [] => [] | x :: r => f i x :: mapi f (S i) r end.

Definition port_issues (path : list string) (ps : list port) : list issue :=
  concat (mapi (fun i p =>
    let pp := (path ++ [nat_str i])%list in
    (check_min1 (pp ++ ["id"]) (port_id p) ++ check_min1 (pp ++ ["label"]) (port_label p)
     ++ check_min1 (pp ++ ["schema"]) (port_schema p))%list) 0 ps).

Definition qt (s : string) : string := String dq (s ++ String dq EmptyString).
Definition sq (s : string) : string := "'" ++ s ++ "'".

Definition enum_message (received : string) : string :=
  "Invalid enum value. Expected " ++ join " | " (map sq allowedNodeTypes)
  ++ ", received " ++ sq received.

Definition min_array := "Array must contain at least 1 element(s)".

(** The shape checks of [nodeSchema]. *)
Definition node_shape_issues (path : list string) (n : node) : list issue :=
  (check_min1 (path ++ ["id"]) (node_id n)
   ++ (if mem (node_type n) allowedNodeTypes then []
       else [ {| i_path := path ++ ["type"]; i_message := enum_message (node_type n);
                 i_abort := true |} ])
   ++ check_min1 (path ++ ["name"]) (node_name n)
   ++ port_issues (path ++ ["inputs"]) (inputs n)
   ++ (match outputs n with
       | [] => [ {| i_path := path ++ ["outputs"]; i_message := min_array; i_abort := false |} ]
       | _ => [] end)
   ++ port_issues (path ++ ["outputs"]) (outputs n)
   ++ check_min1 (path ++ ["ui"; "icon"]) (ui_icon n)
   ++ check_min1 (path ++ ["ui"; "color"]) (ui_color n))%list.

(** The shape checks of [edgeSchema]. *)
Definition edge_shape_issues (path : list string) (e : edge) : list issue :=
  (check_min1 (path ++ ["id"]) (edge_id e)
   ++ check_min1 (path ++ ["source"; "node_id"]) (ep_node_id (source e))
   ++ check_min1 (path ++ ["source"; "port_id"]) (ep_port_id (source e))
   ++ check_min1 (path ++ ["target"; "node_id"]) (ep_node_id (target e))
   ++ check_min1 (path ++ ["target"; "port_id"]) (ep_port_id (target e)))%list.

(** The shape checks of [workflowDocSchema] before [superRefine]. *)
Definition shape_issues (d : workflow_doc) : list issue :=
  let w := workflow_of d in
  ((if String.eqb (schema_version d) "1.0" then []
    else [ {| i_path := ["schema_version"];
              i_message := "Invalid literal value, expected " ++ qt "1.0"; i_abort := true |} ])
   ++ (if wf_id_ok (wf_id w) then []
       else [ {| i_path := ["workflow"; "id"]; i_message := "workflow.id must start with wf_";
                 i_abort := false |} ])
   ++ check_min1 ["workflow"; "name"] (wf_name w)
   ++ check_min1 ["workflow"; "description"] (wf_description w)
   ++ check_min1 ["workflow"; "entry_node_id"] (entry_node_id w)
   ++ (match nodes w with
       | [] => [ {| i_path := ["workflow"; "nodes"]; i_message := min_array; i_abort := false |} ]
       | _ => [] end)
   ++ concat (mapi (fun i n => node_shape_issues ["workflow"; "nodes"; nat_str i] n) 0 (nodes w))
   ++ concat (mapi (fun i e => edge_shape_issues ["workflow"; "edges"; nat_str i] e) 0 (edges w)))%list.

Definition custom (path : list string) (msg : string) : issue :=
  {| i_path := path; i_message := msg; i_abort := false |}.

(** The [for (const n of nodes)] pass of [superRefine]. *)
Fixpoint node_pass (seen : list string) (ns : list node) : list issue :=
  match ns with
  | [] => []
  | n :: rest =>
    let P := ["workflow"; "nodes"] in
    ((if mem (node_id n) seen then [custom P ("Duplicate node id: " ++ node_id n)] else [])
     ++ (if is_trigger n && negb (Nat.eqb (length (inputs n)) 0)
         then [custom P ("Trigger node " ++ node_id n ++ " must have no inputs.")] else [])
     ++ (if negb (is_trigger n) && (length (inputs n) <? 1)
         then [custom P ("Non-trigger node " ++ node_id n ++ " must have at least one input.")]
         else [])
     ++ (if String.eqb (node_type n) "logic.condition" then
           (if length (outputs n) <? 2
            then [custom P ("Condition node " ++ node_id n ++ " must have at least two outputs.")]
            else [])
           ++ (match cfg n "default_output" with
               | JStr o => if mem o (map port_id (outputs n)) then []
                           else [custom P ("Condition node " ++ node_id n
                                           ++ " default_output must match an output port id.")]
               | _ => [custom P ("Condition node " ++ node_id n
                                 ++ " default_output must match an output port id.")]
               end)
         else [])
     ++ node_pass (node_id n :: seen) rest)%list
  end.

Definition find_node (ns : list node) (id : string) : option node :=
  find (fun n => String.eqb (node_id n) id) ns.

(** The [for (const e of edges)] pass of [superRefine]. *)
Fixpoint edge_pass (ns : list node) (seen : list string) (es : list edge) : list issue :=
  match es with
  | [] => []
  | e :: rest =>
    let P := ["workflow"; "edges"] in
    ((if mem (edge_id e) seen then [custom P ("Duplicate edge id: " ++ edge_id e)] else [])
     ++ (match find_node ns (ep_node_id (source e)) with
         | None => [custom P ("Edge " ++ edge_id e ++ " source node not found.")]
         | Some sn =>
           if existsb (fun p => String.eqb (port_id p) (ep_port_id (source e))) (outputs sn) then []
           else [custom P ("Edge " ++ edge_id e ++ " source port must reference an output port.")]
         end)
     ++ (match find_node ns (ep_node_id (target e)) with
         | None => [custom P ("Edge " ++ edge_id e ++ " target node not found.")]
         | Some tn =>
           if existsb (fun p => String.eqb (port_id p) (ep_port_id (target e))) (inputs tn) then []
           else [custom P ("Edge " ++ edge_id e ++ " target port must reference an input port.")]
         end)
     ++ edge_pass ns (edge_id e :: seen) rest)%list
  end.

(** The [superRefine] callback. *)
Definition refine_issues (d : workflow_doc) : list issue :=
  let w := workflow_of d in
  let ns := nodes w in
  let triggerNodes := filter is_trigger ns in
  ((if Nat.eqb (length triggerNodes) 1 then []
    else [custom ["workflow"; "nodes"] "Exactly one trigger node is required."])
   ++ (match triggerNodes with
       | t :: _ => if String.eqb (entry_node_id w) (node_id t) then []
                   else [custom ["workflow"; "entry_node_id"] "entry_node_id must point to the trigger node."]
       | [] => []
       end)
   ++ node_pass [] ns
   ++ edge_pass ns [] (edges w))%list.

(** [workflowDocSchema.safeParse]: the refinement runs unless a shape
    check aborted. *)
Definition schema_issues (d : workflow_doc) : list issue :=
  let s := shape_issues d in
  if existsb i_abort s then s else (s ++ refine_issues d)%list.

Inductive validation := VOk (data : workflow_doc) | VErr (errors : list string).

Definition format_issue (i : issue) : string := join "." (i_path i) ++ ": " ++ i_message i.

Definition validateWorkflowDoc (d : workflow_doc) : validation :=
  match schema_issues d with
  | [] => VOk d
  | is => VErr (map format_issue is)
  end.

End Schema.

(* ================================================================== *)
(** ** Graph Scheduler ([topo], identical in both engines) *)

Module Topo.
Import JsStr JsNum JsVal Doc.

(** The [while (q.length)] loop of Kahn's algorithm over [indeg] and [adj]. *)
Fixpoint kahn (fuel : nat) (nodesById : list (string * node))
  (adj : list (string * list string)) (indeg : list (string * Z))
  (q : list string) (ordered : list node) : list node :=
  match fuel with
  | O => ordered
  | S f =>
    match q with
    | [] => ordered
    | id :: q' =>
      let ordered' := match amap_get id nodesById with
                      | Some n => (ordered ++ [n])%list
                      | None => ordered end in
      let '(indeg', q'') :=
        fold_left (fun '(ind, qq) nxt =>
                     let v := (match amap_get nxt ind with Some x => x | None => 0 end - 1)%Z in
                     let ind' := amap_set nxt v ind in
                     (ind', if (v =? 0)%Z then (qq ++ [nxt])%list else qq))
                  (match amap_get id adj with Some l => l | None => [] end) (indeg, q') in
      kahn f nodesById adj indeg' q'' ordered'
    end
  end.

Definition topo (d : workflow_doc) : list node :=
  let w := workflow_of d in
  let nodesById := fold_left (fun m n => amap_set (node_id n) n m) (nodes w) [] in
  let indeg0 := fold_left (fun m n => amap_set (node_id n) 0%Z m) (nodes w) [] in
  let '(indeg, adj) :=
    fold_left (fun '(ind, ad) e =>
                 let t := ep_node_id (target e) in
                 let s := ep_node_id (source e) in
                 (amap_set t ((match amap_get t ind with Some x => x | None => 0 end) + 1)%Z ind,
                  amap_set s ((match amap_get s ad with Some l => l | None => [] end) ++ [t])%list ad))
              (edges w) (indeg0, []) in
  let q := map fst (filter (fun kv => (snd kv =? 0)%Z) indeg) in
  kahn (S (length indeg)) nodesById adj indeg q [].

End Topo.

(* ================================================================== *)
(** ** Semantic edit commands ([semanticEdit.ts]) *)

Module Semantic.
Import JsStr JsNum JsVal Regex Doc Schema.

Record EditResult := {
  ok : bool;
  message : string;
  result_workflow : option workflow_doc;
  result_errors : option (list string)
}.

Definition reject (msg : string) : EditResult :=
  {| ok := false; message := msg; result_workflow := None; result_errors := None |}.

(** [nodeTypeAliases] (all with the [i] flag). *)
Definition nodeTypeAliases : list (re * string) :=
  [(alts [lit_ci "summarize"; lit_ci "summary"], "ai.summarize");
   (alts [lit_ci "classify"; lit_ci "classification"; lit_ci "tag"], "ai.classify");
   (alts [lit_ci "extract"; lit_ci "parse fields"], "ai.extract_fields");
   (alts [lit_ci "report"; lit_ci "checklist"; lit_ci "sop"], "ai.generate_report");
   (alts [lit_ci "condition"; lit_ci "branch"; lit_ci "if"], "logic.condition");
   (alts [lit_ci "delay"; lit_ci "wait"; lit_ci "pause"], "logic.delay");
   (alts [lit_ci "db save"; lit_ci "database"; lit_ci "save to db"; lit_ci "save"], "output.db_save");
   (alts [lit_ci "export"; lit_ci "csv"; lit_ci "json"; lit_ci "notify"; lit_ci "slack"], "output.export")].

(** [deepClone(doc)]: the JSON round trip of a document. *)
Definition clone_map (m : list (string * jval)) : list (string * jval) :=
  match clone (JObj m) with JObj m' => m' | _ => m end.

Definition clone_node (n : node) : node :=
  {| node_id := node_id n; node_type := node_type n; node_name := node_name n;
     position_x := position_x n; position_y := position_y n;
     inputs := inputs n; outputs := outputs n; config := clone_map (config n);
     ui_icon := ui_icon n; ui_color := ui_color n |}.

Definition with_nodes_edges (d : workflow_doc) (ns : list node) (es : list edge) : workflow_doc :=
  let w := workflow_of d in
  {| schema_version := schema_version d;
     workflow_of := {| wf_id := wf_id w; wf_name := wf_name w; wf_description := wf_description w;
                       tags := tags w; entry_node_id := entry_node_id w;
                       variables := variables w; nodes := ns; edges := es |} |}.

Definition deepClone (d : workflow_doc) : workflow_doc :=
  let w := workflow_of d in
  let d' := with_nodes_edges d (map clone_node (nodes w)) (edges w) in
  let w' := workflow_of d' in
  {| schema_version := schema_version d';
     workflow_of := {| wf_id := wf_id w'; wf_name := wf_name w'; wf_description := wf_description w';
                       tags := tags w'; entry_node_id := entry_node_id w';
                       variables := clone_map (variables w'); nodes := nodes w'; edges := edges w' |} |}.

(** [Math.max(...nums)] over the finite ids; 0 when there are none. *)
Definition max_id (ids : list string) (prefix : ascii) : Q :=
  let nums := filter isFinite
                (map (fun id => JsNum.of_string
                                  (match chars id with
                                   | c :: r => if Ascii.eqb c prefix then of_chars r else id
                                   | [] => id end)) ids) in
  match nums with
  | [] => 0
  | NFin q :: r => fold_left (fun m n => match n with NFin x => if Qle_bool m x then x else m | _ => m end) r q
  | _ :: _ => 0
  end.

Definition nextNodeId (d : workflow_doc) : string :=
  "n" ++ JsNum.to_string (NFin (max_id (map node_id (nodes (workflow_of d))) "n"%char + 1)).

Definition nextEdgeId (d : workflow_doc) : string :=
  "e" ++ JsNum.to_string (NFin (max_id (map edge_id (edges (workflow_of d))) "e"%char + 1)).

Definition jstrs (l : list string) : jval := JArr (map JStr l).
Definition jnum (z : Z) : jval := JNum (NFin (inject_Z z)).

Definition mk_port (id label : string) : port :=
  {| port_id := id; port_label := label; port_schema := "JSON" |}.

(** [createNode(type, id, position)]. *)
Definition createNode (type id : string) (x y : Q) : node :=
  let base name ins outs cfgv :=
    {| node_id := id; node_type := type; node_name := name; position_x := x; position_y := y;
       inputs := ins; outputs := outs; config := cfgv; ui_icon := "sparkles"; ui_color := "neutral" |} in
  let i := [mk_port "in" "In"] in
  let o := [mk_port "out" "Out"] in
  let c kvs := match mk_obj kvs with JObj fs => fs | _ => [] end in
  if String.eqb type "ai.summarize" then
    base "Summarize" i o (c [("input_path", JStr "$.input"); ("style", JStr "concise");
                             ("bullets", JBool true); ("output_key", JStr "summary");
                             ("instructions", JStr "Summarize the input.")])
  else if String.eqb type "ai.classify" then
    base "Classify" i o (c [("input_path", JStr "$.input"); ("labels", jstrs ["high"; "medium"; "low"]);
                            ("output_key", JStr "label"); ("confidence_key", JStr "confidence");
                            ("instructions", JStr "Classify the input.")])
  else if String.eqb type "ai.extract_fields" then
    base "Extract Fields" i o (c [("input_path", JStr "$.input");
                                  ("fields", JArr [mk_obj [("key", JStr "field_1"); ("type", JStr "string");
                                                           ("required", JBool false)]]);
                                  ("output_key", JStr "extracted");
                                  ("instructions", JStr "Extract structured fields.")])
  else if String.eqb type "ai.generate_report" then
    base "Generate Report" i o (c [("template", JStr "Checklist"); ("input_path", JStr "$.input");
                                   ("format", JStr "markdown"); ("output_key", JStr "report");
                                   ("instructions", JStr "Generate a concise checklist.")])
  else if String.eqb type "logic.condition" then
    base "Condition" i [mk_port "true" "True"; mk_port "false" "False"]
         (c [("expression", JStr "$.score > 0.8"); ("default_output", JStr "false")])
  else if String.eqb type "logic.delay" then
    base "Delay" i o (c [("seconds", jnum 30); ("reason", JStr "Rate limiting")])
  else if String.eqb type "output.db_save" then
    base "Save to DB" i o (c [("table", JStr "va_items"); ("mode", JStr "insert");
                              ("mapping", mk_obj [("payload", JStr "$.input")])])
  else if String.eqb type "output.export" then
    base "Export" i o (c [("format", JStr "json"); ("input_path", JStr "$.input");
                          ("filename", JStr "export.json")])
  else if String.eqb type "trigger.manual" then
    base "Manual Trigger" [] o (c [("sample_input", JObj [])])
  else if String.eqb type "trigger.webhook" then
    base "Webhook Trigger" [] o (c [("path", JStr "/inbound"); ("method", JStr "POST");
                                    ("secret_required", JBool true); ("sample_payload", JObj [])])
  else if String.eqb type "trigger.schedule" then
    base "Schedule Trigger" [] o (c [("timezone", JStr "UTC"); ("cron", JStr "0 9 * * *");
                                     ("payload", JObj [])])
  else if String.eqb type "trigger.file_upload" then
    base "File Upload Trigger" [] o (c [("accepted_types", jstrs ["application/pdf"; "text/plain"]);
                                        ("max_size_mb", jnum 10); ("purpose", JStr "automation-input")])
  else base "Node" i o [].

Definition findTypeFromCommand (command : string) : option string :=
  option_map snd (find (fun a => test (fst a) command) nodeTypeAliases).

Definition terminalNodes (d : workflow_doc) : list node :=
  let outgoing := map (fun e => ep_node_id (source e)) (edges (workflow_of d)) in
  filter (fun n => negb (mem (node_id n) outgoing)) (nodes (workflow_of d)).

Definition new_edge (id : string) (s t : node) (sp tp : port) : edge :=
  {| edge_id := id; source := {| ep_node_id := node_id s; ep_port_id := port_id sp |};
     target := {| ep_node_id := node_id t; ep_port_id := port_id tp |};
     edge_label := None; edge_condition := None |}.

(** [addNodeAtEnd(doc, type)]; [None] when [source] is undefined (reading
    [source.position] throws). *)
Definition addNodeAtEnd (d : workflow_doc) (type : string) : option workflow_doc :=
  let copy := deepClone d in
  let ns := nodes (workflow_of copy) in
  match (match terminalNodes copy with t :: _ => Some t | [] => last (map Some ns) None end) with
  | None => None
  | Some src =>
    let id := nextNodeId copy in
    let newNode := createNode type id (position_x src + 240) (position_y src) in
    let copy1 := with_nodes_edges copy (ns ++ [newNode])%list (edges (workflow_of copy)) in
    match outputs src, inputs newNode with
    | sp :: _, tp :: _ =>
      Some (with_nodes_edges copy1 (nodes (workflow_of copy1))
              (edges (workflow_of copy1) ++ [new_edge (nextEdgeId copy1) src newNode sp tp])%list)
    | _, _ => Some copy1
    end
  end.

Definition matches_ref (ref : string) (n : node) : bool :=
  String.eqb (toLowerCase (node_id n)) (toLowerCase ref)
  || String.eqb (toLowerCase (node_name n)) (toLowerCase ref).

Definition find_ref (d : workflow_doc) (ref : string) : option node :=
  find (matches_ref ref) (nodes (workflow_of d)).

Definition renameNode (d : workflow_doc) (nodeRef nextName : string) : option workflow_doc :=
  let copy := deepClone d in
  match find_ref copy nodeRef with
  | None => None
  | Some t =>
    (* [target.name = nextName] on the first matching node *)
    let fix upd (l : list node) : list node :=
      match l with
      | [] => []
      | n :: r => if matches_ref nodeRef n then
                    {| node_id := node_id n; node_type := node_type n; node_name := nextName;
                       position_x := position_x n; position_y := position_y n;
                       inputs := inputs n; outputs := outputs n; config := config n;
                       ui_icon := ui_icon n; ui_color := ui_color n |} :: r
                  else n :: upd r
      end in
    Some (with_nodes_edges copy (upd (nodes (workflow_of copy))) (edges (workflow_of copy)))
  end.

Definition deleteNode (d : workflow_doc) (nodeRef : string) : option workflow_doc :=
  let copy := deepClone d in
  match find_ref copy nodeRef with
  | None => None
  | Some t =>
    if String.eqb (node_id t) (entry_node_id (workflow_of copy)) then None
    else Some (with_nodes_edges copy
                 (filter (fun n => negb (String.eqb (node_id n) (node_id t))) (nodes (workflow_of copy)))
                 (filter (fun e => negb (String.eqb (ep_node_id (source e)) (node_id t))
                                   && negb (String.eqb (ep_node_id (target e)) (node_id t)))
                         (edges (workflow_of copy))))
  end.

Definition connectNodes (d : workflow_doc) (sourceRef targetRef : string) : option workflow_doc :=
  let copy := deepClone d in
  match find_ref copy sourceRef, find_ref copy targetRef with
  | Some s, Some t =>
    match outputs s, inputs t with
    | sp :: _, tp :: _ =>
      Some (with_nodes_edges copy (nodes (workflow_of copy))
              (edges (workflow_of copy) ++ [new_edge (nextEdgeId copy) s t sp tp])%list)
    | _, _ => None
    end
  | _, _ => None
  end.

(** The command patterns (flag [i]). *)
Definition rename_re : re :=
  seqs [RBegin; lit_ci "rename"; plus true ws; RGroup 1 (plus false dot); plus true ws;
        lit_ci "to"; plus true ws; RGroup 2 (plus true dot); REnd].
Definition delete_re : re :=
  seqs [RBegin; lit_ci "delete"; plus true ws; RGroup 1 (plus true dot); REnd].
Definition connect_re : re :=
  seqs [RBegin; lit_ci "connect"; plus true ws; RGroup 1 (plus false dot); plus true ws;
        lit_ci "to"; plus true ws; RGroup 2 (plus true dot); REnd].
Definition delay_re : re :=
  seqs [RBegin; lit_ci "add"; plus true ws; lit_ci "delay"; plus true ws; RGroup 1 (plus true digit);
        RStar true ws; lit_ci "second"; opt (chr_ci "s"); REnd].

Definition grp (s : string) (m : rmatch) (n : nat) : string :=
  match group s m n with Some g => g | None => "" end.

(** Sets [config.seconds] of the last node. *)
Definition set_last_seconds (d : workflow_doc) (v : jval) : workflow_doc :=
  let ns := nodes (workflow_of d) in
  let fix upd (l : list node) : list node :=
    match l with
    | [] => []
    | [n] => [ {| node_id := node_id n; node_type := node_type n; node_name := node_name n;
                  position_x := position_x n; position_y := position_y n;
                  inputs := inputs n; outputs := outputs n; config := obj_set "seconds" v (config n);
                  ui_icon := ui_icon n; ui_color := ui_color n |} ]
    | n :: r => n :: upd r
    end in
  with_nodes_edges d (upd ns) (edges (workflow_of d)).

(** [applySemanticCommand(doc, command)]; [None] is a thrown exception. *)
Definition applySemanticCommand (d : workflow_doc) (command : string) : option EditResult :=
  let raw := trim command in
  let lowered := toLowerCase raw in
  if String.eqb raw "" then Some (reject "Type a command first.") else
  let step : option (option (option workflow_doc * string)) :=
    match str_match rename_re raw with
    | Some m =>
      let a := trim (grp raw m 1) in let b := trim (grp raw m 2) in
      let c := renameNode d a b in
      Some (Some (c, match c with Some _ => "Renamed " ++ a ++ " to " ++ b ++ "."
                                 | None => "Node to rename not found." end))
    | None =>
    match str_match delete_re raw with
    | Some m =>
      let a := trim (grp raw m 1) in
      let c := deleteNode d a in
      Some (Some (c, match c with Some _ => "Deleted " ++ a ++ "."
                                 | None => "Node could not be deleted (not found or is trigger)." end))
    | None =>
    match str_match connect_re raw with
    | Some m =>
      let a := trim (grp raw m 1) in let b := trim (grp raw m 2) in
      let c := connectNodes d a b in
      Some (Some (c, match c with Some _ => "Connected " ++ a ++ " to " ++ b ++ "."
                                 | None => "Could not connect nodes." end))
    | None =>
    match str_match delay_re raw with
    | Some m =>
      let secs := grp raw m 1 in
      match addNodeAtEnd d "logic.delay" with
      | None => None
      | Some c => Some (Some (Some (set_last_seconds c (JNum (JsNum.of_string secs))),
                              "Added delay node (" ++ secs ++ "s) at end."))
      end
    | None =>
      if startsWith lowered "add " then
        match findTypeFromCommand raw with
        | None => Some None
        | Some type =>
          match addNodeAtEnd d type with
          | None => None
          | Some c => Some (Some (Some c, "Added " ++ type ++ " at the end of the flow."))
          end
        end
      else Some None
    end end end end in
  match step with
  | None => None
  | Some None =>
    if startsWith lowered "add " then
      Some (reject "I couldn't map that request to a supported node type yet.")
    else
      Some (reject "Try commands like: 'add classify at end', 'add delay 30 seconds', 'rename n2 to Score Lead', 'connect n2 to n4'.")
  | Some (Some (None, msg)) => Some (reject msg)
  | Some (Some (Some cand, msg)) =>
    match validateWorkflowDoc cand with
    | VErr errs => Some {| ok := false; message := "Edit rejected by workflow validator.";
                           result_workflow := None; result_errors := Some errs |}
    | VOk data => Some {| ok := true; message := msg; result_workflow := Some data;
                          result_errors := None |}
    end
  end.

End Semantic.

(* ================================================================== *)
(** ** The documents of the smoke tests ([baseDoc()] and its cyclic variant) *)

Module Fixtures.
Import JsVal Doc.

Definition pin : port := {| port_id := "in"; port_label := "In"; port_schema := "JSON" |}.
Definition pout : port := {| port_id := "out"; port_label := "Out"; port_schema := "JSON" |}.

Definition mk_edge (id s t : string) : edge :=
  {| edge_id := id; source := {| ep_node_id := s; ep_port_id := "out" |};
     target := {| ep_node_id := t; ep_port_id := "in" |};
     edge_label := None; edge_condition := None |}.

Definition n1 : node :=
  {| node_id := "n1"; node_type := "trigger.manual"; node_name := "Start";
     position_x := 80; position_y := 120; inputs := []; outputs := [pout];
     config := [("sample_input", JObj [])]; ui_icon := "play"; ui_color := "neutral" |}.
Definition n2 : node :=
  {| node_id := "n2"; node_type := "ai.summarize"; node_name := "Summarize";
     position_x := 320; position_y := 120; inputs := [pin]; outputs := [pout];
     config := [("input_path", JStr "$.input"); ("output_key", JStr "summary")];
     ui_icon := "sparkles"; ui_color := "neutral" |}.
Definition n3 : node :=
  {| node_id := "n3"; node_type := "output.export"; node_name := "Export";
     position_x := 560; position_y := 120; inputs := [pin]; outputs := [pout];
     config := [("format", JStr "json"); ("input_path", JStr "$.summary");
                ("filename", JStr "export.json")];
     ui_icon := "download"; ui_color := "neutral" |}.

Definition wf_with (ns : list node) (es : list edge) : workflow_doc :=
  {| schema_version := "1.0";
     workflow_of := {| wf_id := "wf_test"; wf_name := "Smoke Test Workflow";
                       wf_description := "Validator and semantic edit smoke tests";
                       tags := ["va"]; entry_node_id := "n1"; variables := [];
                       nodes := ns; edges := es |} |}.

Definition baseDoc : workflow_doc :=
  wf_with [n1; n2; n3] [mk_edge "e1" "n1" "n2"; mk_edge "e2" "n2" "n3"].

(** [cyc]: [baseDoc()] with the edge [e3] from [n3.out] to [n2.in]. *)
Definition cyc_doc : workflow_doc :=
  wf_with [n1; n2; n3] [mk_edge "e1" "n1" "n2"; mk_edge "e2" "n2" "n3"; mk_edge "e3" "n3" "n2"].

End Fixtures.

(* ================================================================== *)
(** ** Helpers shared by both engines *)

Module Common.
Import JsStr JsNum JsVal Regex Path Expr Doc.

(** The execution context: a plain object. *)
Definition ctx := list (string * jval).

(** The message of a [TypeError] raised by the runtime (reading a property
    of [undefined], calling a non-function, converting an object whose
    [toString] is not callable). *)
Definition type_error : string := "TypeError".

(** [resolveJsonPath(out, (config.input_path as string | undefined) ?? dflt)]
    with the configured value [p] ([None] is a thrown exception). A falsy
    path returns the input; a truthy non-string path has no [startsWith]
    method, so calling it throws. *)
Definition resolve_cfg (input : jval) (p : jval) : option jval :=
  match p with
  | JStr s => Some (resolveJsonPath input (Some s))
  | v => if truthy v then None else Some input
  end.

Definition input_of (n : node) (out : ctx) : option jval :=
  resolve_cfg (JObj out) (nullish_or (cfg n "input_path") (JStr "$.input")).

(** [String(typeof input === QstringQ ? input : JSON.stringify(input))]. *)
Definition source_text (input : jval) : string :=
  match input with
  | JStr s => s
  | _ => match stringify input with Some t => t | None => "undefined" end
  end.

(** *** [classifyText] *)

Section Classify.
(** [String.prototype.localeCompare], the host's collation. *)
Variable localeCompare : string -> string -> comparison.

Record scored := { sc_label : string; sc_score : Z }.

(** The sign of [b.score - a.score || a.label.localeCompare(b.label)]. *)
Definition cmp_scored (a b : scored) : comparison :=
  match Z.compare (sc_score b - sc_score a) 0 with
  | Eq => localeCompare (sc_label a) (sc_label b)
  | c => c
  end.

(** [Array.prototype.sort] is stable; with a consistent comparator its
    result is the unique stable ordering, the one insertion sort gives. *)
Fixpoint insert_sorted (x : scored) (l : list scored) : list scored :=
  match l with
  | [] => [x]
  | y :: r => match cmp_scored x y with
              | Gt => y :: insert_sorted x r
              | _ => x :: l
              end
  end.

Fixpoint sort (l : list scored) : list scored :=
  match l with
  | [] => []
  | x :: r => insert_sorted x (sort r)
  end.

Definition score_of (text label : string) : Z :=
  if includes text (toLowerCase label) then 2 else 1.

Definition classifyText (input : jval) (labels : list string) : string * Q :=
  let text := toLowerCase (source_text input) in
  let scored := map (fun l => {| sc_label := l; sc_score := score_of text l |}) labels in
  match sort scored with
  | [] => ("general", 67 # 100)
  | s :: _ => (sc_label s, if (sc_score s =? 2)%Z then 92 # 100 else 67 # 100)
  end.
End Classify.

(** [Array.isArray(config.labels) ? config.labels.filter(x => typeof x === QstringQ) : []]. *)
Definition string_labels (v : jval) : list string :=
  match v with
  | JArr xs => flat_map (fun x => match x with JStr s => [s] | _ => [] end) xs
  | _ => []
  end.

(** [Object.fromEntries] of computed entries, keys converted by ToString. *)
Fixpoint from_entries (acc : ctx) (es : list (jval * jval)) : option ctx :=
  match es with
  | [] => Some acc
  | (k, v) :: r => match to_string k with
                   | Some ks => from_entries (obj_set ks v acc) r
                   | None => None
                   end
  end.

(** [f.key], [f.type] on a field spec (not inherited property names). *)
Definition field_get (f : jval) (k : string) : jval :=
  match f with
  | JObj fs => match lookup k fs with Some v => v | None => JUndef end
  | _ => JUndef
  end.

(** [defaultExtractedFields(fields)]: [None] when a key does not convert. *)
Definition defaultExtractedFields (fields : list jval) : option jval :=
  option_map JObj
    (from_entries []
       (map (fun f =>
               let key := nullish_or (field_get f "key") (JStr "field") in
               let t := field_get f "type" in
               if strict_equals (fun _ _ => false) t (JStr "number") then (key, JNum zero)
               else if strict_equals (fun _ _ => false) t (JStr "boolean") then (key, JBool false)
               else if strict_equals (fun _ _ => false) t (JStr "array") then (key, JArr [])
               else (key, JStr "")) fields)).

Definition fields_of (n : node) : list jval :=
  match cfg n "fields" with JArr xs => xs | _ => [] end.

(** *** [toCsv] *)

(** [Object.keys(v)]; [None] on [null] and [undefined]. *)
Definition object_keys (v : jval) : option (list string) :=
  match v with
  | JUndef | JNull => None
  | JObj fs => Some (keys fs)
  | JArr xs => Some (map (fun i => JsNum.to_string (NFin (inject_Z (Z.of_nat i)))) (seq 0 (length xs)))
  | JStr s => Some (map (fun i => JsNum.to_string (NFin (inject_Z (Z.of_nat i)))) (seq 0 (String.length s)))
  | _ => Some []
  end.

Definition string_proto_names : list string :=
  ["constructor"; "length"; "anchor"; "at"; "big"; "blink"; "bold"; "charAt"; "charCodeAt";
   "codePointAt"; "concat"; "endsWith"; "fontcolor"; "fontsize"; "fixed"; "includes";
   "indexOf"; "isWellFormed"; "italics"; "lastIndexOf"; "link"; "localeCompare"; "match";
   "matchAll"; "normalize"; "padEnd"; "padStart"; "repeat"; "replace"; "replaceAll";
   "search"; "slice"; "small"; "split"; "strike"; "sub"; "substr"; "substring"; "sup";
   "startsWith"; "toString"; "toWellFormed"; "trim"; "trimStart"; "trimLeft"; "trimEnd";
   "trimRight"; "toLocaleLowerCase"; "toLocaleUpperCase"; "toLowerCase"; "toUpperCase";
   "valueOf"].
Definition number_proto_names : list string :=
  ["constructor"; "toExponential"; "toFixed"; "toPrecision"; "toString"; "valueOf";
   "toLocaleString"].
Definition boolean_proto_names : list string := ["constructor"; "toString"; "valueOf"].

(** [v[k]]; [None] on [null] and [undefined]. *)
Definition prop_get (v : jval) (k : string) : option jval :=
  let inherited names := if mem k names then JFunc k
                         else match object_proto_get k with Some x => x | None => JUndef end in
  match v with
  | JUndef | JNull => None
  | JObj _ | JArr _ | JProto _ => Some (match get_in k v with Some x => x | None => JUndef end)
  | JStr s =>
    Some (match array_index k with
          | Some i => match String.get (Z.to_nat i) s with
                      | Some c => JStr (String c EmptyString) | None => JUndef end
          | None => if String.eqb k "length" then JNum (NFin (inject_Z (Z.of_nat (String.length s))))
                    else inherited string_proto_names
          end)
  | JNum _ => Some (inherited number_proto_names)
  | JBool _ => Some (inherited boolean_proto_names)
  | JFunc _ => Some (match object_proto_get k with Some x => x | None => JUndef end)
  end.

(** One cell: [raw] is the string or [JSON.stringify(value ?? QQ)];
    [raw.replace] throws when [raw] is [undefined]. *)
Definition csv_cell (value : jval) : option string :=
  match value with
  | JStr s => Some (String dq (of_chars (double_quotes (chars s)) ++ String dq EmptyString))
  | _ => match stringify (nullish_or value (JStr "")) with
         | Some raw => Some (String dq (of_chars (double_quotes (chars raw)) ++ String dq EmptyString))
         | None => None
         end
  end.

Fixpoint all_some {A} (l : list (option A)) : option (list A) :=
  match l with
  | [] => Some []
  | None :: _ => None
  | Some x :: r => option_map (cons x) (all_some r)
  end.

Definition nl : string := String (ascii_of_nat 10) EmptyString.

(** [toCsv(data)]; the outer [None] is a thrown exception, the inner one
    the value [undefined]. *)
Definition toCsv (data : jval) : option (option string) :=
  match data with
  | JArr rows =>
    match rows with
    | [] => Some (Some "")
    | r0 :: _ =>
      match object_keys r0 with
      | None => None
      | Some headers =>
        let row_line row :=
          match all_some (map (fun h => match prop_get row h with
                                        | Some v => csv_cell v | None => None end) headers) with
          | Some cells => Some (join "," cells) | None => None end in
        match all_some (map row_line rows) with
        | Some lines => Some (Some (join nl (join "," headers :: lines)))
        | None => None
        end
      end
    end
  | _ => Some (stringify_pretty data)
  end.

(** The value a string result becomes in the context ([undefined] when the
    serialization is [undefined]). *)
Definition of_opt_string (s : option string) : jval :=
  match s with Some t => JStr t | None => JUndef end.

(** [selectConditionOutput(node, ctx)]; [None] is a thrown exception. *)
Definition selectConditionOutput (n : node) (c : ctx) : option (option string) :=
  match to_string (nullish_or (cfg n "expression") (JStr "")) with
  | None => None
  | Some expression =>
    let defaultOutput := match cfg n "default_output" with JStr s => Some s | _ => None end in
    let outputIds := map port_id (outputs n) in
    let nonDefault :=
      match find (fun id => match defaultOutput with
                            | Some d => negb (String.eqb id d) | None => true end) outputIds with
      | Some id => Some id
      | None => hd_error outputIds
      end in
    match evaluateConditionExpression (JObj c) expression with
    | None => None
    | Some true => Some nonDefault
    | Some false => Some (match defaultOutput with Some d => Some d | None => nonDefault end)
    end
  end.

End Common.

(* ================================================================== *)
(** ** The run loop shared by both engines *)

Module Loop.
Import JsStr JsVal Doc Common.

(** A step record, without its timestamps and duration. *)
Record step := {
  s_node_id : string;
  s_node_name : string;
  s_node_type : string;
  s_success : bool;
  s_selected : option string;
  s_next : list string;
  s_input : jval;
  s_output : jval;
  s_error : option string
}.

Inductive run_status := RSuccess | RFailed (msg : string).

(** What a node's [try] block yields: the thrown message, or the new
    context and the selected output port. *)
Definition outcome := (string + (ctx * option string))%type.

(** [outgoingByNodeId.get(id) ?? []]: the edges leaving [id], in order. *)
Definition outgoing (d : workflow_doc) (id : string) : list edge :=
  filter (fun e => String.eqb (ep_node_id (source e)) id) (edges (workflow_of d)).

Definition followed (d : workflow_doc) (n : node) (sel : option string) : list edge :=
  let out := outgoing d (node_id n) in
  match sel with
  | Some p => if String.eqb (node_type n) "logic.condition" && negb (String.eqb p "")
              then filter (fun e => String.eqb (ep_port_id (source e)) p) out
              else out
  | None => out
  end.

Definition success_step (n : node) (input : ctx) (out : ctx) (sel : option string)
  (next : list string) : step :=
  {| s_node_id := node_id n; s_node_name := node_name n; s_node_type := node_type n;
     s_success := true; s_selected := sel; s_next := next;
     s_input := clone (JObj input); s_output := clone (JObj out); s_error := None |}.

Definition failed_step (n : node) (input : ctx) (msg : string) : step :=
  {| s_node_id := node_id n; s_node_name := node_name n; s_node_type := node_type n;
     s_success := false; s_selected := None; s_next := [];
     s_input := clone (JObj input); s_output := mk_obj [("error", JStr msg)];
     s_error := Some msg |}.

Section Run.
(** The engine's state outside the context (the effects performed so far)
    and its node executor. *)
Context {E : Type}.
Variable exec : E -> ctx -> node -> E * outcome.
Variable d : workflow_doc.

(** What the loop ends with: the state, the status, the steps, the last
    context and the active node ids. *)
Record loop_result := {
  lr_state : E; lr_status : run_status; lr_steps : list step; lr_ctx : ctx; lr_active : list string
}.

(** The [for (const node of ordered)] loop. *)
Fixpoint run_loop (ordered : list node) (active : list string) (e : E) (c : ctx)
  (steps : list step) : loop_result :=
  match ordered with
  | [] => {| lr_state := e; lr_status := RSuccess; lr_steps := steps; lr_ctx := c; lr_active := active |}
  | n :: rest =>
    if mem (node_id n) active then
      match exec e c n with
      | (e', inr (out, sel)) =>
        let next := map (fun x => ep_node_id (target x)) (followed d n sel) in
        run_loop rest (active ++ next)%list e' out (steps ++ [success_step n c out sel next])%list
      | (e', inl msg) =>
        {| lr_state := e'; lr_status := RFailed msg; lr_steps := (steps ++ [failed_step n c msg])%list;
           lr_ctx := c; lr_active := active |}
      end
    else run_loop rest active e c steps
  end.
End Run.

(** The trigger: [doc.workflow.nodes.find(n => n.id === entry_node_id)]. *)
Definition trigger (d : workflow_doc) : option node :=
  find (fun n => String.eqb (node_id n) (entry_node_id (workflow_of d))) (nodes (workflow_of d)).

(** [sample_input ?? sample_payload ?? payload ?? {}] of the trigger. *)
Definition trigger_input (d : workflow_doc) : jval :=
  match trigger d with
  | Some t => nullish_or (cfg t "sample_input")
                (nullish_or (cfg t "sample_payload") (nullish_or (cfg t "payload") (JObj [])))
  | None => JObj []
  end.

End Loop.

(* ================================================================== *)
(** ** The simulated engine ([apps/web/src/lib/simulate.ts]) *)

Module Sim.
Import JsStr JsNum JsVal Path Expr Doc Topo Common Loop.

Section Engine.
Variable localeCompare : string -> string -> comparison.

(** [summarizeText(input)]: [text.slice] throws when [JSON.stringify]
    gives [undefined]. *)
Definition summarizeText (input : jval) : option string :=
  match input with
  | JStr s => Some ("Summary: " ++ slice s 0 180)
  | _ => option_map (fun t => "Summary: " ++ slice t 0 180) (stringify input)
  end.

(** [resolveDbMapping(mapping, ctx)]. *)
Definition resolveDbMapping (mapping : jval) (c : ctx) : ctx :=
  match mapping with
  | JObj fs =>
    fold_left (fun acc kv =>
                 match snd kv with
                 | JStr s => if startsWith s "$"
                             then obj_set (fst kv) (resolveJsonPath (JObj c) (Some s)) acc
                             else obj_set (fst kv) (snd kv) acc
                 | v => obj_set (fst kv) v acc
                 end) fs []
  | _ => []
  end.

(** [out[(config[k] as string | undefined) ?? dflt] = v] in the browser. *)
Definition set_key (n : node) (k dflt : string) (v : jval) (out : ctx) : option ctx :=
  option_map (fun key => assign key v out) (cfg_key n k dflt).

Definition is_type (n : node) (t : string) : bool := String.eqb (node_type n) t.

(** [runNode(node, ctx)]; [None] is a thrown exception. *)
Definition runNode (n : node) (c : ctx) : option ctx :=
  let out := c in
  if is_type n "ai.summarize" then
    match input_of n out with
    | None => None
    | Some input => match summarizeText input with
                    | None => None
                    | Some s => set_key n "output_key" "summary" (JStr s) out
                    end
    end
  else if is_type n "ai.classify" then
    match input_of n out with
    | None => None
    | Some input =>
      let r := classifyText localeCompare input (string_labels (cfg n "labels")) in
      match set_key n "output_key" "label" (JStr (fst r)) out with
      | None => None
      | Some out1 => set_key n "confidence_key" "confidence" (JNum (NFin (snd r))) out1
      end
    end
  else if is_type n "ai.extract_fields" then
    match defaultExtractedFields (fields_of n) with
    | None => None
    | Some extracted => set_key n "output_key" "extracted" extracted out
    end
  else if is_type n "ai.generate_report" then
    match input_of n out with
    | None => None
    | Some input =>
      match stringify input with
      | None => None
      | Some src =>
        set_key n "output_key" "report"
          (JStr ("# Generated SOP" ++ nl ++ nl ++ "- Source: " ++ slice src 0 100 ++ nl ++
                 "- Step 1" ++ nl ++ "- Step 2")) out
      end
    end
  else if is_type n "logic.delay" then
    Some (assign "delay_applied" (nullish_or (cfg n "seconds") (JNum zero)) out)
  else if is_type n "output.db_save" then
    Some (assign "db_save"
            (mk_obj [("would_save", JBool true);
                     ("table", nullish_or (cfg n "table") (JStr "va_items"));
                     ("mode", nullish_or (cfg n "mode") (JStr "insert"));
                     ("payload", JObj (resolveDbMapping (cfg n "mapping") out))]) out)
  else if is_type n "output.export" then
    match input_of n out with
    | None => None
    | Some data =>
      let format := nullish_or (cfg n "format") (JStr "json") in
      let filename :=
        match cfg n "filename" with
        | JUndef | JNull => option_map (fun f => JStr ("export." ++ f)) (to_string format)
        | f => Some f
        end in
      let content :=
        if strict_equals (fun _ _ => false) format (JStr "csv")
        then option_map of_opt_string (toCsv data)
        else Some (of_opt_string (stringify_pretty data)) in
      match filename, content with
      | Some fn, Some ct =>
        Some (assign "export" (mk_obj [("format", format); ("filename", fn);
                                        ("data", data); ("content", ct)]) out)
      | _, _ => None
      end
    end
  else Some out.

(** The [try] block of a step: [runNode], then the port selection. *)
Definition sim_exec (e : unit) (c : ctx) (n : node) : unit * outcome :=
  (e, match runNode n c with
      | None => inl type_error
      | Some output =>
        if is_type n "logic.condition" then
          match selectConditionOutput n output with
          | None => inl type_error
          | Some sel => inr (output, sel)
          end
        else inr (output, None)
      end).

Record sim_result := { status : run_status; steps : list step; output : jval }.

(** [simulateWorkflow(doc, inputOverride)]; [inputOverride] is [JUndef]
    when absent. *)
Definition simulateWorkflow (d : workflow_doc) (inputOverride : jval) : sim_result :=
  let initialInput := nullish_or inputOverride (trigger_input d) in
  let ordered := topo d in
  if negb (length ordered =? length (nodes (workflow_of d))) then
    {| status := RFailed "Cycle detected or graph is not a DAG."; steps := [];
       output := mk_obj [("error", JStr "Cycle detected or graph is not a DAG.")] |}
  else
    let r := run_loop sim_exec d ordered [entry_node_id (workflow_of d)] tt
               [("input", clone initialInput)] [] in
    {| status := lr_status r; steps := lr_steps r; output := JObj (lr_ctx r) |}.
End Engine.

End Sim.

(* ================================================================== *)
(** ** [JSON.parse] on texts whose characters are below 256 *)

Module Json.
Import JsStr JsNum JsVal.

Definition is_json_ws (c : ascii) : bool :=
  let n := nat_of_ascii c in (n =? 9) || (n =? 10) || (n =? 13) || (n =? 32).

Fixpoint skip_ws (l : list ascii) : list ascii :=
  match l with
  | c :: r => if is_json_ws c then skip_ws r else l
  | [] => []
  end.

Definition hex_val (c : ascii) : option nat :=
  let n := nat_of_ascii c in
  if (48 <=? n) && (n <=? 57) then Some (n - 48)
  else if (97 <=? n) && (n <=? 102) then Some (n - 87)
  else if (65 <=? n) && (n <=? 70) then Some (n - 55)
  else None.

Definition is_char (c : ascii) (n : nat) : bool := nat_of_ascii c =? n.

(** The characters of a string literal after its opening quote, up to and
    past the closing one. A [\u] escape beyond 255 is outside the model
    and refused. *)
Fixpoint string_body (l : list ascii) (acc : list ascii) : option (string * list ascii) :=
  match l with
  | [] => None
  | c :: r =>
    if is_char c 34 then Some (of_chars (rev acc), r)
    else if nat_of_ascii c <? 32 then None
    else if is_char c 92 then
      match r with
      | e :: r' =>
        if is_char e 34 then string_body r' (dq :: acc)
        else if is_char e 92 then string_body r' (e :: acc)
        else if is_char e 47 then string_body r' (e :: acc)
        else if is_char e 98 then string_body r' (ascii_of_nat 8 :: acc)
        else if is_char e 102 then string_body r' (ascii_of_nat 12 :: acc)
        else if is_char e 110 then string_body r' (ascii_of_nat 10 :: acc)
        else if is_char e 114 then string_body r' (ascii_of_nat 13 :: acc)
        else if is_char e 116 then string_body r' (ascii_of_nat 9 :: acc)
        else if is_char e 117 then
          match r' with
          | h1 :: h2 :: h3 :: h4 :: r'' =>
            match hex_val h1, hex_val h2, hex_val h3, hex_val h4 with
            | Some a, Some b, Some x, Some y =>
              let v := ((a * 16 + b) * 16 + x) * 16 + y in
              if v <? 256 then string_body r'' (ascii_of_nat v :: acc) else None
            | _, _, _, _ => None
            end
          | _ => None
          end
        else None
      | [] => None
      end
    else string_body r (c :: acc)
  end.

(** A number: [-? (0 | [1-9][0-9]* ) (. [0-9]+)? ([eE] [+-]? [0-9]+)?];
    returns its text and the rest. *)
Definition number_lexeme (l : list ascii) : option (list ascii * list ascii) :=
  let '(sign, l1) := match l with
                     | c :: r => if is_char c 45 then ([c], r) else ([], l)
                     | [] => ([], l) end in
  let '(intp, l2) := span_digits l1 in
  let int_ok := match intp with
                | [] => false
                | z :: _ :: _ => negb (is_char z 48)
                | _ => true end in
  if negb int_ok then None else
  let frac := match l2 with
              | c :: r => if is_char c 46 then
                            let '(ds, r') := span_digits r in
                            match ds with [] => None | _ => Some (c :: ds, r') end
                          else Some ([], l2)
              | [] => Some ([], l2) end in
  match frac with
  | None => None
  | Some (fr, l3) =>
    let ex := match l3 with
              | c :: r => if is_char c 101 || is_char c 69 then
                            let '(sg, r1) := match r with
                                             | s :: r2 => if is_char s 43 || is_char s 45 then ([s], r2) else ([], r)
                                             | [] => ([], r) end in
                            let '(ds, r') := span_digits r1 in
                            match ds with [] => None | _ => Some ((c :: sg) ++ ds, r')%list end
                          else Some ([], l3)
              | [] => Some ([], l3) end in
    match ex with
    | None => None
    | Some (e, l4) => Some (sign ++ intp ++ fr ++ e, l4)%list
    end
  end.

Definition starts_with_chars (l p : list ascii) : option (list ascii) :=
  if String.prefix (of_chars p) (of_chars l) then Some (skipn (length p) l) else None.

Fixpoint value (fuel : nat) (l : list ascii) : option (jval * list ascii) :=
  match fuel with
  | O => None
  | S f =>
    match skip_ws l with
    | [] => None
    | c :: r =>
      if is_char c 123 then
        match skip_ws r with
        | e :: r' => if is_char e 125 then Some (JObj [], r') else
          let fix members (g : nat) (acc : list (string * jval)) (m : list ascii) :=
            match g with
            | O => None
            | S g' =>
              match skip_ws m with
              | q :: m1 =>
                if is_char q 34 then
                  match string_body m1 [] with
                  | Some (k, m2) =>
                    match skip_ws m2 with
                    | col :: m3 =>
                      if is_char col 58 then
                        match value f m3 with
                        | Some (v, m4) =>
                          match skip_ws m4 with
                          | s :: m5 => if is_char s 44 then members g' (obj_set k v acc) m5
                                       else if is_char s 125 then Some (JObj (obj_set k v acc), m5)
                                       else None
                          | [] => None
                          end
                        | None => None
                        end
                      else None
                    | [] => None
                    end
                  | None => None
                  end
                else None
              | [] => None
              end
            end in
          members f [] r
        | [] => None
        end
      else if is_char c 91 then
        match skip_ws r with
        | e :: r' => if is_char e 93 then Some (JArr [], r') else
          let fix elements (g : nat) (acc : list jval) (m : list ascii) :=
            match g with
            | O => None
            | S g' =>
              match value f m with
              | Some (v, m1) =>
                match skip_ws m1 with
                | s :: m2 => if is_char s 44 then elements g' (v :: acc) m2
                             else if is_char s 93 then Some (JArr (rev (v :: acc)), m2)
                             else None
                | [] => None
                end
              | None => None
              end
            end in
          elements f [] r
        | [] => None
        end
      else if is_char c 34 then
        option_map (fun p => (JStr (fst p), snd p)) (string_body r [])
      else
        match starts_with_chars (c :: r) (chars "true") with
        | Some r' => Some (JBool true, r')
        | None =>
        match starts_with_chars (c :: r) (chars "false") with
        | Some r' => Some (JBool false, r')
        | None =>
        match starts_with_chars (c :: r) (chars "null") with
        | Some r' => Some (JNull, r')
        | None =>
          match number_lexeme (c :: r) with
          | Some (lx, r') => Some (JNum (of_string (of_chars lx)), r')
          | None => None
          end
        end end end
    end
  end.

(** [JSON.parse(text)]; [None] is a thrown [SyntaxError]. *)
Definition parse (text : string) : option jval :=
  let l := chars text in
  match value (S (length l)) l with
  | Some (v, rest) => match skip_ws rest with [] => Some v | _ => None end
  | None => None
  end.

End Json.

(* ================================================================== *)
(** ** The live engine ([supabase/functions/run-live], [Deno.serve]) *)

Module Live.
Import JsStr JsNum JsVal Regex Path Expr Doc Topo Common Loop.

(** The effects of a run, in order: model calls and inserted rows. *)
Inductive effect :=
| AiCall (system prompt : string)
| DbInsert (table : string) (row : jval).

(** A computation that performs effects and may throw (with its message). *)
Definition M (A : Type) := list effect -> list effect * (string + A).

Definition ret {A} (a : A) : M A := fun l => (l, inr a).
Definition bind {A B} (m : M A) (k : A -> M B) : M B :=
  fun l => match m l with
           | (l', inl e) => (l', inl e)
           | (l', inr a) => k a l'
           end.
Definition throw {A} (msg : string) : M A := fun l => (l, inl msg).
Definition lift {A} (o : option A) : M A :=
  match o with Some a => ret a | None => throw type_error end.

Local Notation "'let*' x ':=' m 'in' k" := (bind m (fun x => k))
  (at level 200, x ident, m at level 100, k at level 200).

Definition nn : string := nl ++ nl.
Definition qs (s : string) : string := String dq (s ++ String dq EmptyString).

(** [typeof input === QstringQ ? input : JSON.stringify(input)] as an item of
    [join]: [undefined] joins as the empty string. *)
Definition prompt_source (input : jval) : string :=
  match input with
  | JStr s => s
  | _ => match stringify input with Some t => t | None => "" end
  end.

Definition str_or (v : jval) (dflt : string) : string :=
  match v with JStr s => s | _ => dflt end.

(** [/```(?:json)?\s*([\s\S]*?)\s*```/i] *)
Definition fence_re : re :=
  seqs [lit "```"; opt (lit_ci "json"); RStar true ws; RGroup 1 (RStar false anychar);
        RStar true ws; lit "```"].

Section Engine.
Variable localeCompare : string -> string -> comparison.
(** [JSON.parse]; [None] is a thrown [SyntaxError]. *)
Variable JSON_parse : string -> option jval.
(** [RUN_MODE === QliveQ]. *)
Variable live : bool.
(** [user.id] and [wf.id]. *)
Variable user_id workflow_id : string.
(** The model's answer to a call, given the effects so far: its content, or
    the message of the error [callOpenAIText] throws. *)
Variable ai_reply : list effect -> string -> string -> string + string.
(** The database's answer to an insert: the new row's [id], or the error
    message returned. *)
Variable db_reply : list effect -> string -> jval -> string + jval.

(** [callOpenAIText({prompt, system})]. *)
Definition callOpenAIText (system prompt : string) : M string :=
  fun l => ((l ++ [AiCall system prompt])%list,
            match ai_reply l system prompt with
            | inl m => inl m
            | inr c => if String.eqb c "" then inl "OpenAI response missing message content"
                       else inr (trim c)
            end).

(** [client.from(table).insert(row).select(QidQ).single()]: never throws. *)
Definition insert (table : string) (row : jval) : M (string + jval) :=
  fun l => ((l ++ [DbInsert table row])%list, inr (db_reply l table row)).

Definition parseJsonObjectFromText (content : string) : option (list (string * jval)) :=
  let trimmed := trim content in
  let fence := match str_match fence_re trimmed with
               | Some m => match group trimmed m 1 with
                           | Some g => if String.eqb g "" then [] else [trim g]
                           | None => [] end
               | None => [] end in
  let braces := match indexOf trimmed "{"%char, lastIndexOf trimmed "}"%char with
                | Some f, Some lb => if f <? lb then [slice trimmed f (lb + 1)] else []
                | _, _ => [] end in
  let fix first (cs : list string) :=
    match cs with
    | [] => None
    | c :: r => match JSON_parse c with
                | Some (JObj fs) => Some fs
                | _ => first r
                end
    end in
  first (trimmed :: fence ++ braces)%list.

Definition summarizeTextLive (input : jval) (n : node) : M string :=
  let style := str_or (cfg n "style") "concise" in
  let bulletHint := if truthy (cfg n "bullets") then "Use bullets." else "Return a short paragraph." in
  let instructions := str_or (cfg n "instructions") "Summarize the input." in
  callOpenAIText "You are a concise workflow execution assistant."
    (join nn ["Task: " ++ instructions; "Style: " ++ style ++ ". " ++ bulletHint; "Input:";
              prompt_source input]).

Definition classifyTextLive (input : jval) (labels : list string) (n : node) : M (string * Q) :=
  match labels with
  | [] => ret (classifyText localeCompare input labels)
  | _ =>
    let instructions := str_or (cfg n "instructions") "Classify the input into one label." in
    let labelsList := join nl (map (fun l => "- " ++ l) labels) in
    let prompt := join nn [instructions; "Return JSON only in this shape:";
                           "{" ++ qs "label" ++ ":" ++ qs "<one label from provided list>" ++ "," ++
                           qs "confidence" ++ ":0.0}";
                           "Allowed labels:"; labelsList; "Input:"; prompt_source input] in
    let* content := callOpenAIText "Return strict JSON only." prompt in
    match parseJsonObjectFromText content with
    | None => ret (classifyText localeCompare input labels)
    | Some parsed =>
      let label := match lookup "label" parsed with Some (JStr s) => trim s | _ => "" end in
      let confidenceRaw := match lookup "confidence" parsed with Some v => v | None => JUndef end in
      let* confidence := lift (match confidenceRaw with
                               | JNum x => Some x
                               | v => to_number v end) in
      if negb (mem label labels) then ret (classifyText localeCompare input labels)
      else match confidence with
           | NFin c => ret (label, clamp01 c)
           | _ => ret (classifyText localeCompare input labels)
           end
    end
  end.

(** [coerceFieldValue(value, type)]; [None] is a thrown exception. *)
Definition coerceFieldValue (value : jval) (type : string) : option jval :=
  if String.eqb type "number" then
    match (match value with JNum x => Some x | v => to_number v end) with
    | Some x => Some (if isFinite x then JNum x else JNum zero)
    | None => None
    end
  else if String.eqb type "boolean" then Some (JBool (truthy value))
  else if String.eqb type "array" then
    Some (match value with
          | JArr _ => value
          | JUndef | JNull => JArr []
          | v => JArr [v] end)
  else Some (match value with
             | JStr _ => value
             | v => of_opt_string (stringify (nullish_or v (JStr ""))) end).

Fixpoint fold_m {A B} (f : A -> B -> M A) (acc : A) (l : list B) : M A :=
  match l with
  | [] => ret acc
  | x :: r => let* a := f acc x in fold_m f a r
  end.

Record field_spec := { fs_key : string; fs_type : string; fs_required : bool }.

Definition extractFieldsLive (input : jval) (fields : list jval) (n : node) : M jval :=
  match fields with
  | [] => ret (JObj [])
  | _ =>
    let instructions := str_or (cfg n "instructions") "Extract structured fields from the input." in
    let* fieldSpec := lift (all_some (map (fun f =>
                        match to_string (nullish_or (field_get f "key") (JStr "field")),
                              to_string (nullish_or (field_get f "type") (JStr "string")) with
                        | Some k, Some t => Some {| fs_key := k; fs_type := t;
                                                    fs_required := truthy (field_get f "required") |}
                        | _, _ => None
                        end) fields)) in
    let spec_json := JArr (map (fun s => mk_obj [("key", JStr (fs_key s)); ("type", JStr (fs_type s));
                                                 ("required", JBool (fs_required s))]) fieldSpec) in
    let prompt := join nn [instructions; "Return JSON only as an object with the requested keys.";
                           "Field spec:"; match stringify spec_json with Some t => t | None => "" end;
                           "Input:"; prompt_source input] in
    let* content := callOpenAIText "Return strict JSON object only." prompt in
    match parseJsonObjectFromText content with
    | None => lift (defaultExtractedFields fields)
    | Some parsed =>
      let* out := fold_m (fun out s =>
                    let value := match prop_get (JObj parsed) (fs_key s) with Some v => v | None => JUndef end in
                    let* v := lift (coerceFieldValue value (fs_type s)) in
                    ret (obj_set (fs_key s) v out)) [] fieldSpec in
      ret (JObj out)
    end
  end.

Definition generateReportLive (input : jval) (n : node) : M string :=
  let instructions := str_or (cfg n "instructions") "Generate a concise report from the input." in
  let template := str_or (cfg n "template") "Report" in
  let format := str_or (cfg n "format") "markdown" in
  callOpenAIText "You are a concise workflow execution assistant."
    (join nn ["Task: " ++ instructions; "Template: " ++ template; "Output format: " ++ format;
              "Return only the report content."; "Input:"; prompt_source input]).

(** [out[key] = v] in Deno: [obj_set] for every key. *)
Definition set_key (n : node) (k dflt : string) (v : jval) (out : ctx) : M ctx :=
  let* key := lift (cfg_key n k dflt) in ret (obj_set key v out).

Definition is_type (n : node) (t : string) : bool := String.eqb (node_type n) t.

(** [Object.entries(v)] of a non-nullish value. *)
Definition entries_of (v : jval) : list (string * jval) :=
  match v with
  | JObj fs => fs
  | JArr xs => combine (map (fun i => JsNum.to_string (NFin (inject_Z (Z.of_nat i)))) (seq 0 (length xs))) xs
  | JStr s => map (fun i => (JsNum.to_string (NFin (inject_Z (Z.of_nat i))),
                             match String.get i s with
                             | Some c => JStr (String c EmptyString) | None => JUndef end))
                  (seq 0 (String.length s))
  | _ => []
  end.

(** [typeof config.table === QstringQ && config.table.trim() ? config.table.trim() : Qva_itemsQ]. *)
Definition tableName (n : node) : string :=
  match cfg n "table" with
  | JStr s => if String.eqb (trim s) "" then "va_items" else trim s
  | _ => "va_items"
  end.

Definition live_db_save (n : node) (out : ctx) : M ctx :=
  let mapping := nullish_or (cfg n "mapping") (JObj []) in
  let table := tableName n in
  if negb (String.eqb table "va_items") then throw ("db_save unsupported table: " ++ table) else
  let payload := fold_left (fun acc kv =>
                   match snd kv with
                   | JStr s => if startsWith s "$"
                               then obj_set (fst kv) (resolveJsonPath (JObj out) (Some s)) acc
                               else obj_set (fst kv) (snd kv) acc
                   | v => obj_set (fst kv) v acc
                   end) (entries_of mapping) [] in
  let* saved := insert table (mk_obj [("user_id", JStr user_id); ("workflow_id", JStr workflow_id);
                                      ("source_node_id", JStr (node_id n));
                                      ("data_json", JObj payload)]) in
  match saved with
  | inl m => throw ("db_save failed: " ++ m)
  | inr id =>
    ret (obj_set "db_save" (mk_obj [("would_save", JBool true); ("table", JStr table);
                                    ("mode", nullish_or (cfg n "mode") (JStr "insert"));
                                    ("payload", JObj payload); ("inserted_id", id)]) out)
  end.

(** [rawFormat === QcsvQ ? QcsvQ : QjsonQ] where [rawFormat] is the
    lowercased, trimmed [config.format] when it is a string. *)
Definition export_format (n : node) : string :=
  let rawFormat := match cfg n "format" with JStr s => trim (toLowerCase s) | _ => "json" end in
  if String.eqb rawFormat "csv" then "csv" else "json".

Definition live_export (n : node) (out : ctx) : M ctx :=
  let* data := lift (input_of n out) in
  let format := export_format n in
  let filename := nullish_or (cfg n "filename") (JStr ("export." ++ format)) in
  let* content := lift (if String.eqb format "csv" then option_map of_opt_string (toCsv data)
                        else Some (of_opt_string (stringify_pretty data))) in
  let* exp := insert "workflow_exports"
                (mk_obj [("user_id", JStr user_id); ("workflow_id", JStr workflow_id);
                         ("source_node_id", JStr (node_id n)); ("format", JStr format);
                         ("filename", filename); ("content_text", content); ("payload_json", data)]) in
  match exp with
  | inl m => throw ("export failed: " ++ m)
  | inr id => ret (obj_set "export" (mk_obj [("format", JStr format); ("filename", filename);
                                             ("content", content); ("export_id", id)]) out)
  end.

(** The [try] block of a step in the live engine: the node's branch, then
    the port selection. *)
Definition live_exec (c : ctx) (n : node) : M (ctx * option string) :=
  let out := c in
  let* out :=
    if is_type n "ai.summarize" then
      let* input := lift (input_of n out) in
      let* summary := if live then summarizeTextLive input n
                      else ret ("Summary: " ++ slice (source_text input) 0 180) in
      set_key n "output_key" "summary" (JStr summary) out
    else if is_type n "ai.classify" then
      let* input := lift (input_of n out) in
      let labels := string_labels (cfg n "labels") in
      let* result := if live then classifyTextLive input labels n
                     else ret (classifyText localeCompare input labels) in
      let* out1 := set_key n "output_key" "label" (JStr (fst result)) out in
      set_key n "confidence_key" "confidence" (JNum (NFin (snd result))) out1
    else if is_type n "ai.extract_fields" then
      let fields := fields_of n in
      let* input := lift (input_of n out) in
      let* extracted := if live then extractFieldsLive input fields n
                        else lift (defaultExtractedFields fields) in
      set_key n "output_key" "extracted" extracted out
    else if is_type n "ai.generate_report" then
      let* input := lift (input_of n out) in
      let* report := if live then generateReportLive input n
                     else lift (option_map (fun src => "# Generated Report" ++ nn ++ "- Source: " ++
                                                       slice src 0 120 ++ nl ++ "- Step 1" ++ nl ++
                                                       "- Step 2") (stringify input)) in
      set_key n "output_key" "report" (JStr report) out
    else if is_type n "logic.delay" then
      ret (obj_set "delay_applied" (nullish_or (cfg n "seconds") (JNum zero)) out)
    else if is_type n "output.db_save" then live_db_save n out
    else if is_type n "output.export" then live_export n out
    else ret out in
  if is_type n "logic.condition" then
    let* sel := lift (selectConditionOutput n out) in ret (out, sel)
  else ret (out, None).

Definition live_step (l : list effect) (c : ctx) (n : node) : list effect * outcome :=
  live_exec c n l.

(** A step as persisted (without its timestamps and duration). *)
Definition step_json (s : step) : jval :=
  mk_obj ([("node_id", JStr (s_node_id s)); ("node_name", JStr (s_node_name s));
           ("node_type", JStr (s_node_type s));
           ("status", JStr (if s_success s then "success" else "failed"));
           ("selected_output_port", match s_selected s with Some p => JStr p | None => JNull end);
           ("next_node_ids", JArr (map JStr (s_next s)));
           ("input", s_input s); ("output", s_output s)] ++
          match s_error s with Some m => [("error", JStr m)] | None => [] end)%list.

Definition run_row (status : string) (steps : list step) (initialInput : jval) (c : ctx) : jval :=
  mk_obj [("user_id", JStr user_id); ("workflow_id", JStr workflow_id); ("status", JStr status);
          ("input_json", mk_obj [("source", JStr "run-live"); ("payload", initialInput)]);
          ("output_json", JObj c); ("steps", JArr (map step_json steps))].

Record response := { code : nat; body : jval }.

(** The handler from the DAG check on, for a document already read and
    authorised; [input_json] is [JUndef] when absent. *)
Definition run_live (d : workflow_doc) (input_json : jval) : list effect * response :=
  let ordered := topo d in
  if negb (length ordered =? length (nodes (workflow_of d))) then
    ([], {| code := 422; body := mk_obj [("ok", JBool false);
                                         ("error", JStr "Workflow graph is not a DAG")] |})
  else
    let initialInput := nullish_or input_json (trigger_input d) in
    let r := run_loop live_step d ordered [entry_node_id (workflow_of d)] []
               [("input", clone initialInput)] [] in
    let l := lr_state r in
    let steps := lr_steps r in
    let c := lr_ctx r in
    match lr_status r with
    | RFailed msg =>
      let '(l', r) := insert "runs" (run_row "failed" steps initialInput c) l in
      (l', {| code := 500;
              body := mk_obj [("ok", JBool false); ("error", JStr "Run failed");
                              ("run_id", match r with inr (inr id) => id | _ => JUndef end);
                              ("details", JStr msg)] |})
    | RSuccess =>
      let '(l', r) := insert "runs" (run_row "success" steps initialInput c) l in
      (l', match r with
           | inr (inr id) =>
             {| code := 200;
                body := mk_obj [("ok", JBool true); ("run_id", id); ("output_json", JObj c);
                                ("steps_count", JNum (NFin (inject_Z (Z.of_nat (length steps)))))] |}
           | inr (inl m) | inl m =>
             {| code := 500; body := mk_obj [("ok", JBool false); ("error", JStr m)] |}
           end)
    end.
End Engine.

End Live.

(* ================================================================== *)
(** ** Concrete inputs used below *)

Module Cases.
Import JsStr JsNum JsVal Doc Common Live Fixtures.

(** A collation for concrete runs: code-unit order. *)
Definition code_unit_compare : string -> string -> comparison := String.compare.

Definition with_config (n : node) (cfgv : list (string * jval)) : node :=
  {| node_id := node_id n; node_type := node_type n; node_name := node_name n;
     position_x := position_x n; position_y := position_y n; inputs := inputs n;
     outputs := outputs n; config := cfgv; ui_icon := ui_icon n; ui_color := ui_color n |}.

(** The export node of the smoke test [badExport]. *)
Definition export_xml : node :=
  with_config n3 [("format", JStr "xml"); ("input_path", JStr "$.summary");
                  ("filename", JStr "export.xml")].

Definition condition_node (cfgv : list (string * jval)) : node :=
  {| node_id := "c1"; node_type := "logic.condition"; node_name := "Condition";
     position_x := 0; position_y := 0; inputs := [pin];
     outputs := [{| port_id := "true"; port_label := "True"; port_schema := "JSON" |};
                 {| port_id := "false"; port_label := "False"; port_schema := "JSON" |}];
     config := cfgv; ui_icon := "sparkles"; ui_color := "neutral" |}.

Definition score_ctx (q : Q) : ctx := [("score", JNum (NFin q))].

Definition db_save_node (table : string) : node :=
  {| node_id := "n2"; node_type := "output.db_save"; node_name := "Save to DB";
     position_x := 320; position_y := 120; inputs := [pin]; outputs := [pout];
     config := [("table", JStr table); ("mode", JStr "insert");
                ("mapping", JObj [("payload", JStr "$.input")])];
     ui_icon := "sparkles"; ui_color := "neutral" |}.

(** Scenario B: the manual trigger feeding a [db_save] node. *)
Definition db_doc (table : string) : workflow_doc :=
  wf_with [n1; db_save_node table] [mk_edge "e1" "n1" "n2"].

Definition classify_node (cfgv : list (string * jval)) : node :=
  {| node_id := "n2"; node_type := "ai.classify"; node_name := "Classify";
     position_x := 320; position_y := 120; inputs := [pin]; outputs := [pout];
     config := cfgv; ui_icon := "sparkles"; ui_color := "neutral" |}.

(** Oracles: a model that always answers [raw], a database that accepts
    every insert. *)
Definition ai_const (raw : string) : list effect -> string -> string -> string + string :=
  fun _ _ _ => inr raw.
Definition db_accept : list effect -> string -> jval -> string + jval :=
  fun _ _ _ => inr (JStr "row-1").

(** The answer [{QlabelQ:Q leadQ,QconfidenceQ:0.5}]. *)
Definition padded_label_answer : string :=
  "{" ++ qs "label" ++ ":" ++ qs " lead" ++ "," ++ qs "confidence" ++ ":0.5}".

End Cases.

(* ================================================================== *)
(** ** Document invariants used to state properties of the edits *)

Module Invariants.
Import JsStr JsVal Doc.

(** Every edge of the document starts and ends at one of its node ids. *)
Definition edges_closed (d : workflow_doc) : bool :=
  forallb (fun e => mem (ep_node_id (source e)) (node_ids d)
                    && mem (ep_node_id (target e)) (node_ids d))
          (edges (workflow_of d)).

(** What a node is apart from its name, position and settings. *)
Definition node_frame (n : node) : string * string * list port * list port :=
  (node_id n, node_type n, inputs n, outputs n).

(** [m] only appends to the effect log, and only effects satisfying [P]. *)
Definition appends_only {A} (P : Live.effect -> Prop) (m : Live.M A) : Prop :=
  forall l, exists l', fst (m l) = (l ++ l')%list /\ Forall P l'.

(** The [user_id] column of an inserted row. *)
Definition row_user (row : jval) : option jval :=
  match row with JObj fs => lookup "user_id" fs | _ => None end.

(** [f.key ?? QfieldQ] converted by ToString: the key a field spec is
    stored under. *)
Definition field_key_of (f : jval) : option string :=
  to_string (nullish_or (Common.field_get f "key") (JStr "field")).

End Invariants.

(* ================================================================== *)
(** ** The HTTP handler of the run function ([Deno.serve]) *)

Module Handler.
Import JsStr JsNum JsVal Regex Doc Common Live.

(** [s.split(sep)] for a one-character separator. *)
Fixpoint split_on (sep : ascii) (l : list ascii) : list (list ascii) :=
  match l with
  | [] => [[]]
  | c :: r =>
    let rest := split_on sep r in
    if Ascii.eqb c sep then [] :: rest
    else match rest with
         | p :: ps => (c :: p) :: ps
         | [] => [[c]]
         end
  end.

(** [CORS_ALLOW_ORIGINS], from the value of the environment variable. *)
Definition CORS_ALLOW_ORIGINS (env : option string) : list string :=
  filter (fun v => negb (String.eqb v ""))
    (map (fun p => trim (of_chars p))
       (split_on ","%char (chars (match env with Some s => s | None => "" end)))).

(** [corsHeadersForOrigin(origin)] against the allow-list [allow]. *)
Definition corsHeadersForOrigin (allow : list string) (origin : option string) : list (string * string) :=
  let allowedOrigin :=
    match origin with
    | Some o => if negb (String.eqb o "") && negb (length allow =? 0)
                then (if mem o allow then Some o else None)
                else Some o
    | None => Some "*"
    end in
  [("Access-Control-Allow-Origin", match allowedOrigin with Some a => a | None => "null" end);
   ("Access-Control-Allow-Headers", "authorization, x-client-info, apikey, content-type");
   ("Access-Control-Allow-Methods", "POST, OPTIONS");
   ("Vary", "Origin")].

(** [origin && CORS_ALLOW_ORIGINS.length > 0 && !CORS_ALLOW_ORIGINS.includes(origin)]. *)
Definition origin_blocked (allow : list string) (origin : option string) : bool :=
  match origin with
  | Some o => negb (String.eqb o "") && negb (length allow =? 0) && negb (mem o allow)
  | None => false
  end.

(** [/^Bearer\s+(.+)$/i] *)
Definition bearer_re : re :=
  seqs [RBegin; lit_ci "Bearer"; plus true ws; RGroup 1 (plus true dot); REnd].

(** [bearerMatch && bearerMatch[1]?.trim()] is truthy. *)
Definition bearer_ok (authHeader : string) : bool :=
  match str_match bearer_re authHeader with
  | Some m => match group authHeader m 1 with
              | Some g => negb (String.eqb (trim g) "")
              | None => false
              end
  | None => false
  end.

(** A request: its method, [Origin] and [Authorization] headers, and the
    result of [req.json()] (the message of the error it rejects with, or
    the parsed body). *)
Record request := {
  req_method : string;
  req_origin : option string;
  req_authorization : option string;
  req_json : string + jval
}.

(** A response: status, headers, and a text or JSON body. *)
Record http_response := {
  status : nat;
  headers : list (string * string);
  payload : string + jval
}.

Section Serve.
Variable localeCompare : string -> string -> comparison.
Variable JSON_parse : string -> option jval.
Variable ai_reply : list effect -> string -> string -> string + string.
Variable db_reply : list effect -> string -> jval -> string + jval.
(** [Deno.env.get]. *)
Variable env : string -> option string.
(** [client.auth.getUser()] for the [Authorization] header: the user's
    id, or [None] on an error or no user. *)
Variable get_user : string -> option string.
(** [monthStartIso()]. *)
Variable period_start : string.
(** The count of the user's runs since [period_start]: the error message,
    or the count ([None] is [null]). *)
Variable runs_count : string -> string -> string + option Z.
(** The [workflows] row with id [body.workflow_id]: [None] on an error or
    no row; otherwise its [id], its [user_id] and its [definition_json]
    as a document ([None] when it lacks [workflow.nodes] or
    [workflow.edges]). *)
Variable load_workflow : jval -> option (string * string * option workflow_doc).

Definition RUN_MODE : string :=
  toLowerCase (match env "RUN_MODE" with Some s => s | None => "simulate" end).

Definition RUN_WORKFLOW_MONTHLY_LIMIT : num :=
  of_string (match env "RUN_WORKFLOW_MONTHLY_LIMIT" with Some s => s | None => "500" end).

Definition allow_list : list string := CORS_ALLOW_ORIGINS (env "CORS_ALLOW_ORIGINS").

Definition non_empty (v : option string) : bool :=
  match v with Some s => negb (String.eqb s "") | None => false end.

(** The body of the [try] block: the thrown message, or the response. *)
Definition serve_try (req : request) (corsHeaders : list (string * string))
  : list effect * (string + http_response) :=
  let json st b := {| status := st; headers := (corsHeaders ++ [("Content-Type", "application/json")])%list;
                      payload := inr b |} in
  let fail st msg := ([], inr (json st (mk_obj [("ok", JBool false); ("error", JStr msg)]))) in
  if negb (non_empty (env "SUPABASE_URL") && non_empty (env "SUPABASE_ANON_KEY")) then
    fail 500 "Supabase env missing" else
  let authHeader := match req_authorization req with Some a => a | None => "" end in
  if negb (bearer_ok authHeader) then fail 401 "Unauthorized" else
  match get_user authHeader with
  | None => fail 401 "Unauthorized"
  | Some user =>
    if negb (isFinite RUN_WORKFLOW_MONTHLY_LIMIT) || lt RUN_WORKFLOW_MONTHLY_LIMIT (NFin 1) then
      fail 500 "Invalid RUN_WORKFLOW_MONTHLY_LIMIT configuration" else
    match runs_count user period_start with
    | inl m => fail 500 ("Run quota check failed: " ++ m)
    | inr runsCount =>
      if ge (NFin (inject_Z (match runsCount with Some k => k | None => 0%Z end))) RUN_WORKFLOW_MONTHLY_LIMIT then
        ([], inr (json 429 (mk_obj [("ok", JBool false); ("error", JStr "Monthly run limit reached");
                                    ("limit", JNum RUN_WORKFLOW_MONTHLY_LIMIT);
                                    ("period_start", JStr period_start)])))
      else
      match req_json req with
      | inl m => ([], inl m)
      | inr body =>
        match prop_get body "workflow_id" with
        | None => ([], inl type_error)
        | Some wid =>
          if negb (truthy wid) then fail 400 "workflow_id is required" else
          match load_workflow wid with
          | None => fail 404 "Workflow not found"
          | Some (wf_id, owner, doc) =>
            if negb (String.eqb owner user) then fail 403 "Forbidden" else
            match doc with
            | None => fail 422 "Invalid workflow definition"
            | Some d =>
              let input_json := match prop_get body "input_json" with Some v => v | None => JUndef end in
              let '(l, r) := run_live localeCompare JSON_parse (String.eqb RUN_MODE "live") user wf_id
                               ai_reply db_reply d input_json in
              (l, inr (json (Live.code r) (Live.body r)))
            end
          end
        end
      end
    end
  end.

(** The handler given to [Deno.serve]. *)
Definition serve (req : request) : list effect * http_response :=
  let origin := req_origin req in
  let corsHeaders := corsHeadersForOrigin allow_list origin in
  let json st b := {| status := st; headers := (corsHeaders ++ [("Content-Type", "application/json")])%list;
                      payload := inr b |} in
  if String.eqb (req_method req) "OPTIONS" then
    ([], {| status := 200; headers := corsHeaders; payload := inl "ok" |}) else
  if origin_blocked allow_list origin then
    ([], json 403 (mk_obj [("ok", JBool false); ("error", JStr "Origin not allowed")])) else
  if negb (String.eqb (req_method req) "POST") then
    ([], json 405 (mk_obj [("ok", JBool false); ("error", JStr "Method not allowed")])) else
  match serve_try req corsHeaders with
  | (l, inr resp) => (l, resp)
  | (l, inl m) => (l, json 500 (mk_obj [("ok", JBool false); ("error", JStr m)]))
  end.
End Serve.

End Handler.

(* ================================================================== *)
(** ** Concrete inputs for the edit commands and the request handler *)

Module ExtraCases.
Import JsStr JsVal Doc Common Live Fixtures Cases Handler.

(** The manual trigger feeding a condition node with ports [true] and
    [false] and default output [false]. *)
Definition cond_doc : workflow_doc :=
  wf_with [n1; condition_node [("expression", JStr "score >= 50"); ("default_output", JStr "false")]]
          [mk_edge "e1" "n1" "c1"].

(** An environment with the two Supabase variables set and nothing else. *)
Definition env_ok (k : string) : option string :=
  if String.eqb k "SUPABASE_URL" then Some "https://project.supabase.co"
  else if String.eqb k "SUPABASE_ANON_KEY" then Some "anon-key" else None.

(** [auth.getUser()]: the token [tok] belongs to the user [u1]. *)
Definition get_user_ok (auth : string) : option string :=
  if String.eqb auth "Bearer tok" then Some "u1" else None.

(** No run counted this month. *)
Definition runs_zero (user since : string) : string + option Z := inr (Some 0%Z).

(** The [workflows] table: the row [w1], owned by [u1], holding [baseDoc]. *)
Definition load_base (wid : jval) : option (string * string * option workflow_doc) :=
  match wid with
  | JStr s => if String.eqb s "w1" then Some ("w1", "u1", Some baseDoc) else None
  | _ => None
  end.

Definition post_req : request :=
  {| req_method := "POST"; req_origin := Some "https://app.example";
     req_authorization := Some "Bearer tok";
     req_json := inr (mk_obj [("workflow_id", JStr "w1")]) |}.

End ExtraCases.


(* ================================================================== *)
(** * Properties *)

(* ------------------------------------------------------------------ *)
(** ** Behaviour on concrete inputs *)

Module Concrete.
Import JsStr JsNum JsVal Path Expr Json Doc Schema Topo Semantic Common Loop Sim Live
       Fixtures Cases.

(** C1 (code bug): the document validator has no acyclicity check. The
    smoke test's cyclic document ([baseDoc()] plus the edge [e3] from [n3]
    to [n2]) passes [validateWorkflowDoc] although the topological sort
    orders only one of its three nodes, and the command
    [connect n3 to n2] on [baseDoc()], which creates that cycle, is
    applied with [ok = true] instead of being rejected. *)
Theorem validator_accepts_cyclic_doc :
  validateWorkflowDoc cyc_doc = VOk cyc_doc /\
  length (topo cyc_doc) = 1 /\ length (nodes (workflow_of cyc_doc)) = 3 /\
  (exists d', applySemanticCommand baseDoc "connect n3 to n2"
              = Some {| ok := true; message := "Connected n3 to n2.";
                        result_workflow := Some d'; result_errors := None |} /\
              d' = cyc_doc).
Proof.
  split; [vm_compute; reflexivity|].
  split; [vm_compute; reflexivity|].
  split; [reflexivity|].
  eexists; split; vm_compute; reflexivity.
Qed.

(** C2 (code bug): the simulated engine does not normalise the export
    format. An export node configured with [format = Qxml Q] (the smoke
    test's [badExport] node) records [format: Qxml Q] in [out.export],
    while the live engine's normalisation maps it to [Qjson Q]. *)
Theorem sim_export_records_xml (localeCompare : string -> string -> comparison) :
  runNode localeCompare export_xml [("summary", JStr "s")] =
    Some [("summary", JStr "s");
          ("export", JObj [("format", JStr "xml"); ("filename", JStr "export.xml");
                           ("data", JStr "s"); ("content", JStr (qs "s"))])] /\
  export_format export_xml = "json".
Proof. split; vm_compute; reflexivity. Qed.

(** C4 (code bug): [resolveJsonPath] reads inherited properties: the
    [in] test is true for keys of [Object.prototype], so [$.constructor]
    against the empty context gives the [Object] constructor, not
    [undefined]; [$.a.b[0]] against [{a:{b:[42]}}] gives [42]. *)
Theorem resolve_reads_inherited_key :
  resolveJsonPath (JObj []) (Some "$.constructor") = JFunc "constructor" /\
  resolveJsonPath (JObj [("a", JObj [("b", JArr [JNum (NFin (inject_Z 42))])])]) (Some "$.a.b[0]")
    = JNum (NFin (inject_Z 42)).
Proof. split; vm_compute; reflexivity. Qed.

(** C5 (code bug): the evaluator throws when an ordering operand is an
    object whose own [toString] is not a function: [Number(left)] raises a
    [TypeError]. With the context [{x: {toString: Qx Q}}], [$.x > 1] throws,
    and the condition node evaluating it fails its step. *)
Theorem evaluator_throws_on_object_operand (localeCompare : string -> string -> comparison) :
  evaluateConditionExpression (JObj [("x", JObj [("toString", JStr "x")])]) "$.x > 1" = None /\
  sim_exec localeCompare tt [("x", JObj [("toString", JStr "x")])]
    (condition_node [("expression", JStr "$.x > 1"); ("default_output", JStr "false")])
    = (tt, inl type_error).
Proof. split; vm_compute; reflexivity. Qed.

(** C3 (counterexample): on the cyclic document the simulated run has
    status [failed] and no step at all, so its failed status comes with no
    failed step; the live handler answers 422 and performs no effect (no
    run is recorded). *)
Theorem cyclic_run_fails_without_steps :
  status (simulateWorkflow code_unit_compare cyc_doc JUndef)
    = RFailed "Cycle detected or graph is not a DAG." /\
  steps (simulateWorkflow code_unit_compare cyc_doc JUndef) = [] /\
  fst (run_live code_unit_compare parse true "u" "w" (ai_const "") db_accept cyc_doc JUndef) = [] /\
  code (snd (run_live code_unit_compare parse true "u" "w" (ai_const "") db_accept cyc_doc JUndef))
    = 422.
Proof. repeat split; vm_compute; reflexivity. Qed.

(** C7 (counterexample): the label of the model's answer is trimmed before
    the membership test. The answer [{QlabelQ:Q leadQ,QconfidenceQ:0.5}]
    with the labels [[Qlead Q]] is accepted as [(Qlead Q, 0.5)], although
    [Q leadQ] is not literally a member of the list, and this differs from
    the deterministic classifier's [(Qlead Q, 0.67)]. *)
Theorem live_classify_trims_label :
  mem " lead" ["lead"] = false /\
  snd (classifyTextLive code_unit_compare parse (ai_const padded_label_answer)
         (JStr "hello") ["lead"] (classify_node [("labels", JArr [JStr "lead"])]) [])
    = inr ("lead", 5 # 10) /\
  classifyText code_unit_compare (JStr "hello") ["lead"] = ("lead", 67 # 100).
Proof. repeat split; vm_compute; reflexivity. Qed.

(** C8 (counterexample): the table name is trimmed, so the non-empty
    [Q va_itemsQ] (different from [Qva_items Q]) does not fail: the node
    inserts into [va_items] and succeeds. *)
Theorem padded_table_is_accepted :
  exists row out,
    live_step code_unit_compare parse true "u" "w" (ai_const "") db_accept [] []
      (db_save_node " va_items")
    = ([DbInsert "va_items" row], inr (out, None)).
Proof. do 2 eexists; vm_compute; reflexivity. Qed.

(** C9 (counterexample): without a string [default_output], a false
    expression selects the first output, not [config.default_output]:
    outputs [[true, false]], [$.score > 0.8] on [{score: 0.1}] selects
    [Qtrue Q]. *)
Theorem false_condition_without_default_selects_first :
  sim_exec code_unit_compare tt (score_ctx (1 # 10))
    (condition_node [("expression", JStr "$.score > 0.8")])
  = (tt, inr (score_ctx (1 # 10), Some "true")).
Proof. vm_compute; reflexivity. Qed.

(** C10 (counterexample): a classify node without labels whose
    [output_key] is [__proto__]. In the browser simulator
    [out.__proto__ = "general"] reaches the setter inherited from
    [Object.prototype], which ignores a string: no label is stored, only
    the confidence. The live engine, in Deno, stores the label under an own
    [__proto__] key. *)
Theorem proto_output_key_stores_no_label :
  sim_exec code_unit_compare tt [("input", JStr "Invoice overdue")]
    (classify_node [("output_key", JStr "__proto__")])
  = (tt, inr ([("input", JStr "Invoice overdue"); ("confidence", JNum (NFin (67 # 100)))], None)) /\
  live_exec code_unit_compare parse false "u" "w" (ai_const "") db_accept
    [("input", JStr "Invoice overdue")] (classify_node [("output_key", JStr "__proto__")]) []
  = ([], inr ([("input", JStr "Invoice overdue"); ("__proto__", JStr "general");
               ("confidence", JNum (NFin (67 # 100)))], None)).
Proof. split; vm_compute; reflexivity. Qed.

End Concrete.

(* ------------------------------------------------------------------ *)
(** ** The deterministic classifier *)

Module ClassifyProofs.
Import JsStr JsNum JsVal Common.

Section Sorting.
Variable lc : string -> string -> comparison.

Lemma insert_sorted_in (x : scored) (l : list scored) (y : scored) :
  In y (insert_sorted lc x l) <-> y = x \/ In y l.
Proof.
  induction l as [|z r IH]; simpl.
  - intuition congruence.
  - destruct (cmp_scored lc x z); simpl; rewrite ?IH; intuition congruence.
Qed.

Lemma sort_in (l : list scored) (y : scored) : In y (sort lc l) <-> In y l.
Proof.
  induction l as [|x r IH]; simpl.
  - tauto.
  - rewrite insert_sorted_in, IH. intuition congruence.
Qed.

Lemma insert_sorted_not_nil (x : scored) (l : list scored) : insert_sorted lc x l <> [].
Proof. destruct l; simpl; [discriminate|]. destruct (cmp_scored lc x s); discriminate. Qed.

Lemma sort_nil (l : list scored) : sort lc l = [] -> l = [].
Proof. destruct l; simpl; [auto|]. intro H. exfalso. exact (insert_sorted_not_nil _ _ H). Qed.

(** The head of the sorted list is a least element for a comparator that
    is antisymmetric and transitive on the list's elements. *)
Lemma sort_head_min (l : list scored) (h : scored) (t : list scored) :
  (forall a b, In a l -> In b l -> cmp_scored lc b a = CompOpp (cmp_scored lc a b)) ->
  (forall a b c, In a l -> In b l -> In c l ->
     cmp_scored lc a b <> Gt -> cmp_scored lc b c <> Gt -> cmp_scored lc a c <> Gt) ->
  sort lc l = h :: t -> forall y, In y l -> cmp_scored lc h y <> Gt.
Proof.
  revert h t. induction l as [|x r IH]; intros h t Hanti Htrans Hs y Hy; [destruct Hy|].
  assert (Hxx : cmp_scored lc x x = Eq).
  { pose proof (Hanti x x (or_introl eq_refl) (or_introl eq_refl)) as E.
    destruct (cmp_scored lc x x); simpl in E; congruence. }
  simpl in Hs. destruct (sort lc r) as [|h' t'] eqn:Er.
  - apply sort_nil in Er. subst r. simpl in Hs. injection Hs as <- _.
    destruct Hy as [<-|[]]. rewrite Hxx. discriminate.
  - assert (Hmin : forall z, In z r -> cmp_scored lc h' z <> Gt).
    { apply (IH h' t'); auto.
      - intros a b Ha Hb. apply Hanti; right; assumption.
      - intros a b c Ha Hb Hc. apply Htrans; right; assumption. }
    assert (Hh' : In h' r) by (apply sort_in; rewrite Er; left; reflexivity).
    simpl in Hs. destruct (cmp_scored lc x h') eqn:Exh.
    + injection Hs as <- _. destruct Hy as [<-|Hy]; [rewrite Hxx; discriminate|].
      apply (Htrans x h' y); [left; auto|right; auto|right; auto| |apply Hmin; auto].
      rewrite Exh; discriminate.
    + injection Hs as <- _. destruct Hy as [<-|Hy]; [rewrite Hxx; discriminate|].
      apply (Htrans x h' y); [left; auto|right; auto|right; auto| |apply Hmin; auto].
      rewrite Exh; discriminate.
    + injection Hs as <- _. destruct Hy as [<-|Hy]; [|apply Hmin; auto].
      rewrite (Hanti x h' (or_introl eq_refl) (or_intror Hh')), Exh. discriminate.
Qed.
End Sorting.

Lemma cmp_scored_antisym (lc : string -> string -> comparison) (a b : scored) :
  lc (sc_label b) (sc_label a) = CompOpp (lc (sc_label a) (sc_label b)) ->
  cmp_scored lc b a = CompOpp (cmp_scored lc a b).
Proof.
  intro H. unfold cmp_scored.
  destruct (Z.compare_spec (sc_score a - sc_score b) 0);
  destruct (Z.compare_spec (sc_score b - sc_score a) 0); simpl; try lia; auto.
Qed.

Lemma cmp_scored_trans (lc : string -> string -> comparison) (a b c : scored) :
  (lc (sc_label a) (sc_label b) <> Gt -> lc (sc_label b) (sc_label c) <> Gt ->
   lc (sc_label a) (sc_label c) <> Gt) ->
  cmp_scored lc a b <> Gt -> cmp_scored lc b c <> Gt -> cmp_scored lc a c <> Gt.
Proof.
  intro H. unfold cmp_scored.
  destruct (Z.compare_spec (sc_score b - sc_score a) 0);
  destruct (Z.compare_spec (sc_score c - sc_score b) 0);
  destruct (Z.compare_spec (sc_score c - sc_score a) 0);
  intros Hab Hbc; try lia; try discriminate; auto.
Qed.

Lemma cmp_scored_not_gt (lc : string -> string -> comparison) (a b : scored) :
  cmp_scored lc a b <> Gt ->
  (sc_score b <= sc_score a)%Z /\
  (sc_score b = sc_score a -> lc (sc_label a) (sc_label b) <> Gt).
Proof.
  unfold cmp_scored. destruct (Z.compare_spec (sc_score b - sc_score a) 0);
  intros H'; split; intros; try lia; auto.
  exfalso. apply H'. reflexivity.
Qed.

(** C6: for a non-empty label list, [classifyText] returns a label of the
    list of greatest score, where a label scores 2 when its lowercase form
    occurs in the lowercased text of the input ([String] of the input or
    of its [JSON.stringify]) and 1 otherwise; among labels of equal score
    it returns one that comes first in the host's collation order
    ([localeCompare], assumed antisymmetric and transitive on the labels);
    the confidence is 0.92 when the returned label scores 2 and 0.67
    otherwise. [classifyText] is a function of the input and the labels,
    so two runs on the same arguments give the same pair. *)
Theorem classifyText_spec (localeCompare : string -> string -> comparison)
  (input : jval) (labels : list string)
  (Hne : labels <> [])
  (Hanti : forall a b, In a labels -> In b labels ->
           localeCompare b a = CompOpp (localeCompare a b))
  (Htrans : forall a b c, In a labels -> In b labels -> In c labels ->
            localeCompare a b <> Gt -> localeCompare b c <> Gt -> localeCompare a c <> Gt) :
  let text := toLowerCase (source_text input) in
  let score (l : string) := if includes text (toLowerCase l) then 2%Z else 1%Z in
  let r := classifyText localeCompare input labels in
  In (fst r) labels /\
  (forall l, In l labels -> (score l <= score (fst r))%Z) /\
  (forall l, In l labels -> score l = score (fst r) -> localeCompare (fst r) l <> Gt) /\
  snd r = (if (score (fst r) =? 2)%Z then 92 # 100 else 67 # 100) /\
  classifyText localeCompare input labels = r.
Proof.
  intros text score r.
  set (sc := map (fun l => {| sc_label := l; sc_score := score_of text l |}) labels).
  assert (Hin : forall y, In y sc -> In (sc_label y) labels /\ sc_score y = score (sc_label y)).
  { intros y Hy. unfold sc in Hy. apply in_map_iff in Hy as [l [<- Hl]]. simpl. auto. }
  assert (Hr : r = match sort localeCompare sc with
                   | [] => ("general", 67 # 100)
                   | s :: _ => (sc_label s, if (sc_score s =? 2)%Z then 92 # 100 else 67 # 100)
                   end) by reflexivity.
  destruct (sort localeCompare sc) as [|h t] eqn:Es.
  { apply sort_nil in Es. destruct labels; [congruence|discriminate]. }
  assert (Hh : In h sc) by (apply (sort_in localeCompare); rewrite Es; left; reflexivity).
  destruct (Hin h Hh) as [Hhl Hhs].
  assert (Hmin := sort_head_min localeCompare sc h t).
  assert (Hmin' : forall y, In y sc -> cmp_scored localeCompare h y <> Gt).
  { apply Hmin; auto.
    - intros a b Ha Hb. apply cmp_scored_antisym.
      apply Hanti; [apply Hin; auto | apply Hin; auto].
    - intros a b c Ha Hb Hc. apply cmp_scored_trans.
      apply Htrans; apply Hin; auto. }
  rewrite Hr; simpl.
  split; [exact Hhl|].
  split; [|split; [|split]].
  - intros l Hl.
    assert (Hy : In {| sc_label := l; sc_score := score_of text l |} sc)
      by (unfold sc; apply in_map_iff; eauto).
    destruct (cmp_scored_not_gt _ _ _ (Hmin' _ Hy)) as [H1 _]. simpl in H1.
    rewrite <- Hhs. exact H1.
  - intros l Hl Heq.
    assert (Hy : In {| sc_label := l; sc_score := score_of text l |} sc)
      by (unfold sc; apply in_map_iff; eauto).
    destruct (cmp_scored_not_gt _ _ _ (Hmin' _ Hy)) as [_ H2]. simpl in H2.
    apply H2. rewrite Hhs. exact Heq.
  - rewrite Hhs. reflexivity.
  - rewrite <- Hr. reflexivity.
Qed.

Ltac in_cases H := simpl in H; repeat destruct H as [<-|H]; try contradiction.

Lemma classifyText_spec_witness :
  fst (classifyText Cases.code_unit_compare (JStr "New lead from the web form")
         ["spam"; "lead"; "support"]) = "lead" /\
  In (fst (classifyText Cases.code_unit_compare (JStr "New lead from the web form")
             ["spam"; "lead"; "support"])) ["spam"; "lead"; "support"].
Proof.
  split; [vm_compute; reflexivity|].
  refine (proj1 (classifyText_spec Cases.code_unit_compare
                   (JStr "New lead from the web form") ["spam"; "lead"; "support"] _ _ _)).
  - discriminate.
  - intros a b Ha Hb; in_cases Ha; in_cases Hb; vm_compute; reflexivity.
  - intros a b c Ha Hb Hc; in_cases Ha; in_cases Hb; in_cases Hc;
      vm_compute; intros; congruence.
Defined.

End ClassifyProofs.

(* ------------------------------------------------------------------ *)
(** ** Classify and condition nodes in both engines *)

Module NodeProofs.
Import JsStr JsNum JsVal Expr Doc Common Loop.

Lemma classifyText_nil (lc : string -> string -> comparison) (input : jval) :
  classifyText lc input [] = ("general", 67 # 100).
Proof. reflexivity. Qed.

Ltac reduce_types :=
  cbv beta iota zeta delta [String.eqb Ascii.eqb Bool.eqb].

Lemma assign_other (k : string) (v : jval) (fs : list (string * jval)) :
  k <> "__proto__" -> assign k v fs = obj_set k v fs.
Proof.
  intros Hk. unfold assign. destruct (String.eqb_spec k "__proto__"); [contradiction|reflexivity].
Qed.

(** C10 (corrected): a classify node whose [labels] setting holds no
    string (empty, missing or not an array), and whose output and
    confidence keys are not [__proto__], writes the label [general] under
    its output key and the confidence 0.67 under its confidence key, and
    selects no port, in the simulator and in the live engine, whatever the
    input; the live engine does so for every model and database without
    calling the model or writing anything. The keys are the configured ones
    (or [label] and [confidence]) converted to strings, and the input path
    is one the node can resolve ([input_of] does not throw). *)
Theorem classify_without_labels_is_general (lc : string -> string -> comparison)
  (n : node) (c : ctx) (ok ck : string)
  (Htype : node_type n = "ai.classify")
  (Hlabels : string_labels (cfg n "labels") = [])
  (Hin : input_of n c <> None)
  (Hok : cfg_key n "output_key" "label" = Some ok)
  (Hck : cfg_key n "confidence_key" "confidence" = Some ck)
  (Hok_own : ok <> "__proto__")
  (Hck_own : ck <> "__proto__") :
  let out := obj_set ck (JNum (NFin (67 # 100))) (obj_set ok (JStr "general") c) in
  Sim.sim_exec lc tt c n = (tt, inr (out, None)) /\
  forall JSON_parse live user_id workflow_id ai_reply db_reply (l : list Live.effect),
    Live.live_exec lc JSON_parse live user_id workflow_id ai_reply db_reply c n l
    = (l, inr (out, None)).
Proof.
  intro out.
  destruct (input_of n c) as [input|] eqn:Ei; [|congruence].
  split.
  - unfold Sim.sim_exec, Sim.runNode, Sim.is_type. rewrite Htype. reduce_types.
    rewrite Ei, Hlabels, classifyText_nil. unfold Sim.set_key. rewrite Hok, Hck.
    simpl. rewrite !assign_other by assumption. reflexivity.
  - intros JSON_parse live user_id workflow_id ai_reply db_reply l.
    unfold Live.live_exec, Live.is_type. rewrite Htype. reduce_types.
    rewrite Hlabels.
    unfold Live.bind, Live.lift, Live.ret. rewrite Ei.
    destruct live; unfold Live.classifyTextLive, Live.set_key, Live.bind, Live.lift, Live.ret;
      rewrite classifyText_nil, Hok, Hck; reflexivity.
Qed.

Lemma classify_without_labels_is_general_witness :
  Sim.sim_exec Cases.code_unit_compare tt [("input", JStr "Invoice overdue")]
    (Cases.classify_node [])
  = (tt, inr (obj_set "confidence" (JNum (NFin (67 # 100)))
               (obj_set "label" (JStr "general") [("input", JStr "Invoice overdue")]), None)).
Proof.
  refine (proj1 (classify_without_labels_is_general Cases.code_unit_compare
                   (Cases.classify_node []) [("input", JStr "Invoice overdue")]
                   "label" "confidence" _ _ _ _ _ _ _)).
  - reflexivity.
  - reflexivity.
  - vm_compute. discriminate.
  - reflexivity.
  - reflexivity.
  - discriminate.
  - discriminate.
Defined.

Lemma find_some_split {A} (f : A -> bool) (l : list A) (x : A) :
  find f l = Some x ->
  exists pre post, l = (pre ++ x :: post)%list /\ f x = true /\ Forall (fun y => f y = false) pre.
Proof.
  induction l as [|y r IH]; simpl; [discriminate|].
  destruct (f y) eqn:Ef.
  - intros [= <-]. exists [], r. auto.
  - intros H. destruct (IH H) as (pre & post & -> & Hx & Hpre).
    exists (y :: pre), post. auto.
Qed.

Lemma find_none_all {A} (f : A -> bool) (l : list A) :
  find f l = None -> Forall (fun y => f y = false) l.
Proof.
  induction l as [|y r IH]; simpl; [auto|].
  destruct (f y) eqn:Ef; [discriminate|]. auto.
Qed.

Lemma non_default_false (dflt : option string) (id : string) :
  match dflt with Some d => negb (String.eqb id d) | None => true end = false <-> dflt = Some id.
Proof.
  destruct dflt as [d|]; [|split; discriminate].
  destruct (String.eqb_spec id d); simpl; split; congruence.
Qed.

(** C9: a condition node whose [expression] setting converts to a string
    [expression], evaluated to [b] on the node's incoming context [c],
    leaves the context unchanged and selects the same port [sel] in the
    simulator and in the live engine (for every model, database and
    effect log, with no effect). With [dflt] the [default_output] setting
    when it is a string: when [b] is false and [dflt] is a string, [sel]
    is [dflt]; when [b] is true, or [dflt] is not a string, [sel] is the
    first declared output whose id differs from [dflt], and the first
    declared output (none if there is no output) when every id equals
    [dflt]. *)
Theorem condition_selects_port (lc : string -> string -> comparison)
  (n : node) (c : ctx) (expression : string) (b : bool)
  (Htype : node_type n = "logic.condition")
  (Hexpr : JsVal.to_string (nullish_or (cfg n "expression") (JStr "")) = Some expression)
  (Heval : evaluateConditionExpression (JObj c) expression = Some b) :
  let dflt := match cfg n "default_output" with JStr s => Some s | _ => None end in
  let ids := map port_id (outputs n) in
  exists sel : option string,
    Sim.sim_exec lc tt c n = (tt, inr (c, sel)) /\
    (forall JSON_parse live user_id workflow_id ai_reply db_reply (l : list Live.effect),
       Live.live_exec lc JSON_parse live user_id workflow_id ai_reply db_reply c n l
       = (l, inr (c, sel))) /\
    (b = false -> forall d, dflt = Some d -> sel = Some d) /\
    (b = true \/ dflt = None ->
     (exists pre id post, ids = (pre ++ id :: post)%list /\ dflt <> Some id /\
                          Forall (fun p => dflt = Some p) pre /\ sel = Some id) \/
     (Forall (fun p => dflt = Some p) ids /\ sel = hd_error ids)).
Proof.
  intros dflt ids.
  destruct (selectConditionOutput n c) as [sel|] eqn:Esel.
  2:{ exfalso. unfold selectConditionOutput in Esel. rewrite Hexpr, Heval in Esel.
      destruct b; discriminate. }
  exists sel. split; [|split; [|split]].
  - unfold Sim.sim_exec, Sim.runNode, Sim.is_type. rewrite Htype. reduce_types.
    rewrite Esel. reflexivity.
  - intros JSON_parse live user_id workflow_id ai_reply db_reply l.
    unfold Live.live_exec, Live.is_type. rewrite Htype. reduce_types.
    unfold Live.bind, Live.lift, Live.ret. rewrite Esel. reflexivity.
  - intros -> d Hd. unfold selectConditionOutput in Esel. rewrite Hexpr, Heval in Esel.
    fold dflt in Esel. rewrite Hd in Esel. congruence.
  - intros Hb. unfold selectConditionOutput in Esel. rewrite Hexpr, Heval in Esel.
    fold dflt ids in Esel.
    assert (Hsel : sel = match find (fun id => match dflt with
                                                | Some d => negb (String.eqb id d)
                                                | None => true end) ids with
                         | Some id => Some id
                         | None => hd_error ids
                         end).
    { destruct b; [congruence|]. destruct Hb as [Hb|Hb]; [discriminate|].
      rewrite Hb in Esel |- *. congruence. }
    destruct (find _ ids) as [id|] eqn:Ef.
    + left. destruct (find_some_split _ _ _ Ef) as (pre & post & Hids & Hid & Hpre).
      exists pre, id, post. split; [exact Hids|]. split.
      * intro Hd. apply non_default_false in Hd. congruence.
      * split; [|exact Hsel].
        eapply Forall_impl; [|exact Hpre]. intros y Hy. apply non_default_false. exact Hy.
    + right. split; [|exact Hsel].
      eapply Forall_impl; [|exact (find_none_all _ _ Ef)].
      intros y Hy. apply non_default_false. exact Hy.
Qed.

Lemma condition_selects_port_witness :
  Sim.sim_exec Cases.code_unit_compare tt (Cases.score_ctx (9 # 10))
    (Cases.condition_node [("expression", JStr "$.score > 0.8"); ("default_output", JStr "false")])
  = (tt, inr (Cases.score_ctx (9 # 10), Some "true")) /\
  Sim.sim_exec Cases.code_unit_compare tt (Cases.score_ctx (1 # 10))
    (Cases.condition_node [("expression", JStr "$.score > 0.8"); ("default_output", JStr "false")])
  = (tt, inr (Cases.score_ctx (1 # 10), Some "false")) /\
  exists sel : option string,
    Sim.sim_exec Cases.code_unit_compare tt (Cases.score_ctx (9 # 10))
      (Cases.condition_node [("expression", JStr "$.score > 0.8"); ("default_output", JStr "false")])
    = (tt, inr (Cases.score_ctx (9 # 10), sel)).
Proof.
  split; [vm_compute; reflexivity|]. split; [vm_compute; reflexivity|].
  destruct (condition_selects_port Cases.code_unit_compare
              (Cases.condition_node [("expression", JStr "$.score > 0.8");
                                     ("default_output", JStr "false")])
              (Cases.score_ctx (9 # 10)) "$.score > 0.8" true
              eq_refl eq_refl ltac:(vm_compute; reflexivity)) as [sel [Hs _]].
  exists sel. exact Hs.
Defined.

End NodeProofs.

(* ------------------------------------------------------------------ *)
(** ** Fail-fast runs *)

Module RunProofs.
Import JsStr JsVal Doc Topo Common Loop.

Section Generic.
Context {E : Type}.
Variable exec : E -> ctx -> node -> E * outcome.
Variable d : workflow_doc.

(** The loop either succeeds with successful steps only, or stops at a
    node [n] of [ordered] whose step, the last one, is the only failed
    one; the nodes after [n] play no part in the result. *)
Lemma run_loop_fail_fast (ordered : list node) :
  forall active e c steps,
  Forall (fun s => s_success s = true) steps ->
  let r := run_loop exec d ordered active e c steps in
  (lr_status r = RSuccess /\ Forall (fun s => s_success s = true) (lr_steps r)) \/
  (exists msg pre n post ok f,
     lr_status r = RFailed msg /\ ordered = (pre ++ n :: post)%list /\
     lr_steps r = (ok ++ [f])%list /\ Forall (fun s => s_success s = true) ok /\
     s_success f = false /\ s_node_id f = node_id n /\ s_error f = Some msg /\
     forall post', run_loop exec d (pre ++ n :: post') active e c steps = r).
Proof.
  induction ordered as [|x rest IH]; intros active e c steps Hs r.
  - left. subst r. simpl. auto.
  - subst r. simpl.
    destruct (mem (node_id x) active) eqn:Ea.
    + destruct (exec e c x) as [e' [msg|[out sel]]] eqn:Ex.
      * right. exists msg, [], x, rest, steps, (failed_step x c msg).
        simpl. repeat split; auto.
        intro post'. simpl. rewrite Ea, Ex. reflexivity.
      * set (next := map (fun y => ep_node_id (target y)) (followed d x sel)).
        assert (Hs' : Forall (fun s => s_success s = true)
                        (steps ++ [success_step x c out sel next])%list).
        { apply Forall_app. split; [exact Hs|]. constructor; [reflexivity|constructor]. }
        destruct (IH (active ++ next)%list e' out _ Hs') as [Hok|Hfail]; [left; exact Hok|].
        right. destruct Hfail as (msg & pre & n & post & ok & f & H1 & H2 & H3 & H4 & H5 & H6 & H7 & H8).
        exists msg, (x :: pre), n, post, ok, f. subst rest.
        repeat split; auto.
        intro post'. simpl. rewrite Ea, Ex. apply H8.
    + destruct (IH active e c steps Hs) as [Hok|Hfail]; [left; exact Hok|].
      right. destruct Hfail as (msg & pre & n & post & ok & f & H1 & H2 & H3 & H4 & H5 & H6 & H7 & H8).
      exists msg, (x :: pre), n, post, ok, f. subst rest.
      repeat split; auto.
      intro post'. simpl. rewrite Ea. apply H8.
Qed.
End Generic.

(** C3: in every run of either engine on a document whose nodes [topo]
    orders completely, the steps are all successful and the status is
    success, or the status is failed with the message of the only failed
    step, which is the last one, taken at a node [n] of the order; the
    nodes after [n] are never executed: replacing them by any others gives
    the same steps, context and effects. The simulator returns exactly the
    loop's status and steps; the live engine performs the loop's effects,
    then inserts into [runs] a row with the same status and steps, and a
    failed run answers with code 500. *)
Theorem fail_fast_runs (lc : string -> string -> comparison) (d : workflow_doc) (input : jval)
  (Hdag : length (topo d) = length (nodes (workflow_of d))) :
  let initialInput := nullish_or input (trigger_input d) in
  let c0 := [("input", clone initialInput)] in
  let active0 := [entry_node_id (workflow_of d)] in
  (forall (E : Type) (exec : E -> ctx -> node -> E * outcome) (e0 : E),
     let r := run_loop exec d (topo d) active0 e0 c0 [] in
     (lr_status r = RSuccess /\ Forall (fun s => s_success s = true) (lr_steps r)) \/
     (exists msg pre n post ok f,
        lr_status r = RFailed msg /\ topo d = (pre ++ n :: post)%list /\
        lr_steps r = (ok ++ [f])%list /\ Forall (fun s => s_success s = true) ok /\
        s_success f = false /\ s_node_id f = node_id n /\ s_error f = Some msg /\
        forall post', run_loop exec d (pre ++ n :: post') active0 e0 c0 [] = r)) /\
  (let r := run_loop (Sim.sim_exec lc) d (topo d) active0 tt c0 [] in
   Sim.status (Sim.simulateWorkflow lc d input) = lr_status r /\
   Sim.steps (Sim.simulateWorkflow lc d input) = lr_steps r) /\
  (forall JSON_parse live user_id workflow_id ai_reply db_reply,
     let r := run_loop (Live.live_step lc JSON_parse live user_id workflow_id ai_reply db_reply)
                d (topo d) active0 [] c0 [] in
     let status := match lr_status r with RSuccess => "success" | RFailed _ => "failed" end in
     let res := Live.run_live lc JSON_parse live user_id workflow_id ai_reply db_reply d input in
     fst res = (lr_state r ++ [Live.DbInsert "runs"
                                (Live.run_row user_id workflow_id status (lr_steps r)
                                   initialInput (lr_ctx r))])%list /\
     (forall msg, lr_status r = RFailed msg -> Live.code (snd res) = 500)).
Proof.
  intros initialInput c0 active0.
  assert (Hn : (length (topo d) =? length (nodes (workflow_of d))) = true)
    by (apply Nat.eqb_eq; exact Hdag).
  split; [|split].
  - intros E exec e0. apply run_loop_fail_fast. constructor.
  - unfold Sim.simulateWorkflow. rewrite Hn. simpl. auto.
  - intros JSON_parse live user_id workflow_id ai_reply db_reply r status res.
    unfold res, Live.run_live. rewrite Hn. cbv zeta. fold initialInput c0 active0. fold r.
    unfold status. destruct (lr_status r) as [|msg]; simpl; split; auto; try discriminate.
Qed.

Lemma fail_fast_runs_witness :
  Sim.status (Sim.simulateWorkflow Cases.code_unit_compare Fixtures.baseDoc JUndef)
  = lr_status (run_loop (Sim.sim_exec Cases.code_unit_compare) Fixtures.baseDoc
                 (topo Fixtures.baseDoc) [entry_node_id (workflow_of Fixtures.baseDoc)] tt
                 [("input", clone (nullish_or JUndef (trigger_input Fixtures.baseDoc)))] []).
Proof.
  exact (proj1 (proj1 (proj2 (fail_fast_runs Cases.code_unit_compare Fixtures.baseDoc JUndef
                                ltac:(vm_compute; reflexivity))))).
Defined.

End RunProofs.

(* ------------------------------------------------------------------ *)
(** ** The table of a live [db_save] node *)

Module DbSaveProofs.
Import JsStr JsVal Doc Topo Common Loop Live.

(** The loop over [pre ++ post] runs [post] from where [pre] stopped, when
    [pre] succeeded. *)
Lemma run_loop_app {E : Type} (exec : E -> ctx -> node -> E * outcome) (d : workflow_doc)
  (pre post : list node) :
  forall active e c steps,
  run_loop exec d (pre ++ post) active e c steps =
  let r := run_loop exec d pre active e c steps in
  match lr_status r with
  | RSuccess => run_loop exec d post (lr_active r) (lr_state r) (lr_ctx r) (lr_steps r)
  | RFailed _ => r
  end.
Proof.
  induction pre as [|x rest IH]; intros active e c steps; [reflexivity|].
  simpl. destruct (mem (node_id x) active); [|apply IH].
  destruct (exec e c x) as [e' [msg|[out sel]]]; [reflexivity|apply IH].
Qed.

Lemma live_step_db_save (lc : string -> string -> comparison) JSON_parse live user_id workflow_id
  ai_reply db_reply (n : node) (l : list effect) (c : ctx) :
  node_type n = "output.db_save" ->
  live_step lc JSON_parse live user_id workflow_id ai_reply db_reply l c n =
  (fun '(l', r) => (l', match r with
                        | inl m => inl m
                        | inr out => inr (out, None)
                        end))
    (live_db_save user_id workflow_id db_reply n c l).
Proof.
  intro Htype. unfold live_step, live_exec, is_type. rewrite Htype. NodeProofs.reduce_types.
  unfold bind at 1. destruct (live_db_save user_id workflow_id db_reply n c l) as [l' [m|out]];
    reflexivity.
Qed.

(** C8: in the live engine, a [db_save] node whose [table] setting is a
    string [t] whose trimmed form is neither empty nor [va_items] throws
    [db_save unsupported table: ] followed by the trimmed name, with no
    effect (no insert), for every context and effect log; on a document
    that [topo] orders completely, a run that reaches such a node (the
    nodes before it succeed and make it active) ends failed: after the
    effects of the nodes before it, the only further effect is the insert
    into [runs] of a row with status [failed] whose last step is this
    node's failed step with that message, and the answer has code 500.
    A [table] setting that is missing, not a string, or blank makes the
    node insert into [va_items] (the node then fails only if the database
    returns an error). *)
Theorem db_save_rejects_other_tables (lc : string -> string -> comparison) JSON_parse live
  user_id workflow_id ai_reply db_reply (n : node) :
  node_type n = "output.db_save" ->
  (forall t, cfg n "table" = JStr t -> trim t <> "" -> trim t <> "va_items" ->
   let msg := "db_save unsupported table: " ++ trim t in
   (forall l c, live_step lc JSON_parse live user_id workflow_id ai_reply db_reply l c n
                = (l, inl msg)) /\
   (forall d input pre post,
      length (topo d) = length (nodes (workflow_of d)) ->
      topo d = (pre ++ n :: post)%list ->
      let initialInput := nullish_or input (trigger_input d) in
      let r0 := run_loop (live_step lc JSON_parse live user_id workflow_id ai_reply db_reply) d
                  pre [entry_node_id (workflow_of d)] [] [("input", clone initialInput)] [] in
      lr_status r0 = RSuccess -> mem (node_id n) (lr_active r0) = true ->
      let res := run_live lc JSON_parse live user_id workflow_id ai_reply db_reply d input in
      fst res = (lr_state r0 ++
                 [DbInsert "runs" (run_row user_id workflow_id "failed"
                                     (lr_steps r0 ++ [failed_step n (lr_ctx r0) msg])
                                     initialInput (lr_ctx r0))])%list /\
      code (snd res) = 500)) /\
  ((match cfg n "table" with JStr s => trim s = "" | _ => True end) ->
   forall l c, exists row,
     fst (live_step lc JSON_parse live user_id workflow_id ai_reply db_reply l c n)
     = (l ++ [DbInsert "va_items" row])%list /\
     (forall m, snd (live_step lc JSON_parse live user_id workflow_id ai_reply db_reply l c n)
                = inl m -> exists m', db_reply l "va_items" row = inl m')).
Proof.
  intro Htype. split.
  - intros t Ht Hne Hva msg.
    assert (Hstep : forall l c, live_step lc JSON_parse live user_id workflow_id ai_reply db_reply
                                   l c n = (l, inl msg)).
    { intros l c. rewrite live_step_db_save by exact Htype.
      unfold live_db_save, tableName. rewrite Ht.
      apply String.eqb_neq in Hne, Hva. rewrite Hne, Hva. reflexivity. }
    split; [exact Hstep|].
    intros d input pre post Hdag Htopo initialInput r0 Hok Hact res.
    assert (Hn : (length (topo d) =? length (nodes (workflow_of d))) = true)
      by (apply Nat.eqb_eq; exact Hdag).
    unfold res, run_live. rewrite Hn. cbv zeta. fold initialInput.
    rewrite Htopo, run_loop_app. cbv zeta. fold r0. rewrite Hok.
    simpl. rewrite Hact, Hstep. simpl. split; reflexivity.
  - intros Hdef l c.
    rewrite live_step_db_save by exact Htype.
    assert (Htab : tableName n = "va_items").
    { unfold tableName. destruct (cfg n "table"); try reflexivity.
      rewrite Hdef. reflexivity. }
    unfold live_db_save. rewrite Htab. cbv zeta. rewrite String.eqb_refl.
    unfold bind, insert. cbv beta iota delta [negb].
    match goal with |- context [db_reply ?a ?b ?r] => destruct (db_reply a b r) as [m'|id] eqn:Edb end;
      cbv beta iota delta [fst snd throw ret]; eexists; (split; [reflexivity|]).
    + intros m _. exists m'. exact Edb.
    + discriminate.
Qed.

Lemma db_save_rejects_other_tables_witness :
  code (snd (run_live Cases.code_unit_compare Json.parse true "user-1" "wf-1"
               (Cases.ai_const "") Cases.db_accept (Cases.db_doc "definitely_missing_table")
               JUndef)) = 500.
Proof.
  destruct (db_save_rejects_other_tables Cases.code_unit_compare Json.parse true "user-1" "wf-1"
              (Cases.ai_const "") Cases.db_accept (Cases.db_save_node "definitely_missing_table")
              eq_refl) as [Hbad _].
  destruct (Hbad "definitely_missing_table" eq_refl ltac:(vm_compute; discriminate)
              ltac:(vm_compute; discriminate)) as [_ Hrun].
  exact (proj2 (Hrun (Cases.db_doc "definitely_missing_table") JUndef [Fixtures.n1] []
                  ltac:(vm_compute; reflexivity) ltac:(vm_compute; reflexivity)
                  ltac:(vm_compute; reflexivity) ltac:(vm_compute; reflexivity))).
Defined.

End DbSaveProofs.

(* ------------------------------------------------------------------ *)
(** ** The live classifier *)

Module LiveClassifyProofs.
Import JsStr JsNum JsVal Doc Common Live.

Lemma clamp01_bounds (q : Q) : (0 <= clamp01 q <= 1)%Q.
Proof.
  unfold clamp01, Qlt_bool.
  destruct (Qle_bool q 1) eqn:E1; simpl.
  - apply Qle_bool_iff in E1.
    destruct (Qle_bool 0 q) eqn:E0; simpl.
    + apply Qle_bool_iff in E0. split; assumption.
    + split; [apply Qle_refl|]. discriminate.
  - split; [discriminate|apply Qle_refl].
Qed.

Lemma mem_In (k : string) (l : list string) : mem k l = true <-> In k l.
Proof.
  unfold mem. rewrite existsb_exists. split.
  - intros [x [Hx Heq]]. apply String.eqb_eq in Heq. subst. exact Hx.
  - intros H. exists k. split; [exact H|apply String.eqb_refl].
Qed.

Lemma coerce_is_to_number (v : jval) :
  match v with JNum x => Some x | v => to_number v end = to_number v.
Proof. destruct v; reflexivity. Qed.

(** C7: let the model answer every call with a non-empty text [raw], and
    let the label list be non-empty. The label read from an object
    extracted from the answer is the trimmed string under [label] (the
    empty string when that field is not a string); its confidence is
    [Number] of the field under [confidence]. A result of the live
    classifier is either the simulated classifier's result on the same
    input and labels, or the read label, a member of the list, with a
    finite confidence clamped into [0,1]. It is the simulated result when
    no object can be extracted, and when one can, its confidence converts,
    and the label is not in the list or the confidence is not finite. The
    classifier throws only when an object is extracted whose confidence
    field cannot be converted to a number (a TypeError, raised before the
    label is checked). *)
Theorem classify_live_accepts_or_falls_back (lc : string -> string -> comparison)
  (JSON_parse : string -> option jval) (ai_reply : list effect -> string -> string -> string + string)
  (input : jval) (labels : list string) (n : node) (raw : string) (l : list effect)
  (Hne : labels <> [])
  (Hraw : raw <> "")
  (Hai : forall l' s p, ai_reply l' s p = inr raw) :
  let res := snd (classifyTextLive lc JSON_parse ai_reply input labels n l) in
  let fallback := classifyText lc input labels in
  let extracted := parseJsonObjectFromText JSON_parse (trim raw) in
  let label (parsed : list (string * jval)) :=
    match lookup "label" parsed with Some (JStr s) => trim s | _ => "" end in
  let confidence (parsed : list (string * jval)) :=
    to_number (match lookup "confidence" parsed with Some v => v | None => JUndef end) in
  (forall lab q, res = inr (lab, q) ->
     (lab, q) = fallback \/
     exists parsed c, extracted = Some parsed /\ lab = label parsed /\ In lab labels /\
                      confidence parsed = Some (NFin c) /\ q = clamp01 c /\ (0 <= q <= 1)%Q) /\
  (extracted = None -> res = inr fallback) /\
  (forall parsed x, extracted = Some parsed -> confidence parsed = Some x ->
     (~ In (label parsed) labels \/ forall c, x <> NFin c) -> res = inr fallback) /\
  (forall m, res = inl m ->
     m = type_error /\ exists parsed, extracted = Some parsed /\ confidence parsed = None).
Proof.
  intros res fallback extracted label confidence.
  assert (Hraw' : String.eqb raw "" = false) by (apply String.eqb_neq; exact Hraw).
  assert (Hres : res =
    match extracted with
    | None => inr fallback
    | Some parsed =>
      match confidence parsed with
      | None => inl type_error
      | Some x => if negb (mem (label parsed) labels) then inr fallback
                  else match x with NFin c => inr (label parsed, clamp01 c) | _ => inr fallback end
      end
    end).
  { unfold res, classifyTextLive. destruct labels as [|l0 ls]; [congruence|].
    unfold bind at 1, callOpenAIText. rewrite Hai, Hraw'. cbv beta iota.
    fold extracted. destruct extracted as [parsed|]; [|reflexivity].
    unfold bind, lift, confidence. rewrite coerce_is_to_number.
    destruct (to_number _) as [x|]; [|reflexivity].
    unfold ret. fold (label parsed). destruct (negb (mem (label parsed) (l0 :: ls))); [reflexivity|].
    destruct x; reflexivity. }
  split; [|split; [|split]].
  - intros lab q Hr. rewrite Hres in Hr.
    destruct extracted as [parsed|]; [|left; congruence].
    destruct (confidence parsed) as [x|] eqn:Ec; [|discriminate].
    destruct (mem (label parsed) labels) eqn:Em; simpl in Hr; [|left; congruence].
    destruct x as [c| |b]; try (left; congruence).
    right. injection Hr as <- <-. exists parsed, c.
    repeat split; auto using clamp01_bounds.
    + apply mem_In. exact Em.
    + apply clamp01_bounds.
    + apply clamp01_bounds.
  - intros He. rewrite Hres, He. reflexivity.
  - intros parsed x He Hc Hcase. rewrite Hres, He, Hc.
    destruct Hcase as [Hnot|Hnf].
    + destruct (mem (label parsed) labels) eqn:Em; [|reflexivity].
      exfalso. apply Hnot, mem_In, Em.
    + destruct (negb _); [reflexivity|]. destruct x as [c| |b]; [|reflexivity|reflexivity].
      exfalso. exact (Hnf c eq_refl).
  - intros m Hr. rewrite Hres in Hr.
    destruct extracted as [parsed|] eqn:He; [|discriminate].
    destruct (confidence parsed) as [x|] eqn:Ec.
    + destruct (negb _); [discriminate|]. destruct x; discriminate.
    + injection Hr as <-. split; [reflexivity|]. exists parsed. auto.
Qed.

Lemma classify_live_accepts_or_falls_back_witness :
  snd (classifyTextLive Cases.code_unit_compare Json.parse (Cases.ai_const Cases.padded_label_answer)
         (JStr "New lead") ["lead"; "spam"] (Cases.classify_node []) [])
  = inr ("lead", 5 # 10) /\
  (parseJsonObjectFromText Json.parse (trim Cases.padded_label_answer) = None ->
   snd (classifyTextLive Cases.code_unit_compare Json.parse (Cases.ai_const Cases.padded_label_answer)
          (JStr "New lead") ["lead"; "spam"] (Cases.classify_node []) [])
   = inr (classifyText Cases.code_unit_compare (JStr "New lead") ["lead"; "spam"])).
Proof.
  split; [vm_compute; reflexivity|].
  exact (proj1 (proj2 (classify_live_accepts_or_falls_back Cases.code_unit_compare Json.parse
                         (Cases.ai_const Cases.padded_label_answer) (JStr "New lead") ["lead"; "spam"]
                         (Cases.classify_node []) Cases.padded_label_answer []
                         ltac:(discriminate) ltac:(vm_compute; discriminate)
                         (fun _ _ _ => eq_refl)))).
Defined.

End LiveClassifyProofs.

(* ================================================================== *)
(** ** Tactics shared by the proofs below *)

Module ProofTactics.

(** Case on every innermost [match] scrutinee of the goal. *)
Ltac split_innermost :=
  repeat (match goal with
          | |- context [match ?x with _ => _ end] =>
            lazymatch x with
            | context [match _ with _ => _ end] => fail
            | _ => destruct x eqn:?
            end
          end; cbv beta iota).

End ProofTactics.

(* ================================================================== *)

Module SchemaProofs.
Import JsStr JsNum JsVal Expr Doc Schema Common Loop.
Import ProofTactics.

Lemma mem_true (k : string) (l : list string) : mem k l = true <-> In k l.
Proof.
  unfold mem. rewrite existsb_exists. split.
  - intros (x & Hx & E). apply String.eqb_eq in E. subst. exact Hx.
  - intros H. exists k. split; [exact H|apply String.eqb_refl].
Qed.

Lemma mem_false (k : string) (l : list string) : mem k l = false -> ~ In k l.
Proof. intros H Hin. apply mem_true in Hin. congruence. Qed.

Lemma validate_ok_parts (d d' : workflow_doc) :
  validateWorkflowDoc d = VOk d' -> d' = d /\ shape_issues d = [] /\ refine_issues d = [].
Proof.
  unfold validateWorkflowDoc, schema_issues.
  destruct (existsb i_abort (shape_issues d)) eqn:Ea.
  - destruct (shape_issues d); [discriminate|]. discriminate.
  - destruct (shape_issues d ++ refine_issues d)%list eqn:E; [|discriminate].
    intros [= <-]. apply app_eq_nil in E. tauto.
Qed.

Lemma if_nil {A} (b : bool) (x : A) (r : list A) :
  ((if b then [x] else []) ++ r)%list = [] -> b = false /\ r = [].
Proof. destruct b; [discriminate|]. simpl. auto. Qed.

(** The conditions [node_pass] checks on each node. *)
Lemma node_pass_nil (ns : list node) : forall seen,
  node_pass seen ns = [] ->
  NoDup (map node_id ns) /\
  forall n, In n ns ->
    ~ In (node_id n) seen /\
    (is_trigger n = true -> inputs n = []) /\
    (is_trigger n = false -> inputs n <> []) /\
    (node_type n = "logic.condition" ->
       2 <= length (outputs n) /\
       exists o, cfg n "default_output" = JStr o /\ In o (map port_id (outputs n))).
Proof.
  induction ns as [|n r IH]; intros seen H.
  - split; [constructor|intros ? []].
  - simpl in H. apply if_nil in H as [E1 H]. apply if_nil in H as [E2 H].
    apply if_nil in H as [E3 H].
    assert (Hcond : node_type n = "logic.condition" ->
              2 <= length (outputs n) /\
              exists o, cfg n "default_output" = JStr o /\ In o (map port_id (outputs n))).
    { intros Ht. rewrite Ht, String.eqb_refl in H.
      apply app_eq_nil in H as [H H'']. apply app_eq_nil in H as [E5 H].
      split; [destruct (length (outputs n) <? 2) eqn:E; [discriminate|apply Nat.ltb_ge; exact E]|].
      destruct (cfg n "default_output") as [| | | |o| | | |]; try discriminate.
      exists o. split; [reflexivity|].
      destruct (mem o (map port_id (outputs n))) eqn:E7; [apply mem_true; exact E7|discriminate]. }
    assert (Hrest : node_pass (node_id n :: seen) r = []).
    { destruct (String.eqb (node_type n) "logic.condition"); [|exact H].
      apply app_eq_nil in H. tauto. }
    destruct (IH _ Hrest) as [Hnd Hall]. split.
    + constructor; [|exact Hnd]. intros Hin. apply in_map_iff in Hin as (m & Hm & Hmin).
      apply (proj1 (Hall m Hmin)). left. symmetry. exact Hm.
    + intros m [<-|Hm].
      * split; [apply mem_false; exact E1|]. split; [|split; [|exact Hcond]].
        -- intros Ht. rewrite Ht in E2. simpl in E2.
           destruct (inputs n); [reflexivity|discriminate].
        -- intros Ht. rewrite Ht in E3. simpl in E3.
           destruct (inputs n); [discriminate|congruence].
      * destruct (Hall m Hm) as (Hs & Ht & Hnt & Hc).
        refine (conj _ (conj Ht (conj Hnt Hc))). intro Hin. apply Hs. right. exact Hin.
Qed.

Lemma find_node_some (ns : list node) (id : string) (n : node) :
  find_node ns id = Some n -> In n ns /\ node_id n = id.
Proof.
  unfold find_node. intros H. apply find_some in H as [Hin He].
  apply String.eqb_eq in He. auto.
Qed.

Lemma existsb_port (x : string) (ps : list port) :
  existsb (fun p => String.eqb (port_id p) x) ps = true -> In x (map port_id ps).
Proof.
  intros H. apply existsb_exists in H as (p & Hp & E). apply String.eqb_eq in E.
  apply in_map_iff. exists p. auto.
Qed.

(** The conditions [edge_pass] checks on each edge. *)
Lemma edge_pass_nil (ns : list node) (es : list edge) : forall seen,
  edge_pass ns seen es = [] ->
  NoDup (map edge_id es) /\
  forall e, In e es ->
    ~ In (edge_id e) seen /\
    (exists sn, In sn ns /\ node_id sn = ep_node_id (source e) /\
                In (ep_port_id (source e)) (map port_id (outputs sn))) /\
    (exists tn, In tn ns /\ node_id tn = ep_node_id (target e) /\
                In (ep_port_id (target e)) (map port_id (inputs tn))).
Proof.
  induction es as [|e r IH]; intros seen H.
  - split; [constructor|intros ? []].
  - simpl in H. apply if_nil in H as [E1 H].
    apply app_eq_nil in H as [Hs H]. apply app_eq_nil in H as [Ht H].
    assert (Hsrc : exists sn, In sn ns /\ node_id sn = ep_node_id (source e) /\
                     In (ep_port_id (source e)) (map port_id (outputs sn))).
    { destruct (find_node ns (ep_node_id (source e))) as [sn|] eqn:F; [|discriminate].
      apply find_node_some in F as [F1 F2]. exists sn. repeat split; auto.
      destruct (existsb _ (outputs sn)) eqn:Ex; [|discriminate]. apply existsb_port. exact Ex. }
    assert (Htgt : exists tn, In tn ns /\ node_id tn = ep_node_id (target e) /\
                     In (ep_port_id (target e)) (map port_id (inputs tn))).
    { destruct (find_node ns (ep_node_id (target e))) as [tn|] eqn:F; [|discriminate].
      apply find_node_some in F as [F1 F2]. exists tn. repeat split; auto.
      destruct (existsb _ (inputs tn)) eqn:Ex; [|discriminate]. apply existsb_port. exact Ex. }
    destruct (IH _ H) as [Hnd Hall]. split.
    + constructor; [|exact Hnd]. intros Hin. apply in_map_iff in Hin as (m & Hm & Hmin).
      apply (proj1 (Hall m Hmin)). left. symmetry. exact Hm.
    + intros m [<-|Hm].
      * split; [apply mem_false; exact E1|]. auto.
      * destruct (Hall m Hm) as (Hs' & Hr). split; [|exact Hr].
        intro Hin. apply Hs'. right. exact Hin.
Qed.

Lemma mapi_concat_nil {A B} (f : nat -> A -> list B) (l : list A) : forall i,
  concat (mapi f i l) = [] -> forall x, In x l -> exists j, f j x = [].
Proof.
  induction l as [|y r IH]; intros i H x Hx; [destruct Hx|].
  simpl in H. apply app_eq_nil in H as [H1 H2].
  destruct Hx as [<-|Hx]; [exists i; exact H1|]. exact (IH _ H2 x Hx).
Qed.

Lemma node_shape_nil (path : list string) (n : node) :
  node_shape_issues path n = [] ->
  In (node_type n) allowedNodeTypes /\ outputs n <> [].
Proof.
  unfold node_shape_issues. intros H.
  apply app_eq_nil in H as [_ H]. apply app_eq_nil in H as [Ht H].
  apply app_eq_nil in H as [_ H]. apply app_eq_nil in H as [_ H].
  apply app_eq_nil in H as [Ho _]. split.
  - destruct (mem (node_type n) allowedNodeTypes) eqn:E; [apply mem_true; exact E|discriminate].
  - destruct (outputs n); [discriminate|congruence].
Qed.

(** What the shape checks guarantee of an accepted document. *)
Lemma shape_nil (d : workflow_doc) :
  shape_issues d = [] ->
  schema_version d = "1.0" /\ nodes (workflow_of d) <> [] /\
  forall n, In n (nodes (workflow_of d)) ->
    In (node_type n) allowedNodeTypes /\ outputs n <> [].
Proof.
  unfold shape_issues. intros H.
  apply app_eq_nil in H as [Hv H].
  apply app_eq_nil in H as [_ H]. apply app_eq_nil in H as [_ H].
  apply app_eq_nil in H as [_ H]. apply app_eq_nil in H as [_ H].
  apply app_eq_nil in H as [Hn H]. apply app_eq_nil in H as [Hns _].
  split; [|split].
  - destruct (String.eqb_spec (schema_version d) "1.0"); [assumption|discriminate].
  - destruct (nodes (workflow_of d)); [discriminate|congruence].
  - intros n Hin. destruct (mapi_concat_nil _ _ 0 Hns n Hin) as [j Hj].
    exact (node_shape_nil _ _ Hj).
Qed.

(** What [superRefine] guarantees of an accepted document. *)
Lemma refine_nil (d : workflow_doc) :
  refine_issues d = [] ->
  (exists t, filter is_trigger (nodes (workflow_of d)) = [t] /\
             entry_node_id (workflow_of d) = node_id t) /\
  node_pass [] (nodes (workflow_of d)) = [] /\
  edge_pass (nodes (workflow_of d)) [] (edges (workflow_of d)) = [].
Proof.
  unfold refine_issues. intros H.
  apply app_eq_nil in H as [H1 H]. apply app_eq_nil in H as [H2 H].
  apply app_eq_nil in H as [H3 H4].
  split; [|split; assumption].
  destruct (filter is_trigger (nodes (workflow_of d))) as [|t [|t' r]] eqn:F;
    try discriminate.
  exists t. split; [reflexivity|].
  destruct (String.eqb_spec (entry_node_id (workflow_of d)) (node_id t)); [assumption|discriminate].
Qed.

(** X1: An accepted document: its node ids are pairwise distinct, and so are
    its edge ids. *)
Theorem accepted_ids_unique (d d' : workflow_doc)
  (Hok : validateWorkflowDoc d = VOk d') :
  NoDup (node_ids d') /\ NoDup (map edge_id (edges (workflow_of d'))).
Proof.
  destruct (validate_ok_parts d d' Hok) as (-> & _ & Hr).
  destruct (refine_nil d Hr) as (_ & Hn & He).
  split; [exact (proj1 (node_pass_nil _ [] Hn))|exact (proj1 (edge_pass_nil _ _ [] He))].
Qed.


(** X2: An accepted document: each edge leaves an existing node from one of
    its output ports and enters an existing node at one of its input
    ports. *)
Theorem accepted_edges_reference_ports (d d' : workflow_doc)
  (Hok : validateWorkflowDoc d = VOk d') :
  forall e, In e (edges (workflow_of d')) ->
    (exists sn, In sn (nodes (workflow_of d')) /\ node_id sn = ep_node_id (source e) /\
                In (ep_port_id (source e)) (map port_id (outputs sn))) /\
    (exists tn, In tn (nodes (workflow_of d')) /\ node_id tn = ep_node_id (target e) /\
                In (ep_port_id (target e)) (map port_id (inputs tn))).
Proof.
  destruct (validate_ok_parts d d' Hok) as (-> & _ & Hr).
  destruct (refine_nil d Hr) as (_ & _ & He).
  intros e Hin. exact (proj2 (proj2 (edge_pass_nil _ _ [] He) e Hin)).
Qed.

Lemma NoDup_map_inj {A B} (f : A -> B) (l : list A) (x y : A) :
  NoDup (map f l) -> In x l -> In y l -> f x = f y -> x = y.
Proof.
  induction l as [|z r IH]; intros Hnd Hx Hy Hf; [destruct Hx|].
  simpl in Hnd. inversion Hnd as [|? ? Hnin Hnd']; subst.
  destruct Hx as [<-|Hx], Hy as [<-|Hy]; auto.
  - exfalso. apply Hnin. rewrite Hf. apply in_map. exact Hy.
  - exfalso. apply Hnin. rewrite <- Hf. apply in_map. exact Hx.
Qed.

(** X3: An accepted document has exactly one trigger node; it has no inputs,
    [entry_node_id] names it, and it is the node both engines start
    from. *)
Theorem accepted_entry_is_trigger (d d' : workflow_doc)
  (Hok : validateWorkflowDoc d = VOk d') :
  exists t, filter is_trigger (nodes (workflow_of d')) = [t] /\
            entry_node_id (workflow_of d') = node_id t /\
            inputs t = [] /\ trigger d' = Some t.
Proof.
  destruct (validate_ok_parts d d' Hok) as (-> & _ & Hr).
  destruct (refine_nil d Hr) as ((t & Hf & He) & Hn & _).
  destruct (node_pass_nil _ [] Hn) as [Hnd Hall].
  assert (Ht : In t (nodes (workflow_of d)) /\ is_trigger t = true).
  { apply filter_In. rewrite Hf. left. reflexivity. }
  exists t. split; [exact Hf|]. split; [exact He|]. split.
  - apply (proj1 (proj2 (Hall t (proj1 Ht)))). exact (proj2 Ht).
  - unfold trigger. destruct (find _ _) as [x|] eqn:F.
    + apply find_some in F as [Fx Fe]. apply String.eqb_eq in Fe. f_equal.
      apply (NoDup_map_inj node_id (nodes (workflow_of d))); auto.
      * exact (proj1 Ht).
      * congruence.
    + exfalso. apply find_none with (x := t) in F; [|exact (proj1 Ht)].
      rewrite He, String.eqb_refl in F. discriminate.
Qed.

(** X4: An accepted document: every node has a known type and at least one
    output; a trigger node has no inputs and any other node at least
    one. *)
Theorem accepted_node_shapes (d d' : workflow_doc)
  (Hok : validateWorkflowDoc d = VOk d') :
  nodes (workflow_of d') <> [] /\
  forall n, In n (nodes (workflow_of d')) ->
    In (node_type n) allowedNodeTypes /\ outputs n <> [] /\
    (is_trigger n = true -> inputs n = []) /\ (is_trigger n = false -> inputs n <> []).
Proof.
  destruct (validate_ok_parts d d' Hok) as (-> & Hs & Hr).
  destruct (shape_nil d Hs) as (_ & Hne & Hsh).
  destruct (refine_nil d Hr) as (_ & Hn & _).
  destruct (node_pass_nil _ [] Hn) as [_ Hall].
  split; [exact Hne|]. intros n Hin.
  destruct (Hsh n Hin) as [H1 H2]. destruct (Hall n Hin) as (_ & H3 & H4 & _). auto.
Qed.

(** X5: An accepted document: a condition node has at least two outputs and a
    string [default_output] naming one of them, so whenever
    [selectConditionOutput] returns, it selects one of the node's own
    output ports. *)
Theorem accepted_condition_selects_own_port (d d' : workflow_doc)
  (Hok : validateWorkflowDoc d = VOk d') :
  forall n, In n (nodes (workflow_of d')) -> node_type n = "logic.condition" ->
    2 <= length (outputs n) /\
    (exists o, cfg n "default_output" = JStr o /\ In o (map port_id (outputs n))) /\
    forall c sel, selectConditionOutput n c = Some sel ->
      exists p, sel = Some p /\ In p (map port_id (outputs n)).
Proof.
  destruct (validate_ok_parts d d' Hok) as (-> & _ & Hr).
  destruct (refine_nil d Hr) as (_ & Hn & _).
  destruct (node_pass_nil _ [] Hn) as [_ Hall].
  intros n Hin Ht. destruct (Hall n Hin) as (_ & _ & _ & Hc).
  destruct (Hc Ht) as [H2 (o & Ho & Hoin)].
  split; [exact H2|]. split; [exists o; auto|].
  intros c sel. unfold selectConditionOutput. rewrite Ho.
  destruct (JsVal.to_string _) as [expr|]; [|discriminate].
  assert (Hnd : exists p, match find (fun id => negb (String.eqb id o)) (map port_id (outputs n)) with
                          | Some id => Some id | None => hd_error (map port_id (outputs n)) end = Some p
                          /\ In p (map port_id (outputs n))).
  { destruct (find _ _) as [id|] eqn:F.
    - exists id. split; [reflexivity|]. apply find_some in F. tauto.
    - destruct (outputs n) as [|p0 ps]; [simpl in H2; lia|].
      exists (port_id p0). split; [reflexivity|left; reflexivity]. }
  destruct Hnd as (p & Hp & Hpin).
  destruct (evaluateConditionExpression _ _) as [[|]|]; intros H; try discriminate;
    injection H as <-.
  - exists p. auto.
  - exists o. auto.
Qed.

End SchemaProofs.

(* ================================================================== *)

Module EditProofs.
Import JsStr JsNum JsVal Regex Doc Schema Semantic Invariants.
Import ProofTactics.

Lemma deepClone_parts (d : workflow_doc) :
  map node_frame (nodes (workflow_of (deepClone d))) = map node_frame (nodes (workflow_of d)) /\
  map node_name (nodes (workflow_of (deepClone d))) = map node_name (nodes (workflow_of d)) /\
  node_ids (deepClone d) = node_ids d /\
  edges (workflow_of (deepClone d)) = edges (workflow_of d) /\
  entry_node_id (workflow_of (deepClone d)) = entry_node_id (workflow_of d).
Proof.
  unfold deepClone, with_nodes_edges, node_ids. simpl.
  rewrite !map_map. simpl. repeat split; reflexivity.
Qed.

Lemma edges_closed_iff (d : workflow_doc) :
  edges_closed d = true <->
  forall e, In e (edges (workflow_of d)) ->
    In (ep_node_id (source e)) (node_ids d) /\ In (ep_node_id (target e)) (node_ids d).
Proof.
  unfold edges_closed. rewrite forallb_forall. split; intros H e He; specialize (H e He).
  - apply andb_prop in H as [H1 H2]. apply SchemaProofs.mem_true in H1, H2. auto.
  - apply andb_true_intro. split; apply SchemaProofs.mem_true; apply H.
Qed.

Lemma find_ref_in (d : workflow_doc) (r : string) (t : node) :
  find_ref d r = Some t -> In t (nodes (workflow_of d)).
Proof. unfold find_ref. intros H. apply find_some in H. tauto. Qed.

Lemma find_ref_id (d : workflow_doc) (r : string) (t : node) :
  find_ref (deepClone d) r = Some t -> In (node_id t) (node_ids d).
Proof.
  intros H. apply find_ref_in in H. rewrite <- (proj1 (proj2 (proj2 (deepClone_parts d)))).
  apply in_map. exact H.
Qed.

Lemma map_filter_comm {A B} (f : A -> B) (g : B -> bool) (l : list A) :
  map f (filter (fun x => g (f x)) l) = filter g (map f l).
Proof.
  induction l as [|x r IH]; simpl; [reflexivity|].
  destruct (g (f x)); simpl; rewrite IH; reflexivity.
Qed.

(** X6: [deleteNode] never removes the entry node: on success the removed id
    is a node id other than [entry_node_id], which is unchanged; no node
    with that id and no edge touching it remains, every other node and
    edge is kept in order, and a document whose edges all join existing
    nodes keeps that property. *)
Theorem delete_keeps_entry_and_edges (d d' : workflow_doc) (ref : string)
  (Hdel : deleteNode d ref = Some d') :
  exists id, In id (node_ids d) /\ id <> entry_node_id (workflow_of d) /\
    entry_node_id (workflow_of d') = entry_node_id (workflow_of d) /\
    node_ids d' = filter (fun i => negb (String.eqb i id)) (node_ids d) /\
    (forall e, In e (edges (workflow_of d')) <->
       In e (edges (workflow_of d)) /\ ep_node_id (source e) <> id /\
       ep_node_id (target e) <> id) /\
    (edges_closed d = true -> edges_closed d' = true).
Proof.
  destruct (deepClone_parts d) as (_ & _ & Hids & Hedges & Hentry).
  unfold deleteNode in Hdel.
  destruct (find_ref (deepClone d) ref) as [t|] eqn:Ft; [|discriminate].
  destruct (String.eqb_spec (node_id t) (entry_node_id (workflow_of (deepClone d)))) as [Heq|Hne];
    [discriminate|].
  injection Hdel as <-. set (d' := with_nodes_edges _ _ _).
  assert (Hnids : node_ids d' = filter (fun i => negb (String.eqb i (node_id t))) (node_ids d)).
  { unfold d', node_ids at 1, with_nodes_edges. cbn [workflow_of nodes].
    rewrite (map_filter_comm node_id (fun i => negb (String.eqb i (node_id t)))).
    rewrite map_map. reflexivity. }
  exists (node_id t). split; [exact (find_ref_id d ref t Ft)|].
  split; [rewrite <- Hentry; exact Hne|]. split; [exact Hentry|]. split; [exact Hnids|].
  assert (Hedge : forall e, In e (edges (workflow_of d')) <->
       In e (edges (workflow_of d)) /\ ep_node_id (source e) <> node_id t /\
       ep_node_id (target e) <> node_id t).
  { intros e. unfold d'. rewrite <- Hedges. unfold with_nodes_edges at 1. cbn [workflow_of edges]. rewrite filter_In.
    rewrite andb_true_iff, !negb_true_iff, !String.eqb_neq. tauto. }
  split; [exact Hedge|].
  rewrite !edges_closed_iff. intros Hc e He.
  apply Hedge in He as (He & Hs & Ht). destruct (Hc e He) as [Hs' Ht'].
  rewrite Hnids, !filter_In, !negb_true_iff, !String.eqb_neq. auto.
Qed.

Lemma deepClone_nodes (d : workflow_doc) :
  nodes (workflow_of (deepClone d)) = map clone_node (nodes (workflow_of d)).
Proof. reflexivity. Qed.

Lemma find_ref_frame (d : workflow_doc) (r : string) (t : node) :
  find_ref (deepClone d) r = Some t ->
  exists m, In m (nodes (workflow_of d)) /\ node_frame m = node_frame t.
Proof.
  intros H. apply find_ref_in in H. rewrite deepClone_nodes in H.
  apply in_map_iff in H as (m & <- & Hm). exists m. auto.
Qed.

Lemma nextEdgeId_deepClone (d : workflow_doc) : nextEdgeId (deepClone d) = nextEdgeId d.
Proof. reflexivity. Qed.

(** X7: [connectNodes] keeps the nodes (ids, types and ports) and appends
    exactly one edge, with id [nextEdgeId], from an output port of an
    existing node to an input port of an existing node; a document whose
    edges all join existing nodes keeps that property. *)
Theorem connect_appends_one_edge (d d' : workflow_doc) (a b : string)
  (Hcon : connectNodes d a b = Some d') :
  map node_frame (nodes (workflow_of d')) = map node_frame (nodes (workflow_of d)) /\
  entry_node_id (workflow_of d') = entry_node_id (workflow_of d) /\
  exists e, edges (workflow_of d') = (edges (workflow_of d) ++ [e])%list /\
    edge_id e = nextEdgeId d /\
    (exists sn, In sn (nodes (workflow_of d)) /\ node_id sn = ep_node_id (source e) /\
                In (ep_port_id (source e)) (map port_id (outputs sn))) /\
    (exists tn, In tn (nodes (workflow_of d)) /\ node_id tn = ep_node_id (target e) /\
                In (ep_port_id (target e)) (map port_id (inputs tn))) /\
    (edges_closed d = true -> edges_closed d' = true).
Proof.
  destruct (deepClone_parts d) as (Hfr & _ & Hids & Hedges & Hentry).
  unfold connectNodes in Hcon.
  destruct (find_ref (deepClone d) a) as [s|] eqn:Fs; [|discriminate].
  destruct (find_ref (deepClone d) b) as [t|] eqn:Ft; [|discriminate].
  destruct (outputs s) as [|sp sps] eqn:Es; [discriminate|].
  destruct (inputs t) as [|tp tps] eqn:Et; [discriminate|].
  injection Hcon as <-. set (d' := with_nodes_edges _ _ _).
  set (ne := new_edge (nextEdgeId (deepClone d)) s t sp tp).
  assert (Hed : edges (workflow_of d') = (edges (workflow_of d) ++ [ne])%list)
    by (rewrite <- Hedges; reflexivity).
  destruct (find_ref_frame d a s Fs) as (ms & Hms & Hfs).
  destruct (find_ref_frame d b t Ft) as (mt & Hmt & Hft).
  unfold node_frame in Hfs, Hft. injection Hfs as Hsid _ _ Hsout.
  injection Hft as Htid _ Htin _.
  split; [exact Hfr|]. split; [exact Hentry|].
  exists ne. split; [exact Hed|].
  split; [reflexivity|]. split; [|split].
  - exists ms. simpl. split; [exact Hms|]. split; [exact Hsid|].
    rewrite Hsout, Es. left. reflexivity.
  - exists mt. simpl. split; [exact Hmt|]. split; [exact Htid|].
    rewrite Htin, Et. left. reflexivity.
  - rewrite !edges_closed_iff. intros Hc e He.
    assert (Hn : node_ids d' = node_ids d) by exact Hids.
    rewrite Hn. rewrite Hed in He.
    apply in_app_or in He as [He|[<-|[]]]; [exact (Hc e He)|].
    simpl. rewrite <- Hsid, <- Htid. split; apply in_map; assumption.
Qed.

(** The local [upd] of [renameNode]: the first node matching [ref] gets
    the new name. *)
Lemma rename_upd (ref name : string) (l : list node) :
  find (matches_ref ref) l <> None ->
  let l' := (fix upd (l : list node) : list node :=
      match l with
      | [] => []
      | n :: r => if matches_ref ref n then
                    {| node_id := node_id n; node_type := node_type n; node_name := name;
                       position_x := position_x n; position_y := position_y n;
                       inputs := inputs n; outputs := outputs n; config := config n;
                       ui_icon := ui_icon n; ui_color := ui_color n |} :: r
                  else n :: upd r
      end) l in
  map node_frame l' = map node_frame l /\
  exists i n, nth_error l i = Some n /\ matches_ref ref n = true /\
    map node_name l' = (firstn i (map node_name l) ++ name :: skipn (S i) (map node_name l))%list.
Proof.
  induction l as [|x r IH]; simpl; [congruence|].
  destruct (matches_ref ref x) eqn:Em.
  - intros _. split; [reflexivity|]. exists 0, x. auto.
  - intros Hf. destruct (IH Hf) as (Hfr & i & n & Hn & Hm & Hnames).
    split; [simpl; f_equal; exact Hfr|].
    exists (S i), n. simpl. rewrite Hnames. auto.
Qed.

(** X8: [renameNode] changes node names only: ids, types, ports, edges and
    [entry_node_id] are kept, and exactly one name changes, that of the
    first node whose id or name equals the reference ignoring case, which
    becomes the new name. *)
Theorem rename_changes_only_names (d d' : workflow_doc) (ref name : string)
  (Hren : renameNode d ref name = Some d') :
  map node_frame (nodes (workflow_of d')) = map node_frame (nodes (workflow_of d)) /\
  edges (workflow_of d') = edges (workflow_of d) /\
  entry_node_id (workflow_of d') = entry_node_id (workflow_of d) /\
  exists i n, nth_error (nodes (workflow_of d)) i = Some n /\
    String.eqb (toLowerCase (node_id n)) (toLowerCase ref)
    || String.eqb (toLowerCase (node_name n)) (toLowerCase ref) = true /\
    map node_name (nodes (workflow_of d')) =
      (firstn i (map node_name (nodes (workflow_of d))) ++ name
         :: skipn (S i) (map node_name (nodes (workflow_of d))))%list.
Proof.
  destruct (deepClone_parts d) as (Hfr & Hnm & Hids & Hedges & Hentry).
  unfold renameNode in Hren.
  destruct (find_ref (deepClone d) ref) as [t|] eqn:Ft; [|discriminate].
  injection Hren as <-.
  assert (Hf : find (matches_ref ref) (nodes (workflow_of (deepClone d))) <> None).
  { unfold find_ref in Ft. rewrite Ft. discriminate. }
  destruct (rename_upd ref name _ Hf) as (Hfr' & i & n & Hn & Hm & Hnames).
  split; [rewrite <- Hfr; exact Hfr'|]. split; [exact Hedges|]. split; [exact Hentry|].
  rewrite deepClone_nodes in Hn. rewrite nth_error_map in Hn.
  destruct (nth_error (nodes (workflow_of d)) i) as [m|] eqn:Hmi; [|discriminate].
  injection Hn as <-. exists i, m. split; [exact Hmi|]. split; [exact Hm|].
  rewrite <- Hnm. exact Hnames.
Qed.

Lemma last_some_in {A} (l : list A) (x : A) : last (map Some l) None = Some x -> In x l.
Proof.
  induction l as [|y r IH]; simpl; [discriminate|].
  destruct r as [|z r']; simpl.
  - intros [= ->]. left. reflexivity.
  - intros H. right. apply IH. exact H.
Qed.

Lemma last_none_nil {A} (l : list A) : last (map Some l) None = None -> l = [].
Proof.
  induction l as [|y r IH]; simpl; [reflexivity|].
  destruct r as [|z r']; simpl; [discriminate|].
  intros H. specialize (IH H). discriminate.
Qed.

Lemma nextNodeId_deepClone (d : workflow_doc) : nextNodeId (deepClone d) = nextNodeId d.
Proof. unfold nextNodeId. rewrite deepClone_nodes, map_map. reflexivity. Qed.

Lemma add_source (d : workflow_doc) (src : node) :
  match terminalNodes (deepClone d) with
  | t :: _ => Some t
  | [] => last (map Some (nodes (workflow_of (deepClone d)))) None
  end = Some src ->
  exists m, In m (nodes (workflow_of d)) /\ node_frame m = node_frame src.
Proof.
  intros H. assert (Hin : In src (nodes (workflow_of (deepClone d)))).
  { destruct (terminalNodes (deepClone d)) as [|t r] eqn:Et.
    - apply last_some_in. exact H.
    - injection H as <-. unfold terminalNodes in Et.
      assert (Ht : In t (filter (fun n => negb (mem (node_id n)
                     (map (fun e => ep_node_id (source e)) (edges (workflow_of (deepClone d))))))
                     (nodes (workflow_of (deepClone d))))) by (rewrite Et; left; reflexivity).
      apply filter_In in Ht. tauto. }
  rewrite deepClone_nodes in Hin. apply in_map_iff in Hin as (m & <- & Hm). exists m. auto.
Qed.

(** X9: [addNodeAtEnd] throws exactly on a document without nodes. Otherwise it
    keeps every node (ids, types, ports) and [entry_node_id], appends one
    node of the requested type with id [nextNodeId], and either keeps the
    edges or appends one edge, with id [nextEdgeId], from an output port of
    an existing node to an input port of the new node. *)
Theorem add_node_appends_node (d : workflow_doc) (type : string) :
  (addNodeAtEnd d type = None <-> nodes (workflow_of d) = []) /\
  forall d', addNodeAtEnd d type = Some d' ->
    entry_node_id (workflow_of d') = entry_node_id (workflow_of d) /\
    exists nn, map node_frame (nodes (workflow_of d')) =
                 (map node_frame (nodes (workflow_of d)) ++ [node_frame nn])%list /\
      node_id nn = nextNodeId d /\ node_type nn = type /\
      (edges (workflow_of d') = edges (workflow_of d) \/
       exists e, edges (workflow_of d') = (edges (workflow_of d) ++ [e])%list /\
         edge_id e = nextEdgeId d /\ ep_node_id (target e) = nextNodeId d /\
         In (ep_port_id (target e)) (map port_id (inputs nn)) /\
         exists sn, In sn (nodes (workflow_of d)) /\ node_id sn = ep_node_id (source e) /\
                    In (ep_port_id (source e)) (map port_id (outputs sn))).
Proof.
  destruct (deepClone_parts d) as (Hfr & _ & Hids & Hedges & Hentry).
  unfold addNodeAtEnd. cbv zeta.
  destruct (match terminalNodes (deepClone d) with
            | t :: _ => Some t
            | [] => last (map Some (nodes (workflow_of (deepClone d)))) None
            end) as [src|] eqn:Es.
  - destruct (add_source d src Es) as (m & Hm & Hfm).
    assert (Hne : nodes (workflow_of d) <> []) by (intros E; rewrite E in Hm; destruct Hm).
    split.
    { split; [|intros E; contradiction]. intros H. exfalso. revert H.
      destruct (outputs src); [discriminate|].
      match goal with |- context [match ?x with _ => _ end] => destruct x; discriminate end. }
    intros d' Hd.
    set (nn := createNode type (nextNodeId (deepClone d)) (position_x src + 240) (position_y src)) in Hd.
    assert (Hnn : node_id nn = nextNodeId d /\ node_type nn = type).
    { rewrite <- nextNodeId_deepClone. unfold nn, createNode.
      repeat (destruct (String.eqb _ _); [split; reflexivity|]). split; reflexivity. }
    assert (Hnodes : map node_frame (map clone_node (nodes (workflow_of d)) ++ [nn])%list =
                     (map node_frame (nodes (workflow_of d)) ++ [node_frame nn])%list).
    { rewrite map_app, map_map. reflexivity. }
    destruct (outputs src) as [|sp sps] eqn:Eo; [|destruct (inputs nn) as [|tp tps] eqn:Ei].
    + injection Hd as <-. split; [exact Hentry|]. exists nn.
      split; [exact Hnodes|]. split; [apply Hnn|]. split; [apply Hnn|]. left. exact Hedges.
    + injection Hd as <-. split; [exact Hentry|]. exists nn.
      split; [exact Hnodes|]. split; [apply Hnn|]. split; [apply Hnn|]. left. exact Hedges.
    + injection Hd as <-. split; [exact Hentry|]. exists nn.
      split; [exact Hnodes|]. split; [apply Hnn|]. split; [apply Hnn|]. right.
      eexists. split; [rewrite <- Hedges; reflexivity|].
      split; [reflexivity|]. split; [simpl; rewrite (proj1 Hnn); reflexivity|].
      split; [simpl; rewrite Ei; left; reflexivity|].
      exists m. unfold node_frame in Hfm. injection Hfm as Hid _ _ Hout.
      split; [exact Hm|]. split; [exact Hid|]. simpl. rewrite Hout, Eo. left. reflexivity.
  - split; [|intros d' Hd; discriminate]. split; [intros _|intros _; reflexivity].
    destruct (terminalNodes (deepClone d)) as [|t r]; [|discriminate].
    apply last_none_nil in Es. rewrite deepClone_nodes in Es.
    destruct (nodes (workflow_of d)); [reflexivity|discriminate].
Qed.

Lemma add_node_none (d : workflow_doc) (type : string) :
  addNodeAtEnd d type = None -> nodes (workflow_of d) = [].
Proof.
  unfold addNodeAtEnd. cbv zeta.
  destruct (match terminalNodes (deepClone d) with
            | t :: _ => Some t
            | [] => last (map Some (nodes (workflow_of (deepClone d)))) None
            end) as [src|] eqn:Es.
  - destruct (outputs src); [discriminate|].
    match goal with |- context [match ?x with _ => _ end] => destruct x; discriminate end.
  - intros _. destruct (terminalNodes (deepClone d)) as [|t r]; [|discriminate].
    apply last_none_nil in Es. rewrite deepClone_nodes in Es.
    destruct (nodes (workflow_of d)); [reflexivity|discriminate].
Qed.

(** X10: [applySemanticCommand] throws only on a document without nodes (when
    a node is to be added). An edit it reports as applied ([ok] true)
    carries a document that [validateWorkflowDoc] accepts unchanged; a
    rejected edit carries no document. *)
Theorem edit_result_validated (d : workflow_doc) (cmd : string) :
  (applySemanticCommand d cmd = None -> nodes (workflow_of d) = []) /\
  forall r, applySemanticCommand d cmd = Some r ->
    (ok r = true -> exists d', result_workflow r = Some d' /\ validateWorkflowDoc d' = VOk d') /\
    (ok r = false -> result_workflow r = None).
Proof.
  unfold applySemanticCommand. cbv zeta.
  split_innermost.
  all: split; [intros Hn; try discriminate Hn; eapply add_node_none; eassumption|].
  all: intros res Hres;
    first [ discriminate Hres
          | injection Hres as <-; unfold reject; cbn [ok result_workflow];
            split; [intros Hok; try discriminate Hok|intros Hok; first [reflexivity|discriminate Hok]] ].
  all: eexists; split; [reflexivity|];
    match goal with
    | H : validateWorkflowDoc ?c = VOk ?x |- _ =>
      destruct (SchemaProofs.validate_ok_parts _ _ H) as (-> & _); exact H
    end.
Qed.
End EditProofs.

(* ================================================================== *)

Module EffectProofs.
Import JsStr JsNum JsVal Doc Topo Common Loop Live Invariants.
Import ProofTactics.

Section Combinators.
Variable P : effect -> Prop.

Lemma ap_ret {A} (a : A) : appends_only P (ret a).
Proof. intros l. exists []. rewrite app_nil_r. auto. Qed.

Lemma ap_throw {A} (m : string) : appends_only P (@throw A m).
Proof. intros l. exists []. rewrite app_nil_r. auto. Qed.

Lemma ap_lift {A} (o : option A) : appends_only P (lift o).
Proof. destruct o; [apply ap_ret|apply ap_throw]. Qed.

Lemma ap_bind {A B} (m : M A) (k : A -> M B) :
  appends_only P m -> (forall a, appends_only P (k a)) -> appends_only P (bind m k).
Proof.
  intros Hm Hk l. unfold bind. destruct (Hm l) as (l1 & E1 & F1).
  destruct (m l) as [l' [e|a]]; simpl in E1; subst l'.
  - exists l1. auto.
  - destruct (Hk a (l ++ l1)%list) as (l2 & E2 & F2). exists (l1 ++ l2)%list.
    rewrite E2, app_assoc. split; [reflexivity|]. apply Forall_app. auto.
Qed.

Lemma ap_fold_m {A B} (f : A -> B -> M A) (xs : list B) :
  (forall a x, appends_only P (f a x)) -> forall acc, appends_only P (fold_m f acc xs).
Proof.
  intros Hf. induction xs as [|x r IH]; intros acc; simpl; [apply ap_ret|].
  apply ap_bind; auto.
Qed.

Lemma ap_call ai_reply (s p : string) :
  P (AiCall s p) -> appends_only P (callOpenAIText ai_reply s p).
Proof. intros H l. exists [AiCall s p]. auto. Qed.

Lemma ap_insert db_reply (t : string) (row : jval) :
  P (DbInsert t row) -> appends_only P (insert db_reply t row).
Proof. intros H l. exists [DbInsert t row]. auto. Qed.

End Combinators.

Section Engine.
Variable lc : string -> string -> comparison.
Variable JSON_parse : string -> option jval.
Variable live : bool.
Variables user_id workflow_id : string.
Variable ai_reply : list effect -> string -> string -> string + string.
Variable db_reply : list effect -> string -> jval -> string + jval.

(** What a step may do: call the model (only in live mode) and insert
    rows of the user into [va_items] and [workflow_exports]. *)
Let step_effect (e : effect) : Prop :=
  match e with
  | AiCall _ _ => live = true
  | DbInsert t r => (t = "va_items" \/ t = "workflow_exports") /\ row_user r = Some (JStr user_id)
  end.

Lemma ap_live_exec (c : ctx) (n : node) :
  appends_only step_effect (live_exec lc JSON_parse live user_id workflow_id ai_reply db_reply c n).
Proof.
  unfold live_exec. cbv zeta.
  assert (Hset : forall n k dflt v out,
            appends_only step_effect (Live.set_key n k dflt v out)).
  { intros. unfold Live.set_key. apply ap_bind; [apply ap_lift|intros; apply ap_ret]. }
  apply ap_bind; [|intros out; destruct (Live.is_type n "logic.condition");
                   [apply ap_bind; [apply ap_lift|intros; apply ap_ret]|apply ap_ret]].
  destruct (Live.is_type n "ai.summarize").
  { apply ap_bind; [apply ap_lift|intros input]. apply ap_bind; [|intros; apply Hset].
    destruct live eqn:El; [|apply ap_ret]. unfold summarizeTextLive. apply ap_call. reflexivity. }
  destruct (Live.is_type n "ai.classify").
  { apply ap_bind; [apply ap_lift|intros input]. apply ap_bind; [|intros; apply ap_bind; [apply Hset|intros; apply Hset]].
    destruct live eqn:El; [|apply ap_ret]. unfold classifyTextLive.
    destruct (string_labels _); [apply ap_ret|].
    apply ap_bind; [apply ap_call; reflexivity|intros content].
    destruct (parseJsonObjectFromText _ _); [|apply ap_ret].
    apply ap_bind; [apply ap_lift|intros conf].
    destruct (negb _); [apply ap_ret|]. destruct conf; apply ap_ret. }
  destruct (Live.is_type n "ai.extract_fields").
  { apply ap_bind; [apply ap_lift|intros input]. apply ap_bind; [|intros; apply Hset].
    destruct live eqn:El; [|apply ap_lift]. unfold extractFieldsLive.
    destruct (fields_of n); [apply ap_ret|].
    apply ap_bind; [apply ap_lift|intros spec].
    apply ap_bind; [apply ap_call; reflexivity|intros content].
    destruct (parseJsonObjectFromText _ _); [|apply ap_lift].
    apply ap_bind; [|intros; apply ap_ret].
    apply ap_fold_m. intros a x. apply ap_bind; [apply ap_lift|intros; apply ap_ret]. }
  destruct (Live.is_type n "ai.generate_report").
  { apply ap_bind; [apply ap_lift|intros input]. apply ap_bind; [|intros; apply Hset].
    destruct live eqn:El; [|apply ap_lift]. unfold generateReportLive. apply ap_call. reflexivity. }
  destruct (Live.is_type n "logic.delay"); [apply ap_ret|].
  destruct (Live.is_type n "output.db_save").
  { unfold live_db_save. cbv zeta.
    destruct (String.eqb (tableName n) "va_items") eqn:Et; simpl negb; cbv iota; [|apply ap_throw].
    apply ap_bind; [|intros [m|id]; [apply ap_throw|apply ap_ret]].
    apply ap_insert. split; [left; apply String.eqb_eq; exact Et|reflexivity]. }
  destruct (Live.is_type n "output.export"); [|apply ap_ret].
  unfold live_export. apply ap_bind; [apply ap_lift|intros data].
  apply ap_bind; [apply ap_lift|intros content].
  apply ap_bind; [|intros [m|id]; [apply ap_throw|apply ap_ret]].
  apply ap_insert. split; [right; reflexivity|reflexivity].
Qed.

End Engine.

Lemma run_loop_appends (P : effect -> Prop)
  (exec : list effect -> ctx -> node -> list effect * outcome) (d : workflow_doc) :
  (forall l c n, exists l', fst (exec l c n) = (l ++ l')%list /\ Forall P l') ->
  forall ordered active l c steps,
    exists l', lr_state (run_loop exec d ordered active l c steps) = (l ++ l')%list /\ Forall P l'.
Proof.
  intros Hex ordered. induction ordered as [|n r IH]; intros active l c steps; simpl.
  - exists []. rewrite app_nil_r. auto.
  - destruct (mem (node_id n) active); [|apply IH].
    destruct (Hex l c n) as (l1 & E1 & F1).
    destruct (exec l c n) as [l' [msg|[out sel]]]; simpl in E1; subst l'.
    + exists l1. auto.
    + match goal with |- exists l', lr_state (run_loop exec d r ?a ?e ?c ?s) = _ /\ _ =>
        destruct (IH a e c s) as (l2 & E2 & F2) end.
      exists (l1 ++ l2)%list. rewrite E2, app_assoc. split; [reflexivity|]. apply Forall_app. auto.
Qed.

(** The effects of [run_live]: none when the DAG check fails; otherwise the
    steps' effects, then one insert into [runs]. *)
Lemma run_live_effects lc JSON_parse live user_id workflow_id ai_reply db_reply
  (d : workflow_doc) (input : jval) :
  let r := run_live lc JSON_parse live user_id workflow_id ai_reply db_reply d input in
  (length (topo d) <> length (nodes (workflow_of d)) /\ fst r = [] /\ code (snd r) = 422) \/
  (length (topo d) = length (nodes (workflow_of d)) /\
   exists l' row, fst r = (l' ++ [DbInsert "runs" row])%list /\ row_user row = Some (JStr user_id) /\
   Forall (fun e => match e with
                    | AiCall _ _ => live = true
                    | DbInsert t r => (t = "va_items" \/ t = "workflow_exports") /\
                                      row_user r = Some (JStr user_id)
                    end) l').
Proof.
  intros r. unfold r, run_live. clear r.
  destruct (Nat.eqb_spec (length (topo d)) (length (nodes (workflow_of d)))) as [Hd|Hd];
    simpl negb; cbv iota; [right|left; auto].
  split; [exact Hd|]. cbv zeta.
  destruct (run_loop_appends _ (live_step lc JSON_parse live user_id workflow_id ai_reply db_reply) d
              (fun l c n => ap_live_exec lc JSON_parse live user_id workflow_id ai_reply db_reply c n l)
              (topo d) [entry_node_id (workflow_of d)] []
              [("input", clone (nullish_or input (trigger_input d)))] []) as (l' & E & F).
  simpl in E. subst.
  destruct (lr_status _) as [|msg]; unfold insert; simpl;
    eexists _, _; (split; [reflexivity|]); (split; [reflexivity|exact F]).
Qed.

(** X11: Every row the live engine inserts belongs to the requesting user and
    goes to [va_items], [workflow_exports] or [runs]. A document that fails
    the DAG check gets the answer 422 and nothing is written; otherwise the
    run writes exactly one [runs] row, as its last effect. *)
Theorem run_live_writes_one_owned_run lc JSON_parse live user_id workflow_id ai_reply db_reply
  (d : workflow_doc) (input : jval) :
  let r := run_live lc JSON_parse live user_id workflow_id ai_reply db_reply d input in
  Forall (fun e => match e with
                   | AiCall _ _ => True
                   | DbInsert t row => In t ["va_items"; "workflow_exports"; "runs"] /\
                                       row_user row = Some (JStr user_id)
                   end) (fst r) /\
  ((length (topo d) <> length (nodes (workflow_of d)) /\ fst r = [] /\ code (snd r) = 422) \/
   (exists l' row, fst r = (l' ++ [DbInsert "runs" row])%list /\
                   Forall (fun e => forall row', e <> DbInsert "runs" row') l')).
Proof.
  intros r. destruct (run_live_effects lc JSON_parse live user_id workflow_id ai_reply db_reply d input)
    as [(Hd & E & C)|(Hd & l' & row & E & Hu & F)]; fold r in E.
  - split; [rewrite E; constructor|]. left. fold r in C. auto.
  - split.
    + rewrite E. apply Forall_app. split.
      * refine (Forall_impl _ _ F). intros [s p|t rw]; [trivial|].
        intros [[-> | ->] Hr]; split; auto; simpl; auto.
      * constructor; [|constructor]. split; [simpl; auto|exact Hu].
    + right. exists l', row. split; [exact E|].
      refine (Forall_impl _ _ F). intros [s p|t rw] Ht row' Heq; [discriminate|].
      injection Heq as -> ->. destruct Ht as [[H|H] _]; discriminate.
Qed.

(** X12: Unless [RUN_MODE] is [live], the live engine never calls the model:
    each of its effects is a row insert. *)
Theorem simulate_mode_never_calls_model lc JSON_parse user_id workflow_id ai_reply db_reply
  (d : workflow_doc) (input : jval) :
  Forall (fun e => exists t row, e = DbInsert t row)
    (fst (run_live lc JSON_parse false user_id workflow_id ai_reply db_reply d input)).
Proof.
  destruct (run_live_effects lc JSON_parse false user_id workflow_id ai_reply db_reply d input)
    as [(_ & E & _)|(_ & l' & row & E & _ & F)]; rewrite E; [constructor|].
  apply Forall_app. split; [|constructor; [eauto|constructor]].
  refine (Forall_impl _ _ F). intros [s p|t rw]; [discriminate|eauto].
Qed.

End EffectProofs.

(* ================================================================== *)

Module ObjProofs.
Import JsStr JsNum JsVal.
Import ProofTactics.

Lemma replace_key_keys (k : string) (v : jval) (fs : list (string * jval)) :
  keys (replace_key k v fs) = keys fs.
Proof.
  induction fs as [|[k' v'] r IH]; simpl; [reflexivity|].
  destruct (String.eqb k k'); simpl; [reflexivity|]. f_equal. exact IH.
Qed.

Lemma insert_index_keys (i : Z) (k : string) (v : jval) (fs : list (string * jval)) (x : string) :
  In x (keys (insert_index i k v fs)) <-> x = k \/ In x (keys fs).
Proof.
  induction fs as [|[k' v'] r IH]; simpl; [intuition congruence|].
  destruct (array_index k') as [j|]; [destruct (i <? j)%Z|]; simpl; rewrite ?IH; intuition congruence.
Qed.

Lemma lookup_none_keys (k : string) (fs : list (string * jval)) :
  lookup k fs = None -> ~ In k (keys fs).
Proof.
  induction fs as [|[k' v'] r IH]; simpl; [auto|].
  destruct (String.eqb_spec k k'); [discriminate|]. intros H [E|Hin]; [congruence|].
  exact (IH H Hin).
Qed.

Lemma lookup_some_keys (k : string) (fs : list (string * jval)) (v : jval) :
  lookup k fs = Some v -> In k (keys fs).
Proof.
  induction fs as [|[k' v'] r IH]; simpl; [discriminate|].
  destruct (String.eqb_spec k k'); [auto|]. intros H. right. exact (IH H).
Qed.

(** The keys after [o[k] = v]: those before, and [k]. *)
Lemma obj_set_keys (k : string) (v : jval) (fs : list (string * jval)) (x : string) :
  In x (keys (obj_set k v fs)) <-> x = k \/ In x (keys fs).
Proof.
  unfold obj_set. destruct (lookup k fs) as [w|] eqn:E.
  - rewrite replace_key_keys. split; [auto|]. intros [->|H]; [|exact H].
    exact (lookup_some_keys _ _ _ E).
  - destruct (array_index k) as [i|]; [apply insert_index_keys|].
    unfold keys. rewrite map_app, in_app_iff. simpl. intuition congruence.
Qed.


Lemma obj_set_incl (k : string) (v : jval) (fs : list (string * jval)) :
  incl (keys fs) (keys (obj_set k v fs)).
Proof. intros x Hx. apply obj_set_keys. auto. Qed.

Lemma obj_set_has (k : string) (v : jval) (fs : list (string * jval)) :
  In k (keys (obj_set k v fs)).
Proof. apply obj_set_keys. auto. Qed.

Lemma assign_incl (k : string) (v : jval) (fs : list (string * jval)) :
  incl (keys fs) (keys (assign k v fs)).
Proof.
  unfold assign. destruct (String.eqb k "__proto__"); [|apply obj_set_incl].
  destruct (lookup k fs); [apply obj_set_incl|apply incl_refl].
Qed.

Import Doc Common.

Lemma sim_runNode_incl lc (n : node) (c c' : ctx) :
  Sim.runNode lc n c = Some c' -> incl (keys c) (keys c').
Proof.
  unfold Sim.runNode, Sim.set_key, option_map. cbv zeta.
  split_innermost; intros H; try discriminate H; injection H as <-;
    try apply assign_incl; try apply incl_refl.
  eapply incl_tran; apply assign_incl.
Qed.


Lemma bind_inr {A B} (m : Live.M A) (k : A -> Live.M B) l l' b :
  Live.bind m k l = (l', inr b) -> exists l1 a, m l = (l1, inr a) /\ k a l1 = (l', inr b).
Proof.
  unfold Live.bind. destruct (m l) as [l1 [e|a]]; [discriminate|]. eauto.
Qed.

Lemma live_set_key_incl n k dflt v out l l' c' :
  Live.set_key n k dflt v out l = (l', inr c') -> incl (keys out) (keys c').
Proof.
  unfold Live.set_key. intros H. apply bind_inr in H as (l1 & key & _ & H).
  injection H as _ <-. apply obj_set_incl.
Qed.

Lemma live_exec_incl lc JSON_parse live user_id workflow_id ai_reply db_reply
  (c : ctx) (n : node) (l l' : list Live.effect) (c' : ctx) (sel : option string) :
  Live.live_exec lc JSON_parse live user_id workflow_id ai_reply db_reply c n l = (l', inr (c', sel)) ->
  incl (keys c) (keys c').
Proof.
  unfold Live.live_exec. cbv zeta. intros H.
  apply bind_inr in H as (l1 & out & H1 & H2).
  assert (Hout : out = c').
  { destruct (Live.is_type n "logic.condition").
    - apply bind_inr in H2 as (l2 & s & _ & H2). injection H2 as _ <- _. reflexivity.
    - injection H2 as _ <- _. reflexivity. }
  subst out.
  repeat match type of H1 with
         | (if ?b then _ else _) _ = _ => destruct b
         end.
  all: repeat match type of H1 with
              | Live.bind _ _ _ = _ =>
                let l2 := fresh "l" in let a := fresh "a" in let Ha := fresh "Ha" in
                apply bind_inr in H1 as (l2 & a & Ha & H1)
              end.
  all: try (eapply live_set_key_incl; exact H1).
  all: try (unfold Live.ret in H1; injection H1 as _ <-; first [apply obj_set_incl | apply incl_refl]).
  - match goal with
    | Ha : Live.set_key _ _ _ _ c _ = (_, inr ?a) |- _ =>
      eapply incl_tran; [eapply live_set_key_incl; exact Ha|eapply live_set_key_incl; exact H1]
    end.
  - unfold Live.live_db_save in H1. cbv zeta in H1.
    destruct (negb _); [discriminate H1|].
    apply bind_inr in H1 as (l2 & saved & _ & H1).
    destruct saved; [discriminate H1|]. injection H1 as _ <-. apply obj_set_incl.
  - unfold Live.live_export in H1. cbv zeta in H1.
    apply bind_inr in H1 as (l2 & data & _ & H1).
    apply bind_inr in H1 as (l3 & content & _ & H1).
    apply bind_inr in H1 as (l4 & exp & _ & H1).
    destruct exp; [discriminate H1|]. injection H1 as _ <-. apply obj_set_incl.
Qed.

Import Loop.

Lemma run_loop_keeps_keys {E : Type} (exec : E -> ctx -> node -> E * outcome) (d : workflow_doc)
  (Hexec : forall e c n e' c' sel, exec e c n = (e', inr (c', sel)) -> incl (keys c) (keys c'))
  (ordered : list node) : forall active e c steps,
  incl (keys c) (keys (lr_ctx (run_loop exec d ordered active e c steps))).
Proof.
  induction ordered as [|n rest IH]; intros active e c steps; simpl; [apply incl_refl|].
  destruct (mem (node_id n) active); [|apply IH].
  destruct (exec e c n) as [e' [msg|[out sel]]] eqn:Ex; [apply incl_refl|].
  eapply incl_tran; [exact (Hexec _ _ _ _ _ _ Ex)|apply IH].
Qed.

(** X13: A simulated node never removes a key from the context it is given. *)
Theorem sim_node_keeps_keys lc (n : node) (c c' : ctx) :
  Sim.runNode lc n c = Some c' -> incl (keys c) (keys c').
Proof. apply sim_runNode_incl. Qed.

(** X14: A live node that succeeds never removes a key from the context it is
    given. *)
Theorem live_node_keeps_keys lc JSON_parse live user_id workflow_id ai_reply db_reply
  (c : ctx) (n : node) (l l' : list Live.effect) (c' : ctx) (sel : option string) :
  Live.live_exec lc JSON_parse live user_id workflow_id ai_reply db_reply c n l = (l', inr (c', sel)) ->
  incl (keys c) (keys c').
Proof. apply live_exec_incl. Qed.

(** X15: A simulated run of a document its topological sort orders completely
    (a DAG) returns an object that still holds the run's input under the
    key [input], whether the run succeeded or failed. *)
Theorem sim_output_keeps_input lc (d : workflow_doc) (inputOverride : jval)
  (Hdag : length (Topo.topo d) = length (nodes (workflow_of d))) :
  exists fs, Sim.output (Sim.simulateWorkflow lc d inputOverride) = JObj fs /\ In "input" (keys fs).
Proof.
  unfold Sim.simulateWorkflow. cbv zeta. rewrite Hdag, Nat.eqb_refl. cbn [negb].
  eexists. split; [reflexivity|].
  apply (run_loop_keeps_keys (Sim.sim_exec lc)); [|left; reflexivity].
  intros e c n e' c' sel. unfold Sim.sim_exec.
  destruct (Sim.runNode lc n c) as [o|] eqn:Er; [|discriminate].
  intros H. eapply incl_tran; [exact (sim_runNode_incl _ _ _ _ Er)|].
  destruct (Sim.is_type n "logic.condition"); [destruct (selectConditionOutput n o)|];
    try discriminate H; injection H as _ <- _; apply incl_refl.
Qed.


(** X16: A live run answered with status 200 returns the final context under
    [output_json], and that context still holds the run's input under the
    key [input]. *)
Theorem live_success_returns_input lc JSON_parse live user_id workflow_id ai_reply db_reply
  (d : workflow_doc) (input_json : jval) :
  Live.code (snd (Live.run_live lc JSON_parse live user_id workflow_id ai_reply db_reply d input_json)) = 200 ->
  exists fs o, Live.body (snd (Live.run_live lc JSON_parse live user_id workflow_id ai_reply db_reply d input_json)) = JObj fs
               /\ lookup "output_json" fs = Some (JObj o) /\ In "input" (keys o).
Proof.
  unfold Live.run_live. cbv zeta.
  destruct (negb _); [cbn; discriminate|].
  set (r := run_loop _ d _ _ _ _ _).
  assert (Hin : In "input" (keys (lr_ctx r))).
  { apply (run_loop_keeps_keys (Live.live_step lc JSON_parse live user_id workflow_id ai_reply db_reply));
      [|left; reflexivity].
    intros e c n e' c' sel H. exact (live_exec_incl _ _ _ _ _ _ _ _ _ _ _ _ _ H). }
  destruct (lr_status r) as [|msg]; unfold Live.insert; simpl.
  2: { intros H; discriminate H. }
  destruct (db_reply _ _ _) as [m|id]; simpl; try (intros H; discriminate H).
  intros _. do 2 eexists. split; [reflexivity|]. split; [reflexivity|exact Hin].
Qed.

End ObjProofs.

(* ================================================================== *)

Module FieldProofs.
Import JsStr JsNum JsVal Doc Common Live Invariants.
Import ProofTactics.

Lemma chars_app (a b : string) : chars (a ++ b) = (chars a ++ chars b)%list.
Proof. induction a as [|c a IH]; simpl; [reflexivity|]. unfold chars in *. simpl. now rewrite IH. Qed.

Lemma length_of_chars (l : list ascii) : String.length (of_chars l) = length l.
Proof. induction l as [|c l IH]; simpl; [reflexivity|]. now rewrite IH. Qed.

Lemma chars_inj (a b : string) : chars a = chars b -> a = b.
Proof.
  intros H. rewrite <- (string_of_list_ascii_of_string a), <- (string_of_list_ascii_of_string b).
  unfold chars in H. now rewrite H.
Qed.

Lemma double_quotes_inj (l1 : list ascii) : forall l2, double_quotes l1 = double_quotes l2 -> l1 = l2.
Proof.
  induction l1 as [|c r IH]; intros [|c' r']; simpl.
  - reflexivity.
  - destruct (Ascii.eqb c' dq); discriminate.
  - destruct (Ascii.eqb c dq); discriminate.
  - destruct (Ascii.eqb c dq) eqn:E1, (Ascii.eqb c' dq) eqn:E2; intros H.
    + inversion H; subst. f_equal. auto.
    + inversion H; subst. rewrite E1 in E2. discriminate.
    + inversion H; subst. rewrite E1 in E2. discriminate.
    + inversion H; subst. f_equal. auto.
Qed.

(** X17: Two different strings never give the same CSV cell: the quoting can be
    undone. *)
Theorem csv_cell_injective (a b : string) :
  csv_cell (JStr a) = csv_cell (JStr b) -> a = b.
Proof.
  simpl. intros H. injection H as H.
  apply (f_equal chars) in H. rewrite !chars_app in H.
  apply app_inv_tail in H. unfold of_chars, chars in H.
  rewrite !list_ascii_of_string_of_list_ascii in H.
  apply chars_inj, double_quotes_inj, H.
Qed.

(** X18: A simulated summary is [Summary: ] followed by at most 180 characters
    of the input's text; it throws only when the input is not a string
    and [JSON.stringify] gives [undefined]. *)
Theorem sim_summary_shape (v : jval) :
  (forall s, Sim.summarizeText v = Some s ->
             exists t, s = "Summary: " ++ t /\ String.length t <= 180) /\
  (Sim.summarizeText v = None <-> (forall s, v <> JStr s) /\ stringify v = None).
Proof.
  assert (Hsl : forall t, String.length (slice t 0 180) <= 180).
  { intros t. unfold slice. rewrite length_of_chars, length_firstn. lia. }
  split.
  - intros s. unfold Sim.summarizeText, option_map.
    destruct v; try (destruct (stringify _)); intros H; try discriminate H;
      injection H as <-; eexists; (split; [reflexivity|apply Hsl]).
  - unfold Sim.summarizeText, option_map. split.
    + destruct v; try discriminate; (destruct (stringify _) eqn:E; [discriminate|]);
        intros _; (split; [intros s' Hs; discriminate Hs|reflexivity]).
    + intros [Hns Hst]. destruct v; try (rewrite Hst; reflexivity).
      exfalso. exact (Hns _ eq_refl).
Qed.

(** X19: [coerceFieldValue] throws only for the type [number] on a value that
    cannot be converted with [Number]. A number field becomes a finite
    number ([0] for NaN and infinities), a boolean field the truthiness of
    the value, an array field an array, and any other type a string or
    [undefined]. *)
Theorem coerce_field_value_types (v : jval) (t : string) :
  (coerceFieldValue v t = None <-> t = "number" /\ to_number v = None) /\
  (forall r, coerceFieldValue v t = Some r ->
     (t = "number" -> exists q, r = JNum (NFin q)) /\
     (t = "boolean" -> r = JBool (truthy v)) /\
     (t = "array" -> exists xs, r = JArr xs) /\
     (t <> "number" -> t <> "boolean" -> t <> "array" -> (exists s, r = JStr s) \/ r = JUndef)).
Proof.
  unfold coerceFieldValue. rewrite LiveClassifyProofs.coerce_is_to_number.
  destruct (String.eqb_spec t "number") as [->|Hn].
  - split.
    + destruct (to_number v); split; intros H; try discriminate H; try tauto.
      destruct H as [_ H]; discriminate H.
    + intros r H. destruct (to_number v) as [x|]; [|discriminate H]. injection H as <-.
      split; [|split; [discriminate|split; [discriminate|intros Hc; congruence]]].
      intros _. destruct x; simpl; eexists; reflexivity.
  - destruct (String.eqb_spec t "boolean") as [->|Hb].
    + split; [split; [discriminate|intros [H _]; discriminate H]|].
      intros r H. injection H as <-. repeat split; try discriminate; try congruence.
    + destruct (String.eqb_spec t "array") as [->|Ha].
      * split; [split; [discriminate|intros [H _]; discriminate H]|].
        intros r H. injection H as <-. repeat split; try discriminate; try congruence.
        intros _. destruct v; eexists; reflexivity.
      * split; [split; [discriminate|intros [H _]; congruence]|].
        intros r H. injection H as <-. repeat split; try congruence.
        intros _ _ _. destruct v; try (left; eexists; reflexivity);
          unfold of_opt_string; (destruct (stringify _); [left; eexists; reflexivity|right; reflexivity]).
Qed.


Lemma from_entries_spec (es : list (jval * jval)) : forall acc,
  match from_entries acc es with
  | Some fs => (forall x, In x (keys fs) <-> In x (keys acc) \/ exists k, In k (map fst es) /\ to_string k = Some x) /\
               (forall k, In k (map fst es) -> to_string k <> None)
  | None => exists k, In k (map fst es) /\ to_string k = None
  end.
Proof.
  induction es as [|[k v] r IH]; intros acc; simpl.
  - split; [|intros k []]. intros x. split; [auto|]. intros [H|(k & [] & _)]; exact H.
  - destruct (to_string k) as [ks|] eqn:Ek.
    + specialize (IH (obj_set ks v acc)). destruct (from_entries _ r) as [fs|].
      * destruct IH as [IH IHn]. split.
        2: { intros k' [<-|Hk']; [rewrite Ek; discriminate|exact (IHn _ Hk')]. }
        intros x. rewrite IH, ObjProofs.obj_set_keys. split.
        -- intros [[->|H]|(k' & H & E)]; [right; eauto|left; exact H|right; eauto].
        -- intros [H|(k' & [<-|H] & E')]; [left; right; exact H| |right; eauto].
           rewrite Ek in E'. injection E' as ->. left; left; reflexivity.
      * destruct IH as (k' & H & E). eauto.
    + eauto.
Qed.

Lemma default_fields_spec (fields : list jval) :
  match defaultExtractedFields fields with
  | Some v => (exists fs, v = JObj fs /\
               forall x, In x (keys fs) <-> exists f, In f fields /\ field_key_of f = Some x) /\
              (forall f, In f fields -> field_key_of f <> None)
  | None => exists f, In f fields /\ field_key_of f = None
  end.
Proof.
  unfold defaultExtractedFields, option_map.
  match goal with |- context [from_entries [] (map ?g fields)] =>
    pose proof (from_entries_spec (map g fields) []) as H;
    assert (Hk : map fst (map g fields) = map (fun f => nullish_or (field_get f "key") (JStr "field")) fields)
  end.
  { rewrite map_map. apply map_ext. intros f. cbv zeta.
    repeat destruct (strict_equals _ _ _); reflexivity. }
  rewrite Hk in H. destruct (from_entries _ _) as [fs|].
  - destruct H as [H Hn]. split.
    + exists fs. split; [reflexivity|]. intros x. rewrite H. split.
      * intros [Hx|(k & Hk'' & E)]; [destruct Hx|].
        apply in_map_iff in Hk'' as (f & <- & Hf). eauto.
      * intros (f & Hf & E). right. exists (nullish_or (field_get f "key") (JStr "field")).
        split; [apply in_map_iff; eauto|exact E].
    + intros f Hf. apply Hn, in_map_iff. eauto.
  - destruct H as (k & Hk' & E). apply in_map_iff in Hk' as (f & <- & Hf). eauto.
Qed.

(** X20: The simulated extraction stores one key per field spec, the spec's key
    converted by ToString ([field] when absent); it throws exactly when
    some key cannot be converted. *)
Theorem sim_extracted_keys (fields : list jval) :
  (defaultExtractedFields fields = None <-> exists f, In f fields /\ field_key_of f = None) /\
  (forall v, defaultExtractedFields fields = Some v ->
     exists fs, v = JObj fs /\ forall x, In x (keys fs) <-> exists f, In f fields /\ field_key_of f = Some x).
Proof.
  pose proof (default_fields_spec fields) as H.
  destruct (defaultExtractedFields fields) as [v|].
  - destruct H as [(fs & -> & H) Hn]. split.
    + split; [discriminate|]. intros (f & Hf & E). exfalso. exact (Hn f Hf E).
    + intros v E. injection E as <-. eauto.
  - split; [split; [intros _; exact H|reflexivity]|]. intros v E; discriminate E.
Qed.


Lemma lift_inr {A} (o : option A) l l' a : lift o l = (l', inr a) -> o = Some a /\ l' = l.
Proof. destruct o; unfold lift, ret, throw; intros H; inversion H; subst; auto. Qed.

Lemma all_some_Forall2 {A B} (g : A -> option B) (l : list A) : forall l',
  all_some (map g l) = Some l' -> Forall2 (fun a b => g a = Some b) l l'.
Proof.
  induction l as [|a r IH]; intros l' H; simpl in H.
  - injection H as <-. constructor.
  - destruct (g a) eqn:E; [|discriminate H]. unfold option_map in H.
    destruct (all_some (map g r)) eqn:E'; [|discriminate H]. injection H as <-.
    constructor; auto.
Qed.

Lemma Forall2_in_r {A B} (R : A -> B -> Prop) (l : list A) (l' : list B) (b : B) :
  Forall2 R l l' -> In b l' -> exists a, In a l /\ R a b.
Proof.
  induction 1 as [|a b' r r' Hab _ IH]; [intros []|].
  intros [<-|Hin]; [exists a; simpl; auto|]. destruct (IH Hin) as (a' & ? & ?). exists a'; simpl; auto.
Qed.

Lemma Forall2_in_l {A B} (R : A -> B -> Prop) (l : list A) (l' : list B) (a : A) :
  Forall2 R l l' -> In a l -> exists b, In b l' /\ R a b.
Proof.
  induction 1 as [|a' b r r' Hab _ IH]; [intros []|].
  intros [<-|Hin]; [exists b; simpl; auto|]. destruct (IH Hin) as (b' & ? & ?). exists b'; simpl; auto.
Qed.

Lemma fold_set_keys (parsed : list (string * jval)) (specs : list field_spec) : forall acc l l' out,
  fold_m (fun out s =>
            bind (lift (coerceFieldValue
                          (match prop_get (JObj parsed) (fs_key s) with Some v => v | None => JUndef end)
                          (fs_type s)))
                 (fun v => ret (obj_set (fs_key s) v out))) acc specs l = (l', inr out) ->
  forall x, In x (keys out) <-> In x (keys acc) \/ exists s, In s specs /\ fs_key s = x.
Proof.
  induction specs as [|s r IH]; intros acc l l' out H x; simpl in H.
  - unfold ret in H. injection H as _ <-. split; [auto|]. intros [Hx|(s & [] & _)]; exact Hx.
  - apply ObjProofs.bind_inr in H as (l1 & a & H1 & H).
    apply ObjProofs.bind_inr in H1 as (l2 & v & _ & H1). unfold ret in H1. injection H1 as <- <-.
    rewrite (IH _ _ _ _ H), ObjProofs.obj_set_keys. split.
    + intros [[->|Hx]|(s' & Hs & E)]; [right; exists s; simpl; auto|left; exact Hx|right; exists s'; simpl; auto].
    + intros [Hx|(s' & [<-|Hs] & E)]; [left; right; exact Hx|left; left; congruence|right; eauto].
Qed.

(** X21: A live extraction that succeeds returns an object whose keys are
    exactly the configured fields' keys (converted by ToString, [field]
    when absent), whether the model's answer was parsed or the defaults
    were used. *)
Theorem live_extracted_keys (JSON_parse : string -> option jval)
  (ai_reply : list effect -> string -> string -> string + string)
  (input : jval) (fields : list jval) (n : node) (l l' : list effect) (v : jval) :
  extractFieldsLive JSON_parse ai_reply input fields n l = (l', inr v) ->
  exists fs, v = JObj fs /\ forall x, In x (keys fs) <-> exists f, In f fields /\ field_key_of f = Some x.
Proof.
  unfold extractFieldsLive. destruct fields as [|f0 fr] eqn:Ef.
  - unfold ret. intros H. injection H as _ <-. exists []. split; [reflexivity|].
    intros x. split; [intros []|intros (f & [] & _)].
  - rewrite <- Ef. cbv zeta. intros H.
    apply ObjProofs.bind_inr in H as (l1 & specs & Hs & H).
    apply lift_inr in Hs as [Hs _]. apply all_some_Forall2 in Hs.
    apply ObjProofs.bind_inr in H as (l2 & content & _ & H).
    destruct (parseJsonObjectFromText JSON_parse content) as [parsed|].
    + apply ObjProofs.bind_inr in H as (l3 & out & Hf & H). unfold ret in H. injection H as _ <-.
      exists out. split; [reflexivity|]. intros x. rewrite (fold_set_keys _ _ _ _ _ _ Hf x).
      split.
      * intros [[]|(s & Hin & <-)].
        destruct (Forall2_in_r _ _ _ _ Hs Hin) as (f & Hf' & Hg).
        exists f. split; [exact Hf'|]. unfold field_key_of.
        destruct (to_string (nullish_or (field_get f "key") (JStr "field"))); [|discriminate Hg].
        destruct (to_string (nullish_or (field_get f "type") (JStr "string"))); [|discriminate Hg].
        injection Hg as <-. reflexivity.
      * intros (f & Hf' & Ek). right.
        destruct (Forall2_in_l _ _ _ _ Hs Hf') as (s & Hin & Hg).
        exists s. split; [exact Hin|]. unfold field_key_of in Ek. rewrite Ek in Hg.
        destruct (to_string (nullish_or (field_get f "type") (JStr "string"))); [|discriminate Hg].
        injection Hg as <-. reflexivity.
    + apply lift_inr in H as [H _]. pose proof (default_fields_spec fields) as Hd.
      rewrite H in Hd. destruct Hd as [Hd _]. exact Hd.
Qed.

End FieldProofs.

(* ================================================================== *)

Module OrderProofs.
Import JsStr JsVal Doc Topo Common Loop.
Import ProofTactics.

Lemma amap_get_set {V} (k k' : string) (v : V) (m : list (string * V)) :
  amap_get k (amap_set k' v m) = if String.eqb k k' then Some v else amap_get k m.
Proof.
  induction m as [|[k0 v0] r IH]; simpl.
  - reflexivity.
  - destruct (String.eqb_spec k' k0) as [->|Hne]; simpl.
    + destruct (String.eqb k k0); reflexivity.
    + destruct (String.eqb_spec k k0) as [->|Hk].
      * destruct (String.eqb_spec k0 k'); [congruence|reflexivity].
      * exact IH.
Qed.

Lemma nodes_by_id_vals (ns : list node) : forall m k v,
  amap_get k (fold_left (fun m n => amap_set (node_id n) n m) ns m) = Some v ->
  In v ns \/ amap_get k m = Some v.
Proof.
  induction ns as [|n r IH]; intros m k v H; simpl in H; [auto|].
  destruct (IH _ _ _ H) as [Hin|Hg]; [left; right; exact Hin|].
  rewrite amap_get_set in Hg. destruct (String.eqb k (node_id n)).
  - injection Hg as <-. left; left; reflexivity.
  - auto.
Qed.

Lemma kahn_vals (nodesById : list (string * node)) (fuel : nat) : forall adj indeg q ordered x,
  In x (kahn fuel nodesById adj indeg q ordered) -> In x ordered \/ exists k, amap_get k nodesById = Some x.
Proof.
  induction fuel as [|f IH]; intros adj indeg q ordered x; simpl; [auto|].
  destruct q as [|id q']; [auto|].
  destruct (fold_left _ _ _) as [indeg' q''].
  intros H. destruct (IH _ _ _ _ _ H) as [Hin|Hk]; [|right; exact Hk].
  destruct (amap_get id nodesById) as [n|] eqn:E; [|left; exact Hin].
  apply in_app_iff in Hin as [Hin|[<-|[]]]; [left; exact Hin|right; eauto].
Qed.

(** Every node of the topological order is a node of the document. *)
Lemma topo_incl (d : workflow_doc) : incl (topo d) (nodes (workflow_of d)).
Proof.
  intros x. unfold topo. cbv zeta.
  destruct (fold_left _ (edges (workflow_of d)) _) as [indeg adj].
  intros H. destruct (kahn_vals _ _ _ _ _ _ _ H) as [[]|(k & Hk)].
  destruct (nodes_by_id_vals _ _ _ _ Hk) as [Hin|Hg]; [exact Hin|discriminate Hg].
Qed.

Lemma run_loop_steps_length {E : Type} (exec : E -> ctx -> node -> E * outcome) (d : workflow_doc)
  (ordered : list node) : forall active e c steps,
  length (lr_steps (run_loop exec d ordered active e c steps)) <= length steps + length ordered.
Proof.
  induction ordered as [|n rest IH]; intros active e c steps; simpl; [lia|].
  destruct (mem (node_id n) active); [|specialize (IH active e c steps); lia].
  destruct (exec e c n) as [e' [msg|[out sel]]]; simpl.
  - rewrite length_app. simpl. lia.
  - specialize (IH (active ++ map (fun x => ep_node_id (target x)) (followed d n sel))%list e' out
                   (steps ++ [success_step n c out sel (map (fun x => ep_node_id (target x)) (followed d n sel))])%list).
    rewrite length_app in IH. simpl in IH. lia.
Qed.

Lemma run_loop_steps_from {E : Type} (exec : E -> ctx -> node -> E * outcome) (d : workflow_doc) (ordered : list node) :
  forall active e c steps s,
  In s (lr_steps (run_loop exec d ordered active e c steps)) -> In s steps \/ In (s_node_id s) (map node_id ordered).
Proof.
  induction ordered as [|n rest IH]; intros active e c steps s; simpl; [auto|].
  destruct (mem (node_id n) active).
  - destruct (exec e c n) as [e' [msg|[out sel]]]; simpl.
    + intros H. apply in_app_iff in H as [H|[<-|[]]]; auto.
    + intros H. destruct (IH _ _ _ _ _ H) as [H'|H']; [|auto].
      apply in_app_iff in H' as [H'|[<-|[]]]; auto.
  - intros H. destruct (IH _ _ _ _ _ H); auto.
Qed.


Section Reach.
Context {E : Type}.
Variable exec : E -> ctx -> node -> E * outcome.
Variable d : workflow_doc.

(** [x] is the entry node, or the target of an edge leaving the node of
    one of the first [k] steps. *)
Let reached (steps : list step) (k : nat) (x : string) : Prop :=
  x = entry_node_id (workflow_of d) \/
  exists j s' ed, j < k /\ nth_error steps j = Some s' /\ In ed (edges (workflow_of d)) /\
                  ep_node_id (source ed) = s_node_id s' /\ ep_node_id (target ed) = x.

Let steps_ok (steps : list step) : Prop :=
  forall i s, nth_error steps i = Some s -> reached steps i (s_node_id s).

Let active_ok (active : list string) (steps : list step) : Prop :=
  forall x, In x active -> reached steps (length steps) x.

Lemma reached_snoc (steps : list step) (s : step) (k : nat) (x : string) :
  k <= length steps -> reached steps k x -> reached (steps ++ [s])%list k x.
Proof.
  intros Hk [H|(j & s' & ed & Hj & Hn & He & Hs & Ht)]; [left; exact H|right].
  exists j, s', ed. rewrite nth_error_app1 by lia. repeat split; auto.
Qed.

Lemma steps_ok_snoc (steps : list step) (s : step) :
  steps_ok steps -> reached steps (length steps) (s_node_id s) -> steps_ok (steps ++ [s])%list.
Proof.
  intros Hok Hs i s0 Hi. destruct (Nat.lt_ge_cases i (length steps)) as [Hlt|Hge].
  - rewrite nth_error_app1 in Hi by exact Hlt. apply reached_snoc; [lia|]. exact (Hok _ _ Hi).
  - rewrite nth_error_app2 in Hi by exact Hge.
    destruct (i - length steps) as [|m] eqn:Em; [|destruct m; discriminate Hi].
    injection Hi as <-. replace i with (length steps) by lia. apply reached_snoc; [lia|exact Hs].
Qed.

Lemma followed_edges (n : node) (sel : option string) (ed : edge) :
  In ed (followed d n sel) -> In ed (edges (workflow_of d)) /\ ep_node_id (source ed) = node_id n.
Proof.
  assert (Ho : In ed (outgoing d (node_id n)) -> In ed (edges (workflow_of d)) /\ ep_node_id (source ed) = node_id n).
  { unfold outgoing. rewrite filter_In. intros [H1 H2]. split; [exact H1|]. apply String.eqb_eq, H2. }
  unfold followed. destruct sel as [p|]; [|exact Ho].
  destruct (_ && _); [|exact Ho]. rewrite filter_In. intros [H _]. exact (Ho H).
Qed.

Lemma run_loop_reach (ordered : list node) : forall active e c steps,
  steps_ok steps -> active_ok active steps ->
  steps_ok (lr_steps (run_loop exec d ordered active e c steps)).
Proof.
  induction ordered as [|n rest IH]; intros active e c steps Hs Ha; simpl; [exact Hs|].
  destruct (mem (node_id n) active) eqn:Em; [|exact (IH _ _ _ _ Hs Ha)].
  assert (Hn : reached steps (length steps) (node_id n)).
  { apply Ha, LiveClassifyProofs.mem_In, Em. }
  destruct (exec e c n) as [e' [msg|[out sel]]]; simpl.
  - apply steps_ok_snoc; [exact Hs|exact Hn].
  - apply IH; [apply steps_ok_snoc; [exact Hs|exact Hn]|].
    intros x Hx. rewrite length_app. simpl. apply in_app_iff in Hx as [Hx|Hx].
    + specialize (Ha x Hx).
      destruct Ha as [H|(j & s' & ed & Hj & Hn' & He & Hsrc & Ht)]; [left; exact H|right].
      exists j, s', ed. rewrite nth_error_app1 by lia. repeat split; auto. lia.
    + apply in_map_iff in Hx as (ed & <- & Hed). destruct (followed_edges _ _ _ Hed) as [He Hsrc].
      right. exists (length steps), (success_step n c out sel (map (fun x => ep_node_id (target x)) (followed d n sel))), ed.
      rewrite nth_error_app2 by lia. rewrite Nat.sub_diag. repeat split; auto. lia.
Qed.

Lemma run_loop_reach_start (ordered : list node) (e : E) (c : ctx) :
  forall i s, nth_error (lr_steps (run_loop exec d ordered [entry_node_id (workflow_of d)] e c [])) i = Some s ->
  s_node_id s = entry_node_id (workflow_of d) \/
  exists j s' ed, j < i /\ nth_error (lr_steps (run_loop exec d ordered [entry_node_id (workflow_of d)] e c [])) j = Some s' /\
                  In ed (edges (workflow_of d)) /\
                  ep_node_id (source ed) = s_node_id s' /\ ep_node_id (target ed) = s_node_id s.
Proof.
  apply run_loop_reach.
  - intros i s H. destruct i; discriminate H.
  - intros x [<-|[]]. left. reflexivity.
Qed.
End Reach.


(** X22: In either engine, every step of a run is the entry node's step or the
    step of a node that an edge leaves from the node of an earlier step:
    a run only ever moves along the document's edges. *)
Theorem run_steps_follow_edges {E : Type} (exec : E -> ctx -> node -> E * outcome)
  (d : workflow_doc) (e : E) (c : ctx) (i : nat) (s : step)
  (Hs : nth_error (lr_steps (run_loop exec d (topo d) [entry_node_id (workflow_of d)] e c [])) i = Some s) :
  s_node_id s = entry_node_id (workflow_of d) \/
  exists j s' ed, j < i /\ nth_error (lr_steps (run_loop exec d (topo d) [entry_node_id (workflow_of d)] e c [])) j = Some s' /\
                  In ed (edges (workflow_of d)) /\
                  ep_node_id (source ed) = s_node_id s' /\ ep_node_id (target ed) = s_node_id s.
Proof. exact (run_loop_reach_start exec d (topo d) e c i s Hs). Qed.

(** X23: A simulated run has at most one step per node of the document, and
    each step is the step of one of its nodes. *)
Theorem sim_steps_within_document lc (d : workflow_doc) (inputOverride : jval) :
  length (Sim.steps (Sim.simulateWorkflow lc d inputOverride)) <= length (nodes (workflow_of d)) /\
  forall s, In s (Sim.steps (Sim.simulateWorkflow lc d inputOverride)) -> In (s_node_id s) (node_ids d).
Proof.
  unfold Sim.simulateWorkflow. cbv zeta.
  destruct (Nat.eqb_spec (length (topo d)) (length (nodes (workflow_of d)))) as [Hd|Hd]; simpl.
  - split.
    + rewrite <- Hd. pose proof (run_loop_steps_length (Sim.sim_exec lc) d (topo d)
        [entry_node_id (workflow_of d)] tt [("input", clone (nullish_or inputOverride (trigger_input d)))] []) as H.
      simpl in H. exact H.
    + intros s H. apply run_loop_steps_from in H as [[]|H].
      apply in_map_iff in H as (n & Hn & Hin). unfold node_ids. rewrite <- Hn.
      apply in_map, topo_incl, Hin.
  - split; [lia|]. intros s [].
Qed.

End OrderProofs.

(* ================================================================== *)

Module ServeProofs.
Import JsStr JsNum JsVal Doc Common Live Invariants Handler.
Import ProofTactics.

Lemma negb_false (b : bool) : negb b = false -> b = true.
Proof. destruct b; auto. Qed.

Lemma ge_false_lt (c q : Q) : ge (NFin c) (NFin q) = false -> (c < q)%Q.
Proof.
  unfold ge, le, lt_opt, Qlt_bool. intros H. apply negb_false, negb_true_iff in H.
  apply Qnot_le_lt. intros Hle. apply Qle_bool_iff in Hle. congruence.
Qed.

Lemma lt_false_le (q : Q) : lt (NFin q) (NFin 1) = false -> (1 <= q)%Q.
Proof.
  unfold lt, lt_opt, Qlt_bool. intros H. apply negb_false_iff in H. apply Qle_bool_iff, H.
Qed.

(** X24: The [Access-Control-Allow-Origin] header is [*] for a request without
    an origin; otherwise it echoes the origin, unless the origin is a
    non-empty string missing from a non-empty allow-list, in which case it
    is [null]. *)
Theorem cors_allow_origin_header (allow : list string) (origin : option string) :
  exists v rest, corsHeadersForOrigin allow origin = ("Access-Control-Allow-Origin", v) :: rest /\
    ((origin = None /\ v = "*") \/
     (exists o, origin = Some o /\ v = o /\ (o = "" \/ allow = [] \/ In o allow)) \/
     (exists o, origin = Some o /\ v = "null" /\ o <> "" /\ allow <> [] /\ ~ In o allow /\
                origin_blocked allow origin = true)).
Proof.
  unfold corsHeadersForOrigin, origin_blocked. do 2 eexists. split; [reflexivity|].
  destruct origin as [o|]; [|left; auto]. right.
  destruct (String.eqb_spec o "") as [->|Ho]; simpl.
  - left. eauto.
  - destruct (Nat.eqb_spec (length allow) 0) as [Hl|Hl]; simpl.
    + left. exists o. split; [reflexivity|]. split; [reflexivity|]. right; left.
      destruct allow; [reflexivity|discriminate Hl].
    + destruct (mem o allow) eqn:Em; simpl.
      * left. exists o. repeat split; auto. right; right. apply LiveClassifyProofs.mem_In, Em.
      * right. exists o. repeat split; auto.
        -- intros ->. apply Hl. reflexivity.
        -- intros Hin. apply LiveClassifyProofs.mem_In in Hin. congruence.
Qed.


(** X25: The handler calls the model or writes a row only for a [POST] from an
    allowed origin, with a non-empty bearer token that authenticates a
    user, a valid monthly limit that the user's run count is below, and a
    body naming a workflow that this user owns and whose definition has
    nodes and edges; every row written then carries that user's id. *)
Theorem effects_need_authorised_owner lc JSON_parse ai_reply db_reply env get_user period_start
  runs_count load_workflow (req : request) (l : list effect) (resp : http_response) :
  serve lc JSON_parse ai_reply db_reply env get_user period_start runs_count load_workflow req = (l, resp) ->
  l <> [] ->
  req_method req = "POST" /\ origin_blocked (allow_list env) (req_origin req) = false /\
  exists user body wid wf_id d cnt q,
    bearer_ok (match req_authorization req with Some a => a | None => "" end) = true /\
    get_user (match req_authorization req with Some a => a | None => "" end) = Some user /\
    RUN_WORKFLOW_MONTHLY_LIMIT env = NFin q /\ (1 <= q)%Q /\
    runs_count user period_start = inr cnt /\
    (inject_Z (match cnt with Some k => k | None => 0%Z end) < q)%Q /\
    req_json req = inr body /\ prop_get body "workflow_id" = Some wid /\ truthy wid = true /\
    load_workflow wid = Some (wf_id, user, Some d) /\
    Forall (fun e => match e with
                     | DbInsert _ row => row_user row = Some (JStr user)
                     | AiCall _ _ => True
                     end) l.
Proof.
  unfold serve, serve_try. cbv zeta. split_innermost; intros H Hl;
    injection H as <- _; try (exfalso; exact (Hl eq_refl)).
  all: repeat match goal with H : negb _ = false |- _ => apply negb_false in H end.
  all: repeat match goal with H : String.eqb _ _ = true |- _ => apply String.eqb_eq in H end.
  all: subst.
  all: match goal with
       | HL : (negb (isFinite ?L) || lt ?L (NFin 1))%bool = false |- _ =>
         destruct L as [q| |] eqn:EL; simpl in HL; try discriminate HL;
         apply lt_false_le in HL
       end.
  all: match goal with E : run_live ?a1 ?a2 ?a3 ?a4 ?a5 ?a6 ?a7 ?d ?i = _ |- _ =>
    pose proof (EffectProofs.run_live_effects a1 a2 a3 a4 a5 a6 a7 d i) as HR; cbv zeta in HR; rewrite E in HR; simpl in HR;
    destruct HR as [(_ & Hnil & _)|(_ & l' & row & Hl' & Hrow & F)];
    [exfalso; exact (Hl Hnil)|subst]
  end.
  all: split; [assumption|split; [reflexivity|]].
  all: do 7 eexists.
  all: repeat (split; [first [reflexivity | eassumption | apply ge_false_lt; eassumption]|]).
  all: apply Forall_app; split; [|constructor; [exact Hrow|constructor]].
  all: eapply Forall_impl; [|exact F]; intros [s' p'|t' r'] Ht; [exact I|apply Ht].
Qed.


Lemma ltrim_suffix (l : list ascii) : exists p, l = (p ++ ltrim l)%list.
Proof.
  induction l as [|c r IH]; simpl; [exists []; reflexivity|].
  destruct (is_ws c); [destruct IH as [p Hp]; exists (c :: p); simpl; congruence|exists []; reflexivity].
Qed.

Lemma ltrim_head (l : list ascii) : ltrim l = [] \/ exists c r, ltrim l = c :: r /\ is_ws c = false.
Proof.
  induction l as [|c r IH]; simpl; [left; reflexivity|].
  destruct (is_ws c) eqn:E; [exact IH|right; eauto].
Qed.

Lemma ltrim_nows (l : list ascii) : (l = [] \/ exists c r, l = c :: r /\ is_ws c = false) -> ltrim l = l.
Proof. intros [->|(c & r & -> & E)]; simpl; [reflexivity|]. rewrite E. reflexivity. Qed.

Lemma trim_idem (s : string) : trim (trim s) = trim s.
Proof.
  unfold trim, of_chars, chars. rewrite list_ascii_of_string_of_list_ascii.
  pose proof (ltrim_head (list_ascii_of_string s)) as HA0.
  remember (ltrim (list_ascii_of_string s)) as A eqn:HA.
  pose proof (ltrim_head (rev A)) as HB0.
  remember (ltrim (rev A)) as B eqn:HBd.
  assert (HB : ltrim (rev B) = rev B).
  { destruct (ltrim_suffix (rev A)) as [p Hp]. rewrite <- HBd in Hp.
    apply (f_equal (@rev ascii)) in Hp. rewrite rev_involutive, rev_app_distr in Hp.
    apply ltrim_nows. destruct (rev B) as [|c r] eqn:Er; [left; reflexivity|right].
    exists c, r. split; [reflexivity|].
    destruct HA0 as [Hn|(c' & r' & Hc & Hw)].
    - rewrite Hn in Hp. destruct (rev p); discriminate Hp.
    - rewrite Hc in Hp. injection Hp as <- _. exact Hw. }
  rewrite HB, rev_involutive. f_equal. f_equal.
  apply ltrim_nows. destruct HB0 as [Hn|(c & r & Hc & Hw)]; [left; exact Hn|right; eauto].
Qed.

(** X26: Every origin of the allow-list is non-empty and has no surrounding
    white space. *)
Theorem allow_list_entries_trimmed (env : option string) (o : string) :
  In o (CORS_ALLOW_ORIGINS env) -> o <> "" /\ trim o = o.
Proof.
  unfold CORS_ALLOW_ORIGINS. rewrite filter_In, in_map_iff.
  intros [(p & <- & _) Hne]. split.
  - intros E. rewrite E in Hne. discriminate Hne.
  - apply trim_idem.
Qed.

End ServeProofs.

(* ================================================================== *)
(** ** Witnesses: each theorem above with a premise, applied where the
    premise holds *)

Module ExtraWitnesses.
Import JsStr JsNum JsVal Doc Schema Semantic Common Loop Live Fixtures Cases Invariants Handler ExtraCases.

Lemma accepted_ids_unique_witness :
  validateWorkflowDoc baseDoc = VOk baseDoc /\
  NoDup (node_ids baseDoc) /\ NoDup (map edge_id (edges (workflow_of baseDoc))).
Proof. split; [vm_compute; reflexivity|]. apply (SchemaProofs.accepted_ids_unique baseDoc baseDoc). vm_compute; reflexivity. Defined.

Lemma delete_keeps_entry_and_edges_witness :
  exists d', deleteNode baseDoc "n2" = Some d' /\
  exists id, In id (node_ids baseDoc) /\ id <> entry_node_id (workflow_of baseDoc) /\
    entry_node_id (workflow_of d') = entry_node_id (workflow_of baseDoc) /\
    node_ids d' = filter (fun i => negb (String.eqb i id)) (node_ids baseDoc) /\
    (forall e, In e (edges (workflow_of d')) <->
       In e (edges (workflow_of baseDoc)) /\ ep_node_id (source e) <> id /\
       ep_node_id (target e) <> id) /\
    (edges_closed baseDoc = true -> edges_closed d' = true).
Proof. eexists; split; [reflexivity|]. apply (EditProofs.delete_keeps_entry_and_edges baseDoc _ "n2"). vm_compute; reflexivity. Defined.

Lemma sim_node_keeps_keys_witness :
  exists c', Sim.runNode code_unit_compare n2 [("input", JStr "hello")] = Some c' /\
    incl (keys [("input", JStr "hello")]) (keys c').
Proof. eexists; split; [reflexivity|]. apply (ObjProofs.sim_node_keeps_keys code_unit_compare n2). reflexivity. Defined.

Lemma live_node_keeps_keys_witness :
  exists l' c' sel, Live.live_exec code_unit_compare Json.parse true "u1" "w1" (ai_const "ok") db_accept
     [("input", JStr "hello")] n2 [] = (l', inr (c', sel)) /\
    incl (keys [("input", JStr "hello")]) (keys c').
Proof. do 3 eexists; split; [reflexivity|]. eapply (ObjProofs.live_node_keeps_keys code_unit_compare Json.parse true "u1" "w1" (ai_const "ok") db_accept _ n2 []). reflexivity. Defined.

Lemma live_success_returns_input_witness :
  Live.code (snd (Live.run_live code_unit_compare Json.parse true "u1" "w1" (ai_const "ok") db_accept baseDoc (JObj []))) = 200 /\
  exists fs o, Live.body (snd (Live.run_live code_unit_compare Json.parse true "u1" "w1" (ai_const "ok") db_accept baseDoc (JObj []))) = JObj fs
               /\ lookup "output_json" fs = Some (JObj o) /\ In "input" (keys o).
Proof. split; [vm_compute; reflexivity|]. apply ObjProofs.live_success_returns_input. vm_compute; reflexivity. Defined.

Lemma sim_output_keeps_input_witness :
  length (Topo.topo baseDoc) = length (nodes (workflow_of baseDoc)) /\
  exists fs, Sim.output (Sim.simulateWorkflow code_unit_compare baseDoc (JObj [])) = JObj fs /\ In "input" (keys fs).
Proof. split; [vm_compute; reflexivity|]. apply ObjProofs.sim_output_keeps_input. vm_compute; reflexivity. Defined.

Lemma effects_need_authorised_owner_witness :
  exists l resp,
  serve code_unit_compare Json.parse (ai_const "ok") db_accept env_ok get_user_ok "2026-10-01T00:00:00.000Z"
    runs_zero load_base post_req = (l, resp) /\ l <> [] /\
  req_method post_req = "POST" /\ origin_blocked (allow_list env_ok) (req_origin post_req) = false /\
  exists user body wid wf_id d cnt q,
    bearer_ok (match req_authorization post_req with Some a => a | None => "" end) = true /\
    get_user_ok (match req_authorization post_req with Some a => a | None => "" end) = Some user /\
    RUN_WORKFLOW_MONTHLY_LIMIT env_ok = NFin q /\ (1 <= q)%Q /\
    runs_zero user "2026-10-01T00:00:00.000Z" = inr cnt /\
    (inject_Z (match cnt with Some k => k | None => 0%Z end) < q)%Q /\
    req_json post_req = inr body /\ prop_get body "workflow_id" = Some wid /\ truthy wid = true /\
    load_base wid = Some (wf_id, user, Some d) /\
    Forall (fun e => match e with
                     | DbInsert _ row => row_user row = Some (JStr user)
                     | AiCall _ _ => True
                     end) l.
Proof.
  do 2 eexists; split; [apply surjective_pairing|].
  split; [vm_compute; discriminate|].
  eapply (ServeProofs.effects_need_authorised_owner code_unit_compare Json.parse (ai_const "ok") db_accept
           env_ok get_user_ok "2026-10-01T00:00:00.000Z" runs_zero load_base post_req).
  - apply surjective_pairing.
  - vm_compute; discriminate.
Defined.

Lemma allow_list_entries_trimmed_witness :
  In "https://a.com" (CORS_ALLOW_ORIGINS (Some " https://a.com , ,https://b.org")) /\
  "https://a.com" <> "" /\ trim "https://a.com" = "https://a.com".
Proof.
  split; [vm_compute; left; reflexivity|].
  apply (ServeProofs.allow_list_entries_trimmed (Some " https://a.com , ,https://b.org")).
  vm_compute; left; reflexivity.
Defined.

Lemma run_steps_follow_edges_witness :
  exists s,
  nth_error (lr_steps (Loop.run_loop (Sim.sim_exec code_unit_compare) baseDoc (Topo.topo baseDoc)
               [entry_node_id (workflow_of baseDoc)] tt [("input", JObj [])] [])) 1 = Some s /\
  (s_node_id s = entry_node_id (workflow_of baseDoc) \/
   exists j s' ed, j < 1 /\
     nth_error (lr_steps (Loop.run_loop (Sim.sim_exec code_unit_compare) baseDoc (Topo.topo baseDoc)
                  [entry_node_id (workflow_of baseDoc)] tt [("input", JObj [])] [])) j = Some s' /\
     In ed (edges (workflow_of baseDoc)) /\
     ep_node_id (source ed) = s_node_id s' /\ ep_node_id (target ed) = s_node_id s).
Proof.
  eexists; split; [reflexivity|].
  apply OrderProofs.run_steps_follow_edges. reflexivity.
Defined.

Lemma csv_cell_injective_witness :
  csv_cell (JStr ("say " ++ qs "hi, there")) = csv_cell (JStr ("say " ++ qs "hi, there")) /\
  "say " ++ qs "hi, there" = "say " ++ qs "hi, there".
Proof. split; [reflexivity|]. apply FieldProofs.csv_cell_injective. reflexivity. Defined.

Lemma live_extracted_keys_witness :
  exists l' v,
  Live.extractFieldsLive Json.parse (ai_const ("{" ++ Live.qs "a" ++ ":1}"))
    (JStr "hello") [JObj [("key", JStr "a"); ("type", JStr "number")]] n2 [] = (l', inr v) /\
  exists fs, v = JObj fs /\ forall x, In x (keys fs) <->
    exists f, In f [JObj [("key", JStr "a"); ("type", JStr "number")]] /\ field_key_of f = Some x.
Proof.
  match goal with
  | |- exists l' v, ?t = _ /\ _ =>
    let r := eval vm_compute in t in
    match r with (?a, inr ?b) => exists a, b end
  end.
  split; [vm_compute; reflexivity|].
  eapply (FieldProofs.live_extracted_keys Json.parse (ai_const ("{" ++ Live.qs "a" ++ ":1}"))
    (JStr "hello") [JObj [("key", JStr "a"); ("type", JStr "number")]] n2 [] _ _).
  vm_compute; reflexivity.
Defined.

Lemma accepted_edges_reference_ports_witness :
  validateWorkflowDoc baseDoc = VOk baseDoc /\
  forall e, In e (edges (workflow_of baseDoc)) ->
    (exists sn, In sn (nodes (workflow_of baseDoc)) /\ node_id sn = ep_node_id (source e) /\
                In (ep_port_id (source e)) (map port_id (outputs sn))) /\
    (exists tn, In tn (nodes (workflow_of baseDoc)) /\ node_id tn = ep_node_id (target e) /\
                In (ep_port_id (target e)) (map port_id (inputs tn))).
Proof. split; [vm_compute; reflexivity|]. apply (SchemaProofs.accepted_edges_reference_ports baseDoc baseDoc). vm_compute; reflexivity. Defined.

Lemma accepted_entry_is_trigger_witness :
  validateWorkflowDoc baseDoc = VOk baseDoc /\
  exists t, filter is_trigger (nodes (workflow_of baseDoc)) = [t] /\
            entry_node_id (workflow_of baseDoc) = node_id t /\
            inputs t = [] /\ trigger baseDoc = Some t.
Proof. split; [vm_compute; reflexivity|]. apply (SchemaProofs.accepted_entry_is_trigger baseDoc baseDoc). vm_compute; reflexivity. Defined.

Lemma accepted_node_shapes_witness :
  validateWorkflowDoc baseDoc = VOk baseDoc /\
  nodes (workflow_of baseDoc) <> [] /\
  forall n, In n (nodes (workflow_of baseDoc)) ->
    In (node_type n) allowedNodeTypes /\ outputs n <> [] /\
    (is_trigger n = true -> inputs n = []) /\ (is_trigger n = false -> inputs n <> []).
Proof. split; [vm_compute; reflexivity|]. apply (SchemaProofs.accepted_node_shapes baseDoc baseDoc). vm_compute; reflexivity. Defined.

Lemma accepted_condition_selects_own_port_witness :
  validateWorkflowDoc cond_doc = VOk cond_doc /\
  forall n, In n (nodes (workflow_of cond_doc)) -> node_type n = "logic.condition" ->
    2 <= length (outputs n) /\
    (exists o, cfg n "default_output" = JStr o /\ In o (map port_id (outputs n))) /\
    forall c sel, selectConditionOutput n c = Some sel ->
      exists p, sel = Some p /\ In p (map port_id (outputs n)).
Proof. split; [vm_compute; reflexivity|]. apply (SchemaProofs.accepted_condition_selects_own_port cond_doc cond_doc). vm_compute; reflexivity. Defined.

Lemma connect_appends_one_edge_witness :
  exists d', connectNodes baseDoc "n1" "n3" = Some d' /\
  map node_frame (nodes (workflow_of d')) = map node_frame (nodes (workflow_of baseDoc)) /\
  entry_node_id (workflow_of d') = entry_node_id (workflow_of baseDoc) /\
  exists e, edges (workflow_of d') = (edges (workflow_of baseDoc) ++ [e])%list /\
    edge_id e = nextEdgeId baseDoc /\
    (exists sn, In sn (nodes (workflow_of baseDoc)) /\ node_id sn = ep_node_id (source e) /\
                In (ep_port_id (source e)) (map port_id (outputs sn))) /\
    (exists tn, In tn (nodes (workflow_of baseDoc)) /\ node_id tn = ep_node_id (target e) /\
                In (ep_port_id (target e)) (map port_id (inputs tn))) /\
    (edges_closed baseDoc = true -> edges_closed d' = true).
Proof. eexists; split; [reflexivity|]. apply (EditProofs.connect_appends_one_edge baseDoc _ "n1" "n3"). vm_compute; reflexivity. Defined.

Lemma rename_changes_only_names_witness :
  exists d', renameNode baseDoc "summarize" "Score Lead" = Some d' /\
  map node_frame (nodes (workflow_of d')) = map node_frame (nodes (workflow_of baseDoc)) /\
  edges (workflow_of d') = edges (workflow_of baseDoc) /\
  entry_node_id (workflow_of d') = entry_node_id (workflow_of baseDoc) /\
  exists i n, nth_error (nodes (workflow_of baseDoc)) i = Some n /\
    String.eqb (toLowerCase (node_id n)) (toLowerCase "summarize")
    || String.eqb (toLowerCase (node_name n)) (toLowerCase "summarize") = true /\
    map node_name (nodes (workflow_of d')) =
      (firstn i (map node_name (nodes (workflow_of baseDoc))) ++ "Score Lead"
         :: skipn (S i) (map node_name (nodes (workflow_of baseDoc))))%list.
Proof. eexists; split; [reflexivity|]. apply (EditProofs.rename_changes_only_names baseDoc _ "summarize" "Score Lead"). vm_compute; reflexivity. Defined.

Lemma add_node_appends_node_witness :
  exists d', addNodeAtEnd baseDoc "ai.classify" = Some d' /\
    entry_node_id (workflow_of d') = entry_node_id (workflow_of baseDoc) /\
    exists nn, map node_frame (nodes (workflow_of d')) =
                 (map node_frame (nodes (workflow_of baseDoc)) ++ [node_frame nn])%list /\
      node_id nn = nextNodeId baseDoc /\ node_type nn = "ai.classify" /\
      (edges (workflow_of d') = edges (workflow_of baseDoc) \/
       exists e, edges (workflow_of d') = (edges (workflow_of baseDoc) ++ [e])%list /\
         edge_id e = nextEdgeId baseDoc /\ ep_node_id (target e) = nextNodeId baseDoc /\
         In (ep_port_id (target e)) (map port_id (inputs nn)) /\
         exists sn, In sn (nodes (workflow_of baseDoc)) /\ node_id sn = ep_node_id (source e) /\
                    In (ep_port_id (source e)) (map port_id (outputs sn))).
Proof.
  eexists; split; [reflexivity|].
  apply (proj2 (EditProofs.add_node_appends_node baseDoc "ai.classify")). vm_compute; reflexivity.
Defined.

Lemma edit_result_validated_witness :
  exists r, applySemanticCommand baseDoc "add delay 30 seconds" = Some r /\ ok r = true /\
    exists d', result_workflow r = Some d' /\ validateWorkflowDoc d' = VOk d'.
Proof.
  match goal with
  | |- exists r, ?t = Some _ /\ _ =>
    let v := eval vm_compute in t in
    match v with Some ?x => exists x end
  end.
  split; [vm_compute; reflexivity|]. split; [vm_compute; reflexivity|].
  apply (proj2 (EditProofs.edit_result_validated baseDoc "add delay 30 seconds")); vm_compute; reflexivity.
Defined.

Lemma coerce_field_value_types_witness :
  exists r, Live.coerceFieldValue (JStr " 42 ") "number" = Some r /\ exists q, r = JNum (NFin q).
Proof.
  eexists; split; [vm_compute; reflexivity|].
  apply (proj2 (FieldProofs.coerce_field_value_types (JStr " 42 ") "number")); [vm_compute; reflexivity|reflexivity].
Defined.

Lemma sim_summary_shape_witness :
  exists s, Sim.summarizeText (JStr "hello") = Some s /\
    exists t, s = "Summary: " ++ t /\ String.length t <= 180.
Proof.
  eexists; split; [reflexivity|].
  apply (proj1 (FieldProofs.sim_summary_shape (JStr "hello"))). reflexivity.
Defined.

Lemma sim_extracted_keys_witness :
  exists v, defaultExtractedFields [JObj [("key", JStr "a")]; JObj [("type", JStr "number")]] = Some v /\
    exists fs, v = JObj fs /\ forall x, In x (keys fs) <->
      exists f, In f [JObj [("key", JStr "a")]; JObj [("type", JStr "number")]] /\ field_key_of f = Some x.
Proof.
  eexists; split; [reflexivity|].
  apply (proj2 (FieldProofs.sim_extracted_keys [JObj [("key", JStr "a")]; JObj [("type", JStr "number")]])).
  reflexivity.
Defined.

End ExtraWitnesses.
